(** * mlflow-example: a shallow embedding of [mlflow_example.ipynb]

    The notebook is a linear script: it configures an MLflow tracking
    client, defines the classifier [SimpleNN], trains it for five epochs on
    MNIST while logging two parameters and two metrics per epoch, logs and
    registers the trained model, reloads version 1 of the registered model
    and runs [predict_and_visualize] on one test image.

    The notebook's own code (the class, the training cell, the function
    [predict_and_visualize]) is embedded statement by statement in a state
    and exception monad over a [world] that holds the Python process state
    and the state of the tracking server.  The libraries it calls (torch,
    torchvision, mlflow, matplotlib) are modelled by their documented
    contracts; tensor arithmetic is kept abstract in the class [Torch],
    Python's own floats are IEEE binary64 and are modelled by Rocq's
    primitive floats. *)

From Stdlib Require Import ZArith Floats Uint63.
From stdpp Require Import gmap strings list fin_maps pretty.

Set Default Proof Using "Type".
#[local] Set Warnings "-inexact-float".


(** ** Exceptions and results *)

Inductive exn : Type :=
  | ConnectionError          (* the tracking server cannot be reached *)
  | DownloadError            (* the dataset cannot be downloaded *)
  | RuntimeError             (* torch: shapes do not fit *)
  | IndexError               (* index out of range *)
  | ValueError               (* [item()] on a tensor that is not a singleton *)
  | TypeError                (* matplotlib: not an image *)
  | ZeroDivisionError        (* Python: division by zero *)
  | MlflowException.         (* mlflow: run, artifact or model version missing *)

#[global] Instance exn_eq_dec : EqDecision exn.
Proof. solve_decision. Defined.

Inductive result (A : Type) : Type :=
  | Val (a : A)
  | Exn (e : exn).
Arguments Val {A} a.
Arguments Exn {A} e.

Definition rbind {A B} (r : result A) (k : A → result B) : result B :=
  match r with
  | Val a => k a
  | Exn e => Exn e
  end.

Notation "x ←r m ; k" := (rbind m (λ x, k))
  (at level 20, m at level 100, k at level 200, only parsing).

(** ** Tensors

    A tensor is a shape and its elements in row-major order, as a contiguous
    torch tensor is.  The element type [R] (float32 in the notebook) and its
    arithmetic are parameters. *)

Record tensor (R : Type) : Type := Tensor { shape : list nat; data : list R }.
Arguments Tensor {R} shape data.
Arguments shape {R} t.
Arguments data {R} t.

Definition numel {R} (t : tensor R) : nat := foldr Nat.mul 1 (shape t).

Definition tensor_wf {R} (t : tensor R) : Prop := length (data t) = numel t.

(** The rows of a row-major matrix with [k] columns. *)
Definition rows {A} (k : nat) (l : list A) : list (list A) :=
  (λ i, take k (drop (i * k) l)) <$> seq 0 (length l / k).

(** What torch and autograd compute on elements is outside the notebook; the
    class lists the operations the embedding needs. *)
Class Torch (R : Type) : Type := {
  Rzero : R;
  Radd : R → R → R;
  Rsub : R → R → R;
  Rmul : R → R → R;
  Rltb : R → R → bool;
  (* multiplication by a Python float: the optimizer's [lr] and [momentum] *)
  Rscale : float → R → R;
  (* [Tensor.item()]: the element as a Python float *)
  Ritem : R → float;
  (* [transforms.Normalize((0.5,), (0.5,))] on one element *)
  Rnormalize : R → R;
  (* [nn.CrossEntropyLoss()] on logits rows and class labels *)
  cross_entropy_value : list (list R) → list nat → R;
  (* [loss.backward()]: the derivative of the loss with respect to element
     [j] of parameter [p], for the given parameters, input and labels *)
  autograd : list (list R) → tensor R → list nat → nat → nat → R;
}.

(** An instance for worked examples: tensors of doubles, a criterion that is
    constant (ln 10, the cross-entropy of ten equal logits) and hence a
    gradient that is zero. *)
Module Float64.
Definition ln10 : float := 2.302585092994046%float.

#[export] Instance torch : Torch float := {|
  Rzero := 0%float;
  Radd := PrimFloat.add;
  Rsub := PrimFloat.sub;
  Rmul := PrimFloat.mul;
  Rltb := PrimFloat.ltb;
  Rscale := PrimFloat.mul;
  Ritem := id;
  Rnormalize := λ x, ((x - 0.5) / 0.5)%float;
  cross_entropy_value := λ _ _, ln10;
  autograd := λ _ _ _ _ _, 0%float;
|}.
End Float64.

Section Model.
Context {R : Type} `{!Torch R}.

(** *** [x.view(-1, cols)] *)
Definition view_rows (x : tensor R) (cols : nat) : result (tensor R) :=
  if decide (numel x `mod` cols = 0)
  then Val (Tensor [numel x / cols; cols] (data x))
  else Exn RuntimeError.

(** *** [torch.relu] *)
Definition relu_elem (r : R) : R := if Rltb Rzero r then r else Rzero.

Definition torch_relu (x : tensor R) : tensor R :=
  Tensor (shape x) (relu_elem <$> data x).

(** *** [nn.Linear] *)
Record nnParameter : Type := mkParameter {
  p_data : tensor R;
  p_grad : option (list R);
}.

Record Linear : Type := mkLinear {
  in_features : nat;
  out_features : nat;
  weight : nnParameter;          (* shape [out_features; in_features] *)
  bias : nnParameter;            (* shape [out_features] *)
}.

Definition dot (w x : list R) : R := foldr Radd Rzero (zip_with Rmul w x).

Definition affine (l : Linear) (x : list R) : list R :=
  zip_with Radd
    ((λ w, dot w x) <$> rows (in_features l) (data (p_data (weight l))))
    (data (p_data (bias l))).

Definition Linear_forward (l : Linear) (x : tensor R) : result (tensor R) :=
  match last (shape x) with
  | Some d =>
      if decide (d = in_features l)
      then Val (Tensor (removelast (shape x) ++ [out_features l])
                       (rows (in_features l) (data x) ≫= affine l))
      else Exn RuntimeError
  | None => Exn RuntimeError
  end.

(** *** [class SimpleNN(nn.Module)] *)
Inductive device : Type := cpu | cuda.

Record SimpleNN : Type := mkSimpleNN {
  fc1 : Linear;
  fc2 : Linear;
  fc3 : Linear;
  training : bool;
  on_device : device;
}.

(** [SimpleNN.forward] *)
Definition forward (self : SimpleNN) (x : tensor R) : result (tensor R) :=
  x ←r view_rows x (28 * 28);
  x ←r Linear_forward (fc1 self) x;
  let x := torch_relu x in
  x ←r Linear_forward (fc2 self) x;
  let x := torch_relu x in
  x ←r Linear_forward (fc3 self) x;
  Val x.

(** [nn.Linear(i, o)]: fresh parameters of the right sizes; their values come
    from the random initialiser [init]. *)
Definition Linear_new (i o : nat) (init_w init_b : nat → R) : Linear :=
  mkLinear i o
    (mkParameter (Tensor [o; i] (init_w <$> seq 0 (o * i))) None)
    (mkParameter (Tensor [o] (init_b <$> seq 0 o)) None).

(** [SimpleNN.__init__]; [init p] initialises parameter number [p] in the
    order of [model.parameters()]. *)
Definition SimpleNN_new (init : nat → nat → R) : SimpleNN :=
  mkSimpleNN
    (Linear_new (28 * 28) 128 (init 0) (init 1))
    (Linear_new 128 64 (init 2) (init 3))
    (Linear_new 64 10 (init 4) (init 5))
    true cpu.


(** [model.parameters()], in registration order, and a map over them. *)
Definition Linear_parameters (l : Linear) : list nnParameter :=
  [weight l; bias l].

Definition parameters (m : SimpleNN) : list nnParameter :=
  Linear_parameters (fc1 m) ++ Linear_parameters (fc2 m)
  ++ Linear_parameters (fc3 m).

Definition Linear_map (f : nat → nnParameter → nnParameter) (k : nat)
    (l : Linear) : Linear :=
  mkLinear (in_features l) (out_features l) (f k (weight l)) (f (S k) (bias l)).

Definition map_parameters (f : nat → nnParameter → nnParameter)
    (m : SimpleNN) : SimpleNN :=
  mkSimpleNN (Linear_map f 0 (fc1 m)) (Linear_map f 2 (fc2 m))
             (Linear_map f 4 (fc3 m)) (training m) (on_device m).

Definition set_training (b : bool) (m : SimpleNN) : SimpleNN :=
  mkSimpleNN (fc1 m) (fc2 m) (fc3 m) b (on_device m).

Definition set_device (d : device) (m : SimpleNN) : SimpleNN :=
  mkSimpleNN (fc1 m) (fc2 m) (fc3 m) (training m) d.

(** *** [nn.CrossEntropyLoss()] on logits of shape [N; C] and [N] labels *)
Definition CrossEntropyLoss (output : tensor R) (labels : list nat) : result R :=
  match shape output with
  | [n; c] =>
      if decide (length labels = n) then
        if decide (Forall (λ y, y < c) labels)
        then Val (cross_entropy_value (rows c (data output)) labels)
        else Exn IndexError
      else Exn ValueError
  | _ => Exn RuntimeError
  end.

(** *** Autograd and [optim.SGD] *)

(** [loss.backward()]: the gradient of the loss is added to the [.grad] of
    every parameter; a [.grad] that is [None] is created. *)
Definition accumulate_grad (g : nat → R) (p : nnParameter) : nnParameter :=
  let fresh := g <$> seq 0 (length (data (p_data p))) in
  mkParameter (p_data p)
    (Some (match p_grad p with
           | None => fresh
           | Some old => zip_with Radd old fresh
           end)).

Definition backward (images : tensor R) (labels : list nat) (m : SimpleNN)
    : SimpleNN :=
  let ps := (λ p, data (p_data p)) <$> parameters m in
  map_parameters (λ k, accumulate_grad (autograd ps images labels k)) m.

Record SGD : Type := mkSGD {
  sgd_params : nat;                          (* the module it optimises *)
  lr : float;
  momentum : float;
  momentum_buffer : list (option (list R));  (* one per parameter *)
}.

(** [optimizer.zero_grad()] *)
Definition zero_grad_param (p : nnParameter) : nnParameter :=
  mkParameter (p_data p) None.

(** One parameter of [optimizer.step()], for SGD with momentum and neither
    dampening, weight decay nor Nesterov: [buf = momentum * buf + grad]
    (the gradient itself the first time) and [p = p - lr * buf].  A
    parameter without gradient is skipped. *)
Definition sgd_buffer (o : SGD) (k : nat) (p : nnParameter) : option (list R) :=
  match p_grad p with
  | None => mjoin (momentum_buffer o !! k)
  | Some g =>
      match mjoin (momentum_buffer o !! k) with
      | None => Some g
      | Some b => Some (zip_with Radd (Rscale (momentum o) <$> b) g)
      end
  end.

(** An in-place elementwise update [xs.op_(ds)]. *)
Fixpoint inplace (f : R → R → R) (xs ds : list R) : list R :=
  match xs, ds with
  | x :: xs', d :: ds' => f x d :: inplace f xs' ds'
  | _, _ => xs
  end.

Definition sgd_param (o : SGD) (k : nat) (p : nnParameter) : nnParameter :=
  match p_grad p, sgd_buffer o k p with
  | Some _, Some b =>
      mkParameter
        (Tensor (shape (p_data p))
           (inplace (λ x d, Rsub x (Rscale (lr o) d)) (data (p_data p)) b))
        (p_grad p)
  | _, _ => p
  end.

Definition sgd_step_buffers (o : SGD) (m : SimpleNN) : SGD :=
  mkSGD (sgd_params o) (lr o) (momentum o)
        (imap (sgd_buffer o) (parameters m)).

(** ** The tracking server *)

Inductive run_status : Type := RUNNING | FINISHED | FAILED.

Record metric : Type := mkMetric {
  metric_key : string;
  metric_value : float;
  metric_step : nat;
}.

Record run_record : Type := mkRun {
  run_experiment : string;
  run_state : run_status;
  run_params : gmap string float;
  run_metrics : list metric;
  run_artifacts : gmap string SimpleNN;
}.

(** A registered model version points to an artifact of a run. *)
Record model_version : Type := mkVersion { mv_run : nat; mv_path : string }.

Record server : Type := mkServer {
  experiments : gset string;
  runs : list run_record;                       (* the run id is the index *)
  registry : gmap string (list model_version);  (* version [v] is entry [v-1] *)
}.

(** ["runs:/<run_id>/<path>"] and ["models:/<name>/<version>"] *)
Inductive uri : Type :=
  | RunsUri (run_id : nat) (path : string)
  | ModelsUri (name : string) (version : nat).

Definition update_run (f : run_record → run_record) (id : nat) (s : server)
    : server :=
  mkServer (experiments s) (alter f id (runs s)) (registry s).

Definition fresh_run (e : string) : run_record := mkRun e RUNNING ∅ [] ∅.

Definition run_set_state (st : run_status) (x : run_record) : run_record :=
  mkRun (run_experiment x) st (run_params x) (run_metrics x) (run_artifacts x).

Definition run_add_param (key : string) (value : float) (x : run_record)
    : run_record :=
  mkRun (run_experiment x) (run_state x) (<[key := value]> (run_params x))
    (run_metrics x) (run_artifacts x).

Definition run_add_metric (mt : metric) (x : run_record) : run_record :=
  mkRun (run_experiment x) (run_state x) (run_params x)
    (run_metrics x ++ [mt]) (run_artifacts x).

Definition run_add_artifact (path : string) (m : SimpleNN) (x : run_record)
    : run_record :=
  mkRun (run_experiment x) (run_state x) (run_params x) (run_metrics x)
    (<[path := m]> (run_artifacts x)).

Definition server_add_experiment (name : string) (s : server) : server :=
  mkServer ({[name]} ∪ experiments s) (runs s) (registry s).

Definition server_add_run (x : run_record) (s : server) : server :=
  mkServer (experiments s) (runs s ++ [x]) (registry s).

Definition server_add_version (name : string) (v : model_version) (s : server)
    : server :=
  mkServer (experiments s) (runs s)
    (<[name := default [] (registry s !! name) ++ [v]]> (registry s)).

(** ** The Python process *)

Record figure : Type := mkFigure {
  fig_image : option (tensor R);
  fig_cmap : string;
  fig_title : string;
}.

Definition empty_figure : figure := mkFigure None "" "".

Record world : Type := mkWorld {
  srv : server;                 (* the tracking server's store *)
  tracking_uri : string;        (* mlflow client configuration *)
  experiment : string;
  active_run : list nat;        (* mlflow's stack of active runs *)
  modules : list SimpleNN;      (* the nn.Module objects; a reference is an index *)
  optimizers : list SGD;        (* the optimizer objects *)
  grad_enabled : bool;          (* torch's autograd mode *)
  rng : nat;                    (* position in the random stream *)
  gcf : figure;                 (* matplotlib's current figure *)
  shown : list figure;          (* figures displayed by [plt.show()] *)
  stdout : list string;
  io_calls : nat;               (* calls to an external service so far *)
  raised : list exn;            (* exceptions raised so far *)
}.

(** What the script neither computes nor controls. *)
Record environment : Type := mkEnv {
  faults : nat → option exn;    (* the [k]-th external call fails with this *)
  mnist_train : list (tensor R * nat);
  mnist_test : list (tensor R * nat);
  init : nat → nat → nat → R;   (* random initial parameters, by position *)
  rand : nat → nat;             (* the random stream *)
  cuda_is_available : bool;
}.

(** Field updates of [world]. *)
Definition set_srv (x : server) (w : world) : world :=
  mkWorld x (tracking_uri w) (experiment w) (active_run w) (modules w)
    (optimizers w) (grad_enabled w) (rng w) (gcf w) (shown w) (stdout w)
    (io_calls w) (raised w).
Definition set_tracking_uri (x : string) (w : world) : world :=
  mkWorld (srv w) x (experiment w) (active_run w) (modules w)
    (optimizers w) (grad_enabled w) (rng w) (gcf w) (shown w) (stdout w)
    (io_calls w) (raised w).
Definition set_experiment (x : string) (w : world) : world :=
  mkWorld (srv w) (tracking_uri w) x (active_run w) (modules w)
    (optimizers w) (grad_enabled w) (rng w) (gcf w) (shown w) (stdout w)
    (io_calls w) (raised w).
Definition set_active_run (x : list nat) (w : world) : world :=
  mkWorld (srv w) (tracking_uri w) (experiment w) x (modules w)
    (optimizers w) (grad_enabled w) (rng w) (gcf w) (shown w) (stdout w)
    (io_calls w) (raised w).
Definition set_modules (x : list SimpleNN) (w : world) : world :=
  mkWorld (srv w) (tracking_uri w) (experiment w) (active_run w) x
    (optimizers w) (grad_enabled w) (rng w) (gcf w) (shown w) (stdout w)
    (io_calls w) (raised w).
Definition set_optimizers (x : list SGD) (w : world) : world :=
  mkWorld (srv w) (tracking_uri w) (experiment w) (active_run w) (modules w)
    x (grad_enabled w) (rng w) (gcf w) (shown w) (stdout w)
    (io_calls w) (raised w).
Definition set_grad_enabled (x : bool) (w : world) : world :=
  mkWorld (srv w) (tracking_uri w) (experiment w) (active_run w) (modules w)
    (optimizers w) x (rng w) (gcf w) (shown w) (stdout w)
    (io_calls w) (raised w).
Definition set_rng (x : nat) (w : world) : world :=
  mkWorld (srv w) (tracking_uri w) (experiment w) (active_run w) (modules w)
    (optimizers w) (grad_enabled w) x (gcf w) (shown w) (stdout w)
    (io_calls w) (raised w).
Definition set_gcf (x : figure) (w : world) : world :=
  mkWorld (srv w) (tracking_uri w) (experiment w) (active_run w) (modules w)
    (optimizers w) (grad_enabled w) (rng w) x (shown w) (stdout w)
    (io_calls w) (raised w).
Definition set_shown (x : list figure) (w : world) : world :=
  mkWorld (srv w) (tracking_uri w) (experiment w) (active_run w) (modules w)
    (optimizers w) (grad_enabled w) (rng w) (gcf w) x (stdout w)
    (io_calls w) (raised w).
Definition set_stdout (x : list string) (w : world) : world :=
  mkWorld (srv w) (tracking_uri w) (experiment w) (active_run w) (modules w)
    (optimizers w) (grad_enabled w) (rng w) (gcf w) (shown w) x
    (io_calls w) (raised w).
Definition set_io_calls (x : nat) (w : world) : world :=
  mkWorld (srv w) (tracking_uri w) (experiment w) (active_run w) (modules w)
    (optimizers w) (grad_enabled w) (rng w) (gcf w) (shown w) (stdout w)
    x (raised w).
Definition set_raised (x : list exn) (w : world) : world :=
  mkWorld (srv w) (tracking_uri w) (experiment w) (active_run w) (modules w)
    (optimizers w) (grad_enabled w) (rng w) (gcf w) (shown w) (stdout w)
    (io_calls w) x.

(** ** The monad of the script: state, and exceptions that keep the state *)

Inductive outcome (A : Type) : Type :=
  | Ok (a : A) (w : world)
  | Raise (e : exn) (w : world).
Arguments Ok {A} a w.
Arguments Raise {A} e w.

Definition M (A : Type) : Type := world → outcome A.

Definition ret {A} (a : A) : M A := λ w, Ok a w.

Definition bind {A B} (m : M A) (k : A → M B) : M B :=
  λ w, match m w with
       | Ok a w' => k a w'
       | Raise e w' => Raise e w'
       end.

(** [raise e] records the exception in [raised] and stops. *)
Definition raise {A} (e : exn) : M A :=
  λ w, Raise e (set_raised (raised w ++ [e]) w).

Definition lift {A} (r : result A) : M A :=
  match r with
  | Val a => ret a
  | Exn e => raise e
  end.

Definition get : M world := λ w, Ok w w.
Definition modify (f : world → world) : M unit := λ w, Ok tt (f w).

Declare Scope script_scope.
Delimit Scope script_scope with script.
Notation "x ← m ; k" := (bind m (λ x, k))
  (at level 20, m at level 100, k at level 200, only parsing) : script_scope.
Notation "' x ← m ; k" := (bind m (λ x, k))
  (at level 20, x pattern, m at level 100, k at level 200, only parsing)
  : script_scope.
Notation "m ;; k" := (bind m (λ _, k))
  (at level 100, k at level 200, only parsing, right associativity)
  : script_scope.

Variable env : environment.
Local Open Scope script_scope.

(** A call that leaves the process (tracking server, dataset download): the
    environment decides whether it fails. *)
Definition external {A} (m : M A) : M A :=
  λ w, let w' := set_io_calls (S (io_calls w)) w in
       match faults env (io_calls w) with
       | Some e => raise e w'
       | None => m w'
       end.

(** *** Loops *)
Fixpoint for_each {A} (l : list A) (body : A → M unit) : M unit :=
  match l with
  | [] => ret tt
  | x :: l' => body x ;; for_each l' body
  end.

(** A loop that updates one local variable. *)
Fixpoint for_fold {A S} (l : list A) (s : S) (body : A → S → M S) : M S :=
  match l with
  | [] => ret s
  | x :: l' => s' ← body x s ; for_fold l' s' body
  end.

(** *** Objects *)
Definition deref_module (r : nat) : M SimpleNN :=
  w ← get ;
  match modules w !! r with
  | Some m => ret m
  | None => raise RuntimeError
  end.

Definition update_module (r : nat) (f : SimpleNN → SimpleNN) : M unit :=
  modify (λ w, set_modules (alter f r (modules w)) w).

Definition new_module (m : SimpleNN) : M nat :=
  w ← get ;
  modify (set_modules (modules w ++ [m])) ;;
  ret (length (modules w)).

Definition deref_optimizer (r : nat) : M SGD :=
  w ← get ;
  match optimizers w !! r with
  | Some o => ret o
  | None => raise RuntimeError
  end.

(** [model = SimpleNN()] *)
Definition SimpleNN_init : M nat :=
  w ← get ;
  modify (set_rng (S (rng w))) ;;
  new_module (SimpleNN_new (init env (rng w))).

(** [model(x)] *)
Definition Module_call (model : nat) (x : tensor R) : M (tensor R) :=
  m ← deref_module model ;
  lift (forward m x).

(** [model.train()], [model.eval()], [model.to(device)] *)
Definition Module_train (model : nat) : M unit :=
  update_module model (set_training true).
Definition Module_eval (model : nat) : M unit :=
  update_module model (set_training false).
Definition Module_to (model : nat) (d : device) : M nat :=
  update_module model (set_device d) ;; ret model.

(** [optim.SGD(model.parameters(), lr=..., momentum=...)] *)
Definition SGD_init (model : nat) (lr momentum : float) : M nat :=
  w ← get ;
  modify (set_optimizers
            (optimizers w ++ [mkSGD model lr momentum (replicate 6 None)])) ;;
  ret (length (optimizers w)).

(** [optimizer.zero_grad()] *)
Definition SGD_zero_grad (optimizer : nat) : M unit :=
  o ← deref_optimizer optimizer ;
  update_module (sgd_params o) (map_parameters (λ _, zero_grad_param)).

(** [loss.backward()], for the loss of [model] on [images] and [labels];
    without autograd's graph (under [torch.no_grad()]) it fails. *)
Definition loss_backward (model : nat) (images : tensor R) (labels : list nat)
    : M unit :=
  w ← get ;
  if grad_enabled w
  then update_module model (backward images labels)
  else raise RuntimeError.

(** [optimizer.step()] *)
Definition SGD_step (optimizer : nat) : M unit :=
  o ← deref_optimizer optimizer ;
  m ← deref_module (sgd_params o) ;
  update_module (sgd_params o) (map_parameters (sgd_param o)) ;;
  modify (λ w, set_optimizers
                 (alter (λ _, sgd_step_buffers o m) optimizer (optimizers w)) w).

(** [with torch.no_grad(): body] *)
Definition with_no_grad {A} (body : M A) : M A :=
  λ w, match body (set_grad_enabled false w) with
       | Ok a w' => Ok a (set_grad_enabled (grad_enabled w) w')
       | Raise e w' => Raise e (set_grad_enabled (grad_enabled w) w')
       end.

(** *** Datasets and loaders *)

(** [transforms.Compose([ToTensor(), Normalize((0.5,), (0.5,))])] *)
Definition transform (img : tensor R) : tensor R :=
  Tensor (shape img) (Rnormalize <$> data img).

Record Dataset : Type := mkDataset { samples : list (tensor R * nat) }.

(** [datasets.MNIST(root='./data', train=..., download=True, transform=...)] *)
Definition datasets_MNIST (train : bool) : M Dataset :=
  external (ret (mkDataset (if train then mnist_train env else mnist_test env))).

(** [dataset[index]], with Python's negative indices *)
Definition Dataset_getitem (d : Dataset) (index : Z) : result (tensor R * nat) :=
  let n := Z.of_nat (length (samples d)) in
  let i := if decide (index < 0)%Z then (index + n)%Z else index in
  if decide (0 ≤ i < n)%Z then
    match samples d !! Z.to_nat i with
    | Some (img, y) => Val (transform img, y)
    | None => Exn IndexError
    end
  else Exn IndexError.

Record DataLoader : Type := mkDataLoader {
  dl_dataset : Dataset;
  batch_size : nat;
  shuffle : bool;
}.

(** [len(loader)] *)
Definition DataLoader_len (dl : DataLoader) : nat :=
  (length (samples (dl_dataset dl)) + batch_size dl - 1) / batch_size dl.

(** torch's batch sampler: fill a batch up to [bs], yield it, and yield the
    last, shorter, batch if it is not empty. *)
Fixpoint batch_sampler {A} (bs : nat) (batch : list A) (l : list A)
    : list (list A) :=
  match l with
  | [] => if decide (0 < length batch) then [batch] else []
  | x :: l' =>
      let batch := batch ++ [x] in
      if decide (length batch = bs)
      then batch :: batch_sampler bs [] l'
      else batch_sampler bs batch l'
  end.

(** A random permutation from the random stream [rnd]. *)
Fixpoint randperm {A} (rnd : nat → nat) (l : list A) : list A :=
  match l with
  | [] => []
  | x :: l' =>
      let p := randperm (λ i, rnd (S i)) l' in
      let k := rnd 0 `mod` S (length p) in
      take k p ++ x :: drop k p
  end.

(** [iter(loader)]: the batches of one pass, as lists of samples. *)
Definition DataLoader_iter (dl : DataLoader) : M (list (list (tensor R * nat))) :=
  let ds := samples (dl_dataset dl) in
  if shuffle dl then
    w ← get ;
    modify (set_rng (rng w + length ds)) ;;
    ret (batch_sampler (batch_size dl) [] (randperm (λ i, rand env (rng w + i)) ds))
  else ret (batch_sampler (batch_size dl) [] ds).

(** The loader's collate function: the transformed images are stacked, which
    needs equal shapes. *)
Definition collate (batch : list (tensor R * nat)) : result (tensor R * list nat) :=
  let imgs := (λ s, transform s.1) <$> batch in
  match imgs with
  | [] => Exn IndexError
  | img0 :: _ =>
      if decide (Forall (λ t, shape t = shape img0) imgs)
      then Val (Tensor (length imgs :: shape img0) (imgs ≫= data), snd <$> batch)
      else Exn RuntimeError
  end.

(** *** Python's [float / int] *)
Definition float_of_nat (n : nat) : float := of_uint63 (of_Z (Z.of_nat n)).

Definition truediv (x : float) (n : nat) : result float :=
  if decide (n = 0) then Exn ZeroDivisionError
  else Val (x / float_of_nat n)%float.

(** *** The mlflow client *)

Definition on_server (f : server → server) : M unit :=
  modify (λ w, set_srv (f (srv w)) w).

(** [mlflow.set_tracking_uri]: client configuration only. *)
Definition mlflow_set_tracking_uri (u : string) : M unit :=
  modify (set_tracking_uri u).

(** [mlflow.set_experiment]: the experiment is created if it does not exist. *)
Definition mlflow_set_experiment (name : string) : M unit :=
  external (
    on_server (server_add_experiment name) ;;
    modify (set_experiment name)).

(** A new run in the active experiment becomes the active run; its id is
    returned. *)
Definition create_run : M nat :=
  w ← get ;
  on_server (server_add_run (fresh_run (experiment w))) ;;
  modify (set_active_run (length (runs (srv w)) :: active_run w)) ;;
  ret (length (runs (srv w))).

(** [mlflow.start_run()], not nested: it refuses to start while a run is
    active. *)
Definition mlflow_start_run : M nat :=
  external (
    w ← get ;
    match active_run w with
    | [] => create_run
    | _ :: _ => raise MlflowException
    end).

(** The run the fluent API logs to: the active one, or a new one. *)
Definition current_run : M nat :=
  w ← get ;
  match active_run w with
  | r :: _ => ret r
  | [] => create_run
  end.

(** [mlflow.end_run(status)] *)
Definition end_run (st : run_status) (w : world) : world :=
  match active_run w with
  | [] => w
  | r :: rest =>
      set_active_run rest (set_srv (update_run (run_set_state st) r (srv w)) w)
  end.

(** [with mlflow.start_run() as run: body]: on the way out the run is ended,
    as finished or as failed, and an exception goes on. *)
Definition with_start_run {A} (body : nat → M A) : M A :=
  λ w, match mlflow_start_run w with
       | Raise e w' => Raise e w'
       | Ok run w1 =>
           match body run w1 with
           | Ok a w2 => Ok a (end_run FINISHED w2)
           | Raise e w2 => Raise e (end_run FAILED w2)
           end
       end.

(** [mlflow.log_param(key, value)] *)
Definition mlflow_log_param (key : string) (value : float) : M unit :=
  external (
    r ← current_run ;
    on_server (update_run (run_add_param key value) r)).

(** [mlflow.log_metric(key, value, step=step)] *)
Definition mlflow_log_metric (key : string) (value : float) (step : nat) : M unit :=
  external (
    r ← current_run ;
    on_server (update_run (run_add_metric (mkMetric key value step)) r)).

(** What a pickled module holds: the parameters, not their gradients. *)
Definition pickle (m : SimpleNN) : SimpleNN :=
  map_parameters (λ _, zero_grad_param) m.

(** [mlflow.pytorch.log_model(model, artifact_path)] *)
Definition mlflow_pytorch_log_model (model : nat) (artifact_path : string) : M unit :=
  external (
    r ← current_run ;
    m ← deref_module model ;
    on_server (update_run (run_add_artifact artifact_path (pickle m)) r)).

(** [mlflow.register_model(model_uri, name)]: a new version of [name] that
    points to the artifact of the run; the version number is returned. *)
Definition mlflow_register_model (model_uri : uri) (name : string) : M nat :=
  external (
    w ← get ;
    match model_uri with
    | RunsUri r path =>
        match runs (srv w) !! r with
        | Some _ =>
            let versions := default [] (registry (srv w) !! name) in
            on_server (server_add_version name (mkVersion r path)) ;;
            ret (S (length versions))
        | None => raise MlflowException
        end
    | ModelsUri _ _ => raise MlflowException
    end).

(** The artifact a model URI stands for. *)
Definition resolve (s : server) (u : uri) : option SimpleNN :=
  match u with
  | RunsUri r path => runs s !! r ≫= λ x, run_artifacts x !! path
  | ModelsUri name version =>
      match version with
      | 0 => None
      | S k =>
          registry s !! name ≫= λ versions,
          versions !! k ≫= λ v,
          runs s !! mv_run v ≫= λ x, run_artifacts x !! mv_path v
      end
  end.

(** [mlflow.pytorch.load_model(model_uri)]: a new module object. *)
Definition mlflow_pytorch_load_model (model_uri : uri) : M nat :=
  external (
    w ← get ;
    match resolve (srv w) model_uri with
    | Some m => new_module m
    | None => raise MlflowException
    end).

(** *** [torch.argmax(x, dim=1)], [unsqueeze(0)], [squeeze()], [item()] *)

(** The first index of a largest element. *)
Fixpoint argmax_from (best_i : nat) (best : R) (i : nat) (l : list R) : nat :=
  match l with
  | [] => best_i
  | x :: l' =>
      if Rltb best x then argmax_from i x (S i) l'
      else argmax_from best_i best (S i) l'
  end.

Definition argmax_row (l : list R) : nat :=
  match l with
  | [] => 0
  | x :: l' => argmax_from 0 x 1 l'
  end.

Definition torch_argmax_dim1 (x : tensor R) : result (list nat) :=
  match shape x with
  | [n; S c] => Val (argmax_row <$> rows (S c) (data x))
  | _ => Exn IndexError
  end.

Definition unsqueeze0 (x : tensor R) : tensor R := Tensor (1 :: shape x) (data x).

Definition squeeze (x : tensor R) : tensor R :=
  Tensor (filter (λ d, d ≠ 1) (shape x)) (data x).

Definition item {A} (l : list A) : result A :=
  match l with
  | [a] => Val a
  | _ => Exn RuntimeError
  end.

(** *** matplotlib *)
Definition plt_imshow (img : tensor R) (cmap : string) : M unit :=
  match shape img with
  | [_; _] =>
      modify (λ w, set_gcf (mkFigure (Some img) cmap (fig_title (gcf w))) w)
  | _ => raise TypeError
  end.

Definition plt_title (s : string) : M unit :=
  modify (λ w, set_gcf (mkFigure (fig_image (gcf w)) (fig_cmap (gcf w)) s) w).

Definition plt_show : M unit :=
  modify (λ w, set_gcf empty_figure (set_shown (shown w ++ [gcf w]) w)).

(** [print(model)] *)
Definition Linear_repr (l : Linear) : string :=
  "Linear(in_features=" +:+ pretty (in_features l) +:+ ", out_features="
  +:+ pretty (out_features l) +:+ ", bias=True)".

Definition SimpleNN_repr (m : SimpleNN) : string :=
  "SimpleNN( (fc1): " +:+ Linear_repr (fc1 m) +:+ " (fc2): "
  +:+ Linear_repr (fc2 m) +:+ " (fc3): " +:+ Linear_repr (fc3 m) +:+ " )".

Definition print_module (model : nat) : M unit :=
  m ← deref_module model ;
  modify (λ w, set_stdout (stdout w ++ [SimpleNN_repr m]) w).

(** ** The notebook *)

(** The body of [for images, labels in train_loader:]. *)
Definition train_batch (model optimizer : nat) (batch : list (tensor R * nat))
    (running_loss : float) : M float :=
  '(images, labels) ← lift (collate batch) ;
  SGD_zero_grad optimizer ;;
  output ← Module_call model images ;
  loss ← lift (CrossEntropyLoss output labels) ;
  loss_backward model images labels ;;
  SGD_step optimizer ;;
  ret (running_loss + Ritem loss)%float.

(** The body of [for images, labels in test_loader:]. *)
Definition eval_batch (model : nat) (batch : list (tensor R * nat))
    (test_loss : float) : M float :=
  '(images, labels) ← lift (collate batch) ;
  output ← Module_call model images ;
  loss ← lift (CrossEntropyLoss output labels) ;
  ret (test_loss + Ritem loss)%float.

(** The evaluation part of an epoch, up to the sum of the losses. *)
Definition evaluate (model : nat) (test_loader : DataLoader) : M float :=
  Module_eval model ;;
  with_no_grad (
    batches ← DataLoader_iter test_loader ;
    for_fold batches 0%float (eval_batch model)).

(** The body of [for e in range(epochs):]. *)
Definition epoch (model optimizer : nat) (train_loader test_loader : DataLoader)
    (e : nat) : M unit :=
  Module_train model ;;
  batches ← DataLoader_iter train_loader ;
  running_loss ← for_fold batches 0%float (train_batch model optimizer) ;
  average_train_loss ← lift (truediv running_loss (DataLoader_len train_loader)) ;
  mlflow_log_metric "average_train_loss" average_train_loss e ;;
  test_loss ← evaluate model test_loader ;
  average_test_loss ← lift (truediv test_loss (DataLoader_len test_loader)) ;
  mlflow_log_metric "average_test_loss" average_test_loss e.

(** The cell [with mlflow.start_run() as run: ...]; the value is the run id. *)
Definition training_cell (model optimizer : nat)
    (train_loader test_loader : DataLoader) : M nat :=
  with_start_run (λ run,
    mlflow_log_param "learning_rate" 0.003%float ;;
    mlflow_log_param "momentum" 0.003%float ;;
    let epochs := 5 in
    for_each (seq 0 epochs) (epoch model optimizer train_loader test_loader) ;;
    mlflow_pytorch_log_model model "mnist_model" ;;
    let model_uri := RunsUri run "mnist_model" in
    model_details ← mlflow_register_model model_uri "MNISTModel" ;
    ret run).

(** [predict_and_visualize(model, dataset, index)].  The Python function
    returns nothing; the embedding returns its locals [logits] and
    [predicted] so that they can be spoken about. *)
Definition predict_and_visualize (model : nat) (dataset : Dataset) (index : Z)
    : M (tensor R * list nat) :=
  Module_eval model ;;
  '(img, true_label) ← lift (Dataset_getitem dataset index) ;
  let img := unsqueeze0 img in
  let device := if cuda_is_available env then cuda else cpu in
  model ← Module_to model device ;
  '(logits, predicted) ← with_no_grad (
      logits ← Module_call model img ;
      predicted ← lift (torch_argmax_dim1 logits) ;
      ret (logits, predicted)) ;
  let img := squeeze img in
  plt_imshow img "Greys_r" ;;
  digit ← lift (item predicted) ;
  plt_title ("Predicted Digit: " +:+ pretty digit
             +:+ ", True Label: " +:+ pretty true_label) ;;
  plt_show ;;
  ret (logits, predicted).

(** The global variables of the notebook that the later cells use. *)
Record globals : Type := mkGlobals {
  g_test_dataset : Dataset;
  g_model : nat;
  g_optimizer : nat;
  g_run : nat;
}.

(** The cells up to and including the training cell. *)
Definition train_script : M globals :=
  mlflow_set_tracking_uri "http://localhost:5000" ;;
  mlflow_set_experiment "mnist_pytorch_experiment" ;;
  train_dataset ← datasets_MNIST true ;
  test_dataset ← datasets_MNIST false ;
  let train_loader := mkDataLoader train_dataset 64 true in
  let test_loader := mkDataLoader test_dataset 64 false in
  model ← SimpleNN_init ;
  optimizer ← SGD_init model 0.003%float 0.9%float ;
  run ← training_cell model optimizer train_loader test_loader ;
  ret (mkGlobals test_dataset model optimizer run).

(** The cells that load the registered model and predict. *)
Definition load_script (g : globals) : M nat :=
  loaded_model ← mlflow_pytorch_load_model (ModelsUri "MNISTModel" 1) ;
  print_module loaded_model ;;
  predict_and_visualize loaded_model (g_test_dataset g) 0 ;;
  ret loaded_model.

(** The whole notebook, run top to bottom. *)
Definition script : M (globals * nat) :=
  g ← train_script ;
  loaded_model ← load_script g ;
  ret (g, loaded_model).

(** A fresh Python process talking to a tracking server in state [s]. *)
Definition fresh_process (s : server) : world :=
  mkWorld s "" "Default" [] [] [] true 0 empty_figure [] [] 0 [].

(** ** Reasoning about scripts

    [post m w Q E]: run from [w], the script [m] either returns [a] in a
    world [w'] with [Q a w'], or raises [e] in a world [w'] with [E e w']. *)
Definition post {A} (m : M A) (w : world)
    (Q : A → world → Prop) (E : exn → world → Prop) : Prop :=
  match m w with
  | Ok a w' => Q a w'
  | Raise e w' => E e w'
  end.

Lemma post_ret {A} (a : A) w Q E : Q a w → post (ret a) w Q E.
Proof. done. Qed.

Lemma post_bind {A B} (m : M A) (k : A → M B) w Q E :
  post m w (λ a w', post (k a) w' Q E) E → post (bind m k) w Q E.
Proof. unfold post, bind. by destruct (m w). Qed.

Lemma post_raise {A} e w (Q : A → world → Prop) E :
  E e (set_raised (raised w ++ [e]) w) → post (raise e) w Q E.
Proof. done. Qed.

Lemma post_lift {A} (r : result A) w Q E :
  match r with
  | Val a => Q a w
  | Exn e => E e (set_raised (raised w ++ [e]) w)
  end → post (lift r) w Q E.
Proof. by destruct r. Qed.

Lemma post_get w Q E : Q w w → post get w Q E.
Proof. done. Qed.

Lemma post_modify f w Q E : Q tt (f w) → post (modify f) w Q E.
Proof. done. Qed.

Lemma post_external {A} (m : M A) w Q E :
  match faults env (io_calls w) with
  | Some e => E e (set_raised (raised w ++ [e]) (set_io_calls (S (io_calls w)) w))
  | None => post m (set_io_calls (S (io_calls w)) w) Q E
  end → post (external m) w Q E.
Proof. unfold post, external. by destruct (faults env (io_calls w)). Qed.

Lemma post_mono {A} (m : M A) w (Q Q' : A → world → Prop) (E E' : exn → world → Prop) :
  post m w Q E → (∀ a w', Q a w' → Q' a w') → (∀ e w', E e w' → E' e w') →
  post m w Q' E'.
Proof. unfold post. destruct (m w); eauto. Qed.

Lemma post_for_fold {A S} (I : list A → S → world → Prop) (body : A → S → M S)
    l s w E :
  I l s w →
  (∀ x l' s w, I (x :: l') s w → post (body x s) w (I l') E) →
  post (for_fold l s body) w (I []) E.
Proof.
  intros HI Hbody. revert s w HI.
  induction l as [|x l IH]; intros s w HI; simpl.
  - by apply post_ret.
  - apply post_bind. eapply post_mono; [by apply Hbody| |done].
    intros s' w' HI'. by apply IH.
Qed.

Lemma post_for_each {A} (I : list A → world → Prop) (body : A → M unit) l w E :
  I l w →
  (∀ x l' w, I (x :: l') w → post (body x) w (λ _, I l') E) →
  post (for_each l body) w (λ _, I []) E.
Proof.
  intros HI Hbody. revert w HI.
  induction l as [|x l IH]; intros w HI; simpl.
  - by apply post_ret.
  - apply post_bind. eapply post_mono; [by apply Hbody| |done].
    intros [] w' HI'. by apply IH.
Qed.

Lemma post_with_no_grad {A} (body : M A) w Q E :
  post body (set_grad_enabled false w)
    (λ a w', Q a (set_grad_enabled (grad_enabled w) w'))
    (λ e w', E e (set_grad_enabled (grad_enabled w) w')) →
  post (with_no_grad body) w Q E.
Proof. unfold post, with_no_grad. by destruct (body _). Qed.

Lemma post_with_start_run {A} (body : nat → M A) w Q E :
  post mlflow_start_run w
    (λ run w1, post (body run) w1
                 (λ a w2, Q a (end_run FINISHED w2))
                 (λ e w2, E e (end_run FAILED w2)))
    E →
  post (with_start_run body) w Q E.
Proof.
  unfold post, with_start_run. destruct (mlflow_start_run w); [|done].
  by destruct (body _ _).
Qed.

(** Symbolic execution of a script, one statement at a time. *)
Ltac mstep :=
  lazymatch goal with
  | |- post (bind _ _) _ _ _ => apply post_bind
  | |- post (ret _) _ _ _ => apply post_ret
  | |- post get _ _ _ => apply post_get
  | |- post (modify _) _ _ _ => apply post_modify
  | |- post (raise _) _ _ _ => apply post_raise
  | |- post (lift _) _ _ _ => apply post_lift
  | |- post (external _) _ _ _ => apply post_external
  | |- post (with_no_grad _) _ _ _ => apply post_with_no_grad
  | |- post (with_start_run _) _ _ _ => apply post_with_start_run
  | |- post (match ?x with _ => _ end) _ _ _ => destruct x eqn:?
  | |- post (if ?x then _ else _) _ _ _ => destruct x eqn:?
  | |- match ?x with _ => _ end => destruct x eqn:?
  end.

(** The same on a world whose fields are known: projections and lookups in
    short lists are computed, nothing is split. *)
Ltac wsimpl :=
  unfold set_srv, set_tracking_uri, set_experiment, set_active_run,
    set_modules, set_optimizers, set_grad_enabled, set_rng, set_gcf,
    set_shown, set_stdout, set_io_calls, set_raised;
  cbn [srv tracking_uri experiment active_run modules optimizers grad_enabled
       rng gcf shown stdout io_calls raised
       runs experiments registry
       lookup list_lookup alter list_alter].

Ltac mrun1 :=
  wsimpl;
  lazymatch goal with
  | |- post (bind _ _) _ _ _ => apply post_bind
  | |- post (ret _) _ _ _ => apply post_ret
  | |- post get _ _ _ => apply post_get
  | |- post (modify _) _ _ _ => apply post_modify
  | |- post (lift (Val _)) _ _ _ => apply post_lift
  | |- post (with_no_grad _) _ _ _ => apply post_with_no_grad
  end.

Ltac mrun := repeat mrun1; wsimpl.

(** *** What does not touch the parameters *)

(** The parameters (values and gradients) of every module, and the
    optimizer objects. *)
Definition trainable_state (w : world) : list (list nnParameter) * list SGD :=
  (parameters <$> modules w, optimizers w).

Definition preserves_parameters {A} (m : M A) : Prop :=
  ∀ w, post m w (λ _ w', trainable_state w' = trainable_state w)
                (λ _ w', trainable_state w' = trainable_state w).

Lemma parameters_alter_flag (f : SimpleNN → SimpleNN) r (l : list SimpleNN) :
  (∀ m, parameters (f m) = parameters m) →
  parameters <$> alter f r l = parameters <$> l.
Proof.
  intros Hf. rewrite (list_fmap_alter _ f id).
  - by apply list_alter_id.
  - apply Forall_forall. intros m _. apply Hf.
Qed.

Lemma Module_flag_preserves (f : SimpleNN → SimpleNN) r :
  (∀ m, parameters (f m) = parameters m) →
  preserves_parameters (update_module r f).
Proof.
  intros Hf w. unfold update_module. mstep.
  unfold trainable_state; simpl. by rewrite parameters_alter_flag.
Qed.

Lemma Module_call_preserves model x : preserves_parameters (Module_call model x).
Proof.
  intros w. unfold Module_call, deref_module.
  repeat mstep; done.
Qed.

Lemma eval_batch_preserves model batch acc :
  preserves_parameters (eval_batch model batch acc).
Proof.
  intros w. unfold eval_batch. mstep. mstep. mstep; [|done].
  destruct a as [images labels]. mstep.
  eapply post_mono; [apply Module_call_preserves|simpl|done].
  intros output w' Hw'. mstep. mstep. mstep; [|done]. by mstep.
Qed.

Lemma DataLoader_iter_preserves dl : preserves_parameters (DataLoader_iter dl).
Proof. intros w. unfold DataLoader_iter. repeat mstep; done. Qed.

Lemma mlflow_log_metric_preserves key value step :
  preserves_parameters (mlflow_log_metric key value step).
Proof.
  intros w. unfold mlflow_log_metric, current_run, create_run, on_server.
  repeat mstep; done.
Qed.

(** C9: the evaluation pass of an epoch, [model.eval()] and the loop under
    [torch.no_grad()], leaves the parameters of every module and the state of
    every optimizer as they were, whether it returns or raises; so do the
    other statements of an epoch outside the training loop: [model.train()],
    the iteration of a loader and the logging of a metric. *)
Theorem evaluation_preserves_parameters model test_loader :
  preserves_parameters (evaluate model test_loader)
  ∧ preserves_parameters (Module_train model)
  ∧ (∀ dl, preserves_parameters (DataLoader_iter dl))
  ∧ (∀ key value step, preserves_parameters (mlflow_log_metric key value step)).
Proof.
  split; [|split; [|split]].
  - intros w. unfold evaluate. mstep.
    eapply post_mono; [by apply (Module_flag_preserves (set_training false))| |done].
    intros ? w1 Hw1. mstep. mstep.
    eapply post_mono; [apply DataLoader_iter_preserves| |].
    + intros batches w2 Hw2.
      eapply post_mono.
      * apply (post_for_fold (λ _ _ w', trainable_state w' = trainable_state w)
                 _ _ _ _ (λ _ w', trainable_state w' = trainable_state w)).
        { rewrite Hw2. exact Hw1. }
        intros x l' s w3 Hw3.
        eapply post_mono; [apply eval_batch_preserves| |];
          intros ? w4 Hw4; by rewrite Hw4.
      * intros ? w4 Hw4. exact Hw4.
      * intros ? w4 Hw4. exact Hw4.
    + intros e w2 Hw2. etrans; [exact Hw2|exact Hw1].
  - by apply (Module_flag_preserves (set_training true)).
  - apply DataLoader_iter_preserves.
  - apply mlflow_log_metric_preserves.
Qed.

(** *** Shapes in the forward pass *)

(** A linear layer of [i] inputs and [o] outputs whose parameters have the
    sizes that [nn.Linear(i, o)] gives them. *)
Definition Linear_wf (i o : nat) (l : Linear) : Prop :=
  in_features l = i ∧ out_features l = o
  ∧ length (data (p_data (weight l))) = o * i
  ∧ length (data (p_data (bias l))) = o.

Definition SimpleNN_wf (m : SimpleNN) : Prop :=
  Linear_wf (28 * 28) 128 (fc1 m) ∧ Linear_wf 128 64 (fc2 m)
  ∧ Linear_wf 64 10 (fc3 m).

Lemma length_rows {A} k (l : list A) : length (rows k l) = length l / k.
Proof. unfold rows. by rewrite length_fmap, length_seq. Qed.

Lemma rows_length_each {A} k (l r : list A) :
  0 < k → r ∈ rows k l → length r = k.
Proof.
  intros Hk. unfold rows. rewrite list_elem_of_fmap.
  intros (i & -> & Hi). apply elem_of_seq in Hi.
  rewrite length_take, length_drop.
  assert (length l / k * k ≤ length l) by (rewrite Nat.mul_comm; apply Nat.Div0.mul_div_le).
  assert (S i * k ≤ length l / k * k) by (apply Nat.mul_le_mono_r; lia).
  simpl in *. lia.
Qed.

Lemma length_bind_const {A B} (f : A → list B) (l : list A) n :
  (∀ x, x ∈ l → length (f x) = n) → length (l ≫= f) = length l * n.
Proof.
  induction l as [|x l IH]; intros Hf; [done|].
  rewrite bind_cons, length_app, Hf, IH; [done| |left].
  intros y Hy. apply Hf. by right.
Qed.

Lemma length_affine i o (l : Linear) (x : list R) :
  0 < i → Linear_wf i o l → length (affine l x) = o.
Proof.
  intros Hi (Hin & _ & Hw & Hb). unfold affine.
  rewrite length_zip_with, length_fmap, length_rows, Hin, Hw, Hb.
  rewrite Nat.div_mul by lia. lia.
Qed.

Lemma Linear_forward_shape i o (l : Linear) (x : tensor R) :
  0 < i → Linear_wf i o l → last (shape x) = Some i →
  ∃ y, Linear_forward l x = Val y
       ∧ shape y = removelast (shape x) ++ [o]
       ∧ length (data y) = length (data x) / i * o.
Proof.
  intros Hi Hwf Hlast. pose proof Hwf as (Hin & Hout & _).
  unfold Linear_forward. rewrite Hlast, Hin, Hout.
  rewrite decide_True by done. eexists; split; [done|]. split; [done|].
  simpl. erewrite length_bind_const; [by rewrite length_rows|].
  intros r _. by eapply length_affine.
Qed.

Lemma torch_relu_shape (x : tensor R) :
  shape (torch_relu x) = shape x ∧ length (data (torch_relu x)) = length (data x).
Proof. unfold torch_relu; simpl. by rewrite length_fmap. Qed.

(** The forward pass succeeds on [n * 784] elements and gives [n] rows of 10. *)
Lemma forward_ok (m : SimpleNN) (x : tensor R) n :
  SimpleNN_wf m → numel x = n * (28 * 28) →
  ∃ y, forward m x = Val y ∧ shape y = [n; 10]
       ∧ (tensor_wf x → tensor_wf y).
Proof.
  intros (H1 & H2 & H3) Hn. unfold forward, view_rows.
  rewrite Hn, Nat.Div0.mod_mul, decide_True by done.
  rewrite Nat.div_mul by lia. cbn [rbind].
  destruct (Linear_forward_shape (28 * 28) 128 (fc1 m) (Tensor [n; 28 * 28] (data x)))
    as (y1 & -> & Hs1 & Hd1); [lia|done|done|].
  cbn [rbind].
  destruct (torch_relu_shape y1) as [Hrs1 Hrd1].
  destruct (Linear_forward_shape 128 64 (fc2 m) (torch_relu y1))
    as (y2 & -> & Hs2 & Hd2); [lia|done|by rewrite Hrs1, Hs1|].
  cbn [rbind].
  destruct (torch_relu_shape y2) as [Hrs2 Hrd2].
  destruct (Linear_forward_shape 64 10 (fc3 m) (torch_relu y2))
    as (y3 & -> & Hs3 & Hd3); [lia|done|by rewrite Hrs2, Hs2, Hrs1, Hs1|].
  cbn [rbind]. eexists; split; [done|].
  rewrite Hrs2, Hs2, Hrs1, Hs1 in Hs3. split; [done|].
  unfold tensor_wf. intros Hx. rewrite Hn in Hx.
  rewrite Hd3, Hrd2, Hd2, Hrd1, Hd1. cbn [data]. rewrite Hx.
  rewrite !Nat.div_mul by lia.
  unfold numel. rewrite Hs3. simpl. lia.
Qed.

(** *** The training cell on a well-formed dataset *)

(** An MNIST sample after [ToTensor()]: one channel of 28 by 28 pixels and a
    digit as label. *)
Definition sample_ok (s : tensor R * nat) : Prop :=
  shape s.1 = [1; 28; 28] ∧ tensor_wf s.1 ∧ s.2 < 10.

(** A value of the criterion, as a Python float. *)
Definition is_loss_value (l : float) : Prop :=
  ∃ logits labels, l = Ritem (cross_entropy_value logits labels).

(** [sum(losses) / len(losses)] the way the notebook computes it: a running
    sum from 0 and a division by the count. *)
Definition average (losses : list float) : float :=
  (fold_left PrimFloat.add losses 0 / float_of_nat (length losses))%float.

Lemma length_inplace f (xs ds : list R) : length (inplace f xs ds) = length xs.
Proof.
  revert ds. induction xs as [|x xs IH]; intros [|d ds]; simpl; auto.
Qed.

Lemma Linear_map_wf i o f k (l : Linear) :
  (∀ j p, length (data (p_data (f j p))) = length (data (p_data p))) →
  Linear_wf i o l → Linear_wf i o (Linear_map f k l).
Proof.
  intros Hf (? & ? & ? & ?). unfold Linear_wf, Linear_map; simpl.
  by rewrite !Hf.
Qed.

Lemma map_parameters_wf f (m : SimpleNN) :
  (∀ j p, length (data (p_data (f j p))) = length (data (p_data p))) →
  SimpleNN_wf m → SimpleNN_wf (map_parameters f m).
Proof.
  intros Hf (? & ? & ?). unfold SimpleNN_wf, map_parameters; simpl.
  split_and!; by apply Linear_map_wf.
Qed.

Lemma sgd_param_length o k p :
  length (data (p_data (sgd_param o k p))) = length (data (p_data p)).
Proof.
  unfold sgd_param. destruct (p_grad p); [|done].
  destruct (sgd_buffer _ _ _); [|done]. simpl. apply length_inplace.
Qed.

Lemma SimpleNN_new_wf init0 : SimpleNN_wf (SimpleNN_new init0).
Proof.
  unfold SimpleNN_wf, SimpleNN_new, Linear_wf, Linear_new; cbn [fc1 fc2 fc3
    in_features out_features weight bias p_data data].
  rewrite !length_fmap, !length_seq. done.
Qed.

Lemma transform_shape (img : tensor R) :
  shape (transform img) = shape img
  ∧ length (data (transform img)) = length (data img).
Proof. unfold transform; simpl. by rewrite length_fmap. Qed.

Lemma collate_ok (batch : list (tensor R * nat)) :
  batch ≠ [] → Forall sample_ok batch →
  ∃ images, collate batch = Val (images, snd <$> batch)
            ∧ shape images = [length batch; 1; 28; 28]
            ∧ tensor_wf images.
Proof.
  intros Hne Hok. unfold collate.
  destruct batch as [|[img0 y0] batch]; [done|].
  rewrite fmap_cons. cbn [fst].
  assert (Himgs : Forall (λ t : tensor R, shape t = [1; 28; 28] ∧ length (data t) = 28 * 28)
            ((λ s, transform s.1) <$> (img0, y0) :: batch)).
  { apply Forall_fmap. eapply Forall_impl; [exact Hok|].
    intros [img y] (Hs & Hwf & _). cbn [fst snd compose] in *.
    destruct (transform_shape img) as [-> ->]. split; [done|].
    rewrite Hwf. unfold numel. rewrite Hs. done. }
  rewrite fmap_cons in Himgs. cbn [fst] in Himgs.
  pose proof (Forall_inv Himgs) as [Hs0 _].
  rewrite decide_True.
  2:{ eapply Forall_impl; [exact Himgs|]. intros t [-> _]. by rewrite Hs0. }
  eexists; split; [done|]. cbn [shape data].
  rewrite Hs0, length_cons, length_fmap. split; [done|].
  unfold tensor_wf. cbn [data].
  erewrite (length_bind_const data _ (28 * 28)).
  - rewrite length_cons, length_fmap. unfold numel. cbn [shape foldr]. lia.
  - intros t Ht. rewrite Forall_forall in Himgs. by apply Himgs.
Qed.

Lemma CrossEntropyLoss_ok (output : tensor R) labels n :
  shape output = [n; 10] → length labels = n → Forall (λ y, y < 10) labels →
  ∃ l, CrossEntropyLoss output labels = Val l ∧ is_loss_value (Ritem l).
Proof.
  intros Hs Hl Hy. unfold CrossEntropyLoss. rewrite Hs.
  rewrite !decide_True by done. eexists; split; [done|]. by eexists _, _.
Qed.

Lemma numel_batch (images : tensor R) n :
  shape images = [n; 1; 28; 28] → numel images = n * (28 * 28).
Proof. intros Hs. unfold numel. rewrite Hs. cbn [foldr]. lia. Qed.

(** One training step: only the module and the optimizer change. *)
Lemma train_batch_spec batch acc w m o :
  modules w = [m] → optimizers w = [o] → sgd_params o = 0 →
  grad_enabled w = true → SimpleNN_wf m →
  batch ≠ [] → Forall sample_ok batch →
  post (train_batch 0 0 batch acc) w
    (λ acc' w', ∃ m' o' l,
       w' = set_optimizers [o'] (set_modules [m'] w)
       ∧ SimpleNN_wf m' ∧ sgd_params o' = 0
       ∧ lr o' = lr o ∧ momentum o' = momentum o
       ∧ is_loss_value l ∧ acc' = (acc + l)%float)
    (λ _ _, False).
Proof.
  intros Hm Ho Hp Hg Hwf Hne Hok.
  destruct w; cbn [modules optimizers grad_enabled] in *; subst.
  destruct (collate_ok batch Hne Hok) as (images & Hc & Hs & Hiw).
  unfold train_batch. mstep. rewrite Hc. mstep. cbn beta iota.
  mstep. unfold SGD_zero_grad, deref_optimizer, update_module. mrun.
  rewrite Hp. mrun. unfold Module_call, deref_module. mrun.
  set (m1 := map_parameters _ m).
  assert (Hwf1 : SimpleNN_wf m1) by (by apply map_parameters_wf).
  destruct (forward_ok m1 images (length batch) Hwf1 (numel_batch _ _ Hs))
    as (output & -> & Hos & _).
  mrun.
  destruct (CrossEntropyLoss_ok output (batch.*2) (length batch) Hos)
    as (loss & -> & Hl).
  { by rewrite length_fmap. }
  { apply Forall_fmap. eapply Forall_impl; [exact Hok|]. by intros [??] (_&_&?). }
  mrun. unfold loss_backward, update_module. mrun.
  unfold SGD_step, deref_optimizer, deref_module, update_module. mrun.
  rewrite Hp. mrun.
  eexists _, _, _. split_and!; try done.
  apply map_parameters_wf; [apply sgd_param_length|].
  by apply map_parameters_wf.
Qed.

Lemma train_loop_spec batches :
  Forall (λ b, b ≠ [] ∧ Forall sample_ok b) batches →
  ∀ acc w m o,
  modules w = [m] → optimizers w = [o] → sgd_params o = 0 →
  grad_enabled w = true → SimpleNN_wf m →
  post (for_fold batches acc (train_batch 0 0)) w
    (λ acc' w', ∃ m' o' losses,
       w' = set_optimizers [o'] (set_modules [m'] w)
       ∧ SimpleNN_wf m' ∧ sgd_params o' = 0
       ∧ lr o' = lr o ∧ momentum o' = momentum o
       ∧ Forall is_loss_value losses ∧ length losses = length batches
       ∧ acc' = fold_left PrimFloat.add losses acc)
    (λ _ _, False).
Proof.
  induction 1 as [|b batches [Hne Hok] _ IH]; intros acc w m o Hm Ho Hp Hg Hwf.
  - simpl. apply post_ret. exists m, o, []. split_and!; try done.
    destruct w; simpl in *; by subst.
  - simpl. apply post_bind.
    eapply post_mono; [by eapply train_batch_spec| |done].
    intros acc1 w1 (m1 & o1 & l1 & -> & Hwf1 & Hp1 & Hlr1 & Hmo1 & Hl1 & ->).
    eapply post_mono; [by apply (IH _ _ m1 o1)| |done].
    intros acc2 w2 (m2 & o2 & ls & -> & Hwf2 & Hp2 & Hlr2 & Hmo2 & Hls & Hlen & ->).
    exists m2, o2, (l1 :: ls). split_and!; try done; try congruence.
    + by constructor.
    + simpl. by rewrite Hlen.
Qed.

(** One evaluation step changes nothing. *)
Lemma eval_batch_spec batch acc w m :
  modules w = [m] → SimpleNN_wf m → batch ≠ [] → Forall sample_ok batch →
  post (eval_batch 0 batch acc) w
    (λ acc' w', w' = w ∧ ∃ l, is_loss_value l ∧ acc' = (acc + l)%float)
    (λ _ _, False).
Proof.
  intros Hm Hwf Hne Hok.
  destruct w; cbn [modules] in *; subst.
  destruct (collate_ok batch Hne Hok) as (images & Hc & Hs & Hiw).
  unfold eval_batch. mstep. rewrite Hc. mstep. cbn beta iota.
  unfold Module_call, deref_module. mrun.
  destruct (forward_ok m images (length batch) Hwf (numel_batch _ _ Hs))
    as (output & -> & Hos & _).
  mrun.
  destruct (CrossEntropyLoss_ok output (batch.*2) (length batch) Hos)
    as (loss & -> & Hl).
  { by rewrite length_fmap. }
  { apply Forall_fmap. eapply Forall_impl; [exact Hok|]. by intros [??] (_&_&?). }
  mrun. split; [done|]. by eexists.
Qed.

Lemma eval_loop_spec batches :
  Forall (λ b, b ≠ [] ∧ Forall sample_ok b) batches →
  ∀ acc w m,
  modules w = [m] → SimpleNN_wf m →
  post (for_fold batches acc (eval_batch 0)) w
    (λ acc' w', w' = w ∧ ∃ losses,
       Forall is_loss_value losses ∧ length losses = length batches
       ∧ acc' = fold_left PrimFloat.add losses acc)
    (λ _ _, False).
Proof.
  induction 1 as [|b batches [Hne Hok] _ IH]; intros acc w m Hm Hwf.
  - simpl. apply post_ret. split; [done|]. by exists [].
  - simpl. apply post_bind.
    eapply post_mono; [by eapply eval_batch_spec| |done].
    intros acc1 w1 (-> & l1 & Hl1 & ->).
    eapply post_mono; [by apply (IH _ _ m)| |done].
    intros acc2 w2 (-> & ls & Hls & Hlen & ->).
    split; [done|]. exists (l1 :: ls). split_and!; try done.
    + by constructor.
    + simpl. by rewrite Hlen.
Qed.

(** *** The loader *)

Lemma randperm_Permutation {A} (rnd : nat → nat) (l : list A) :
  randperm rnd l ≡ₚ l.
Proof.
  revert rnd. induction l as [|x l IH]; intros rnd; simpl; [done|].
  rewrite <- Permutation_middle, take_drop. by rewrite IH.
Qed.

Lemma div_ceil_step n bs : 0 < bs → (bs + n + bs - 1) / bs = S ((n + bs - 1) / bs).
Proof.
  intros Hbs. replace (bs + n + bs - 1) with (n + bs - 1 + 1 * bs) by lia.
  rewrite Nat.div_add by lia. lia.
Qed.

Lemma batch_sampler_spec {A} (P : A → Prop) bs (l batch : list A) :
  0 < bs → length batch < bs → Forall P batch → Forall P l →
  Forall (λ b, b ≠ [] ∧ Forall P b) (batch_sampler bs batch l)
  ∧ length (batch_sampler bs batch l) = (length batch + length l + bs - 1) / bs.
Proof.
  intros Hbs. revert batch.
  induction l as [|x l IH]; intros batch Hlt Hb Hl; simpl.
  - case_decide.
    + split; [constructor; [|done]; split; [|done]; intros ->; simpl in *; lia|].
      simpl. apply (Nat.div_unique _ _ 1 (length batch - 1)); lia.
    + split; [done|]. simpl. symmetry. apply Nat.div_small. lia.
  - apply Forall_cons in Hl as [Hx Hl].
    assert (Forall P (batch ++ [x])) by (apply Forall_app; auto).
    case_decide as Hfull.
    + destruct (IH [] ltac:(simpl; lia) ltac:(done) Hl) as [IH1 IH2].
      split.
      * constructor; [|done]. split; [|done]. by destruct batch.
      * simpl. rewrite IH2. rewrite length_app in Hfull. simpl in *.
        replace (length batch + S (length l) + bs - 1)
          with (bs + length l + bs - 1) by lia.
        by rewrite div_ceil_step.
    + rewrite length_app in Hfull. simpl in Hfull.
      destruct (IH (batch ++ [x])) as [IH1 IH2]; [rewrite length_app; simpl; lia|done|done|].
      split; [done|]. rewrite IH2, length_app. simpl. f_equal. lia.
Qed.

(** The world after one pass over a loader: only the random stream moved. *)
Definition after_iter (dl : DataLoader) (w : world) : world :=
  if shuffle dl then set_rng (rng w + length (samples (dl_dataset dl))) w else w.

Lemma DataLoader_iter_spec dl w :
  0 < batch_size dl → Forall sample_ok (samples (dl_dataset dl)) →
  post (DataLoader_iter dl) w
    (λ batches w', w' = after_iter dl w
       ∧ Forall (λ b, b ≠ [] ∧ Forall sample_ok b) batches
       ∧ length batches = DataLoader_len dl)
    (λ _ _, False).
Proof.
  intros Hbs Hok. unfold DataLoader_iter, after_iter, DataLoader_len.
  destruct (shuffle dl).
  - mrun. split; [done|].
    set (p := randperm _ _).
    assert (Hp : p ≡ₚ samples (dl_dataset dl)) by apply randperm_Permutation.
    destruct (batch_sampler_spec sample_ok (batch_size dl) p []) as [H1 H2];
      [done|simpl; lia|done|by rewrite Hp|].
    split; [done|]. rewrite H2. simpl. by rewrite Hp.
  - mrun. split; [done|].
    destruct (batch_sampler_spec sample_ok (batch_size dl) (samples (dl_dataset dl)) [])
      as [H1 H2]; [done|simpl; lia|done|done|].
    split; [done|]. by rewrite H2.
Qed.

Lemma DataLoader_len_pos dl :
  0 < batch_size dl → samples (dl_dataset dl) ≠ [] → DataLoader_len dl ≠ 0.
Proof.
  intros Hbs Hne. unfold DataLoader_len.
  destruct (samples (dl_dataset dl)) as [|x l]; [done|]. simpl length.
  intros Hz. apply Nat.div_small_iff in Hz; lia.
Qed.

Lemma evaluate_spec dl w m :
  modules w = [m] → SimpleNN_wf m →
  0 < batch_size dl → Forall sample_ok (samples (dl_dataset dl)) →
  post (evaluate 0 dl) w
    (λ acc w', w' = after_iter dl (set_modules [set_training false m] w)
       ∧ ∃ losses, Forall is_loss_value losses
                   ∧ length losses = DataLoader_len dl
                   ∧ acc = fold_left PrimFloat.add losses 0%float)
    (λ _ _, False).
Proof.
  intros Hm Hwf Hbs Hok. destruct w; cbn [modules] in *; subst.
  unfold evaluate, Module_eval, update_module. mrun.
  eapply post_mono; [by apply DataLoader_iter_spec| |done].
  intros batches w1 (-> & Hb & Hlen).
  eapply post_mono;
    [apply (eval_loop_spec batches Hb _ _ (set_training false m)); [|done]| |done].
  { unfold after_iter. by destruct (shuffle dl). }
  intros acc w2 (-> & losses & Hl & Hlen' & ->).
  split.
  - unfold after_iter. by destruct (shuffle dl).
  - exists losses. split_and!; [done|congruence|done].
Qed.

(** *** Metrics on the server *)

Definition run_add_metrics (ms : list metric) (x : run_record) : run_record :=
  mkRun (run_experiment x) (run_state x) (run_params x)
    (run_metrics x ++ ms) (run_artifacts x).

(** The two metrics of epoch [e], from the losses of its batches. *)
Definition epoch_metrics (e : nat) (tl vl : list float) : list metric :=
  [mkMetric "average_train_loss" (average tl) e;
   mkMetric "average_test_loss" (average vl) e].

Lemma update_run_compose f g r s :
  update_run g r (update_run f r s) = update_run (g ∘ f) r s.
Proof. unfold update_run; simpl. by rewrite list_alter_alter_eq. Qed.

Lemma update_run_ext f g r s :
  (∀ x, f x = g x) → update_run f r s = update_run g r s.
Proof.
  intros Hfg. unfold update_run. f_equal. apply list_alter_ext; [|done]. auto.
Qed.

Lemma update_run_add_metrics ms ms' r s :
  update_run (run_add_metrics ms') r (update_run (run_add_metrics ms) r s)
  = update_run (run_add_metrics (ms ++ ms')) r s.
Proof.
  rewrite update_run_compose. apply update_run_ext. intros x.
  unfold run_add_metrics; simpl. by rewrite <- (assoc_L (++)).
Qed.

Lemma update_run_two_metrics a b r s :
  update_run (run_add_metric b) r (update_run (run_add_metric a) r s)
  = update_run (run_add_metrics [a; b]) r s.
Proof.
  rewrite update_run_compose. apply update_run_ext. intros x.
  unfold run_add_metrics, run_add_metric; simpl. by rewrite <- (assoc_L (++)).
Qed.

Lemma update_run_add_metrics_nil r s : update_run (run_add_metrics []) r s = s.
Proof.
  unfold update_run. rewrite list_alter_id.
  - by destruct s.
  - intros [?????]. unfold run_add_metrics; simpl. by rewrite app_nil_r.
Qed.

Lemma truediv_average losses n :
  length losses = n → n ≠ 0 →
  truediv (fold_left PrimFloat.add losses 0%float) n = Val (average losses).
Proof.
  intros <- Hn. unfold truediv, average. by rewrite decide_False.
Qed.

(** What the process looks like apart from the server, the modules, the
    optimizers, the random stream and the count of external calls. *)
Definition same_process (w w' : world) : Prop :=
  tracking_uri w' = tracking_uri w ∧ experiment w' = experiment w
  ∧ active_run w' = active_run w ∧ grad_enabled w' = grad_enabled w
  ∧ gcf w' = gcf w ∧ shown w' = shown w ∧ stdout w' = stdout w
  ∧ raised w' = raised w.

(** The state that an epoch needs and keeps. *)
Definition training_state (w : world) (r : nat) : Prop :=
  (∃ m, modules w = [m] ∧ SimpleNN_wf m)
  ∧ (∃ o, optimizers w = [o] ∧ sgd_params o = 0
          ∧ lr o = 0.003%float ∧ momentum o = 0.9%float)
  ∧ grad_enabled w = true
  ∧ (∃ rest, active_run w = r :: rest).

Definition loader_ok (dl : DataLoader) : Prop :=
  0 < batch_size dl ∧ samples (dl_dataset dl) ≠ []
  ∧ Forall sample_ok (samples (dl_dataset dl)).

Definition losses_ok (dl : DataLoader) (losses : list float) : Prop :=
  Forall is_loss_value losses ∧ length losses = DataLoader_len dl.

Lemma epoch_spec trl tel e w r :
  (∀ k, faults env k = None) →
  training_state w r → loader_ok trl → loader_ok tel →
  post (epoch 0 0 trl tel e) w
    (λ _ w', ∃ tl vl,
       training_state w' r ∧ same_process w w'
       ∧ io_calls w' = 2 + io_calls w
       ∧ srv w' = update_run (run_add_metrics (epoch_metrics e tl vl)) r (srv w)
       ∧ losses_ok trl tl ∧ losses_ok tel vl)
    (λ _ _, False).
Proof.
  intros Hnf ((m & Hm & Hwf) & (o & Ho & Hp & Hlr & Hmo) & Hg & (rest & Har))
    (Hbs1 & Hne1 & Hok1) (Hbs2 & Hne2 & Hok2).
  destruct w; cbn [modules optimizers grad_enabled active_run] in *; subst.
  unfold epoch, Module_train, update_module. mrun.
  eapply post_mono; [by apply DataLoader_iter_spec| |done].
  intros batches w1 (-> & Hb & Hlen). mrun1.
  eapply post_mono;
    [apply (train_loop_spec batches Hb _ _ (set_training true m) o); try done| |done].
  1-3: unfold after_iter; by destruct (shuffle trl).
  intros acc w2 (m2 & o2 & tl & -> & Hwf2 & Hp2 & Hlr2 & Hmo2 & Htl & Htlen & ->).
  mrun1. rewrite (truediv_average tl (DataLoader_len trl));
    [|congruence|by apply DataLoader_len_pos].
  mrun1. mrun1.
  unfold mlflow_log_metric at 1. apply post_external. rewrite Hnf.
  unfold current_run, on_server, after_iter.
  destruct (shuffle trl); mrun.
  all: (eapply post_mono; [by apply (evaluate_spec tel _ m2)| |done]).
  all: intros acc w3 (-> & vl & Hvl & Hvlen & ->).
  all: mrun1; rewrite (truediv_average vl (DataLoader_len tel));
    [|congruence|by apply DataLoader_len_pos].
  all: mrun1; unfold mlflow_log_metric; apply post_external; rewrite Hnf.
  all: unfold current_run, on_server, after_iter.
  all: destruct (shuffle tel); mrun.
  all: exists tl, vl.
  all: unfold training_state, same_process; wsimpl.
  all: rewrite update_run_two_metrics.
  all: split_and!; try done; try (by eexists).
  all: try (eexists; split_and!; [done|congruence..]).
  all: split; [done|congruence].
Qed.

Lemma same_process_refl w : same_process w w.
Proof. by repeat split. Qed.

Lemma same_process_trans w1 w2 w3 :
  same_process w1 w2 → same_process w2 w3 → same_process w1 w3.
Proof. unfold same_process. intros; destruct_and!; split_and!; congruence. Qed.

(** The metrics of the epochs [es], epoch by epoch. *)
Definition epochs_metrics (trl tel : DataLoader) (es : list nat)
    (mss : list (list metric)) : Prop :=
  Forall2 (λ e ms, ∃ tl vl, ms = epoch_metrics e tl vl
                            ∧ losses_ok trl tl ∧ losses_ok tel vl) es mss.

Lemma epochs_spec trl tel r es :
  (∀ k, faults env k = None) → loader_ok trl → loader_ok tel →
  ∀ w, training_state w r →
  post (for_each es (epoch 0 0 trl tel)) w
    (λ _ w', ∃ mss,
       training_state w' r ∧ same_process w w'
       ∧ io_calls w' = 2 * length es + io_calls w
       ∧ srv w' = update_run (run_add_metrics (concat mss)) r (srv w)
       ∧ epochs_metrics trl tel es mss)
    (λ _ _, False).
Proof.
  intros Hnf Htr Hte. induction es as [|e es IH]; intros w Hw.
  - simpl. apply post_ret. exists [].
    split_and!; [done|apply same_process_refl|done| |constructor].
    simpl. by rewrite update_run_add_metrics_nil.
  - simpl. apply post_bind.
    eapply post_mono; [by apply (epoch_spec trl tel e w r)| |done].
    intros [] w1 (tl & vl & Hw1 & Hsp1 & Hio1 & Hsrv1 & Htl & Hvl).
    eapply post_mono; [by apply IH| |done].
    intros [] w2 (mss & Hw2 & Hsp2 & Hio2 & Hsrv2 & Hmss).
    exists (epoch_metrics e tl vl :: mss).
    split_and!; [done|by eapply same_process_trans|simpl length; lia| |].
    + rewrite Hsrv2, Hsrv1. simpl concat. by rewrite update_run_add_metrics.
    + constructor; [by exists tl, vl|done].
Qed.

Lemma update_run_last f ex rs x reg :
  update_run f (length rs) (mkServer ex (rs ++ [x]) reg)
  = mkServer ex (rs ++ [f x]) reg.
Proof.
  unfold update_run; simpl. f_equal.
  rewrite alter_app_r_alt by lia. by rewrite Nat.sub_diag.
Qed.

(** The run record that the training cell leaves on the server. *)
Definition final_run (ex : string) (ms : list metric) (m : SimpleNN) : run_record :=
  mkRun ex FINISHED
    (<["momentum" := 0.003%float]> (<["learning_rate" := 0.003%float]> ∅))
    ms (<["mnist_model" := pickle m]> ∅).

(** An environment in which nothing goes wrong: every external call is
    answered and both MNIST splits are non-empty lists of 28 by 28 images
    with a digit as label. *)
Record good_env : Prop := mkGoodEnv {
  no_faults : ∀ k, faults env k = None;
  train_nonempty : mnist_train env ≠ [];
  train_ok : Forall sample_ok (mnist_train env);
  test_nonempty : mnist_test env ≠ [];
  test_ok : Forall sample_ok (mnist_test env);
}.

Lemma training_cell_spec trl tel w :
  (∀ k, faults env k = None) → loader_ok trl → loader_ok tel →
  (∃ m, modules w = [m] ∧ SimpleNN_wf m) →
  (∃ o, optimizers w = [o] ∧ sgd_params o = 0
        ∧ lr o = 0.003%float ∧ momentum o = 0.9%float) →
  grad_enabled w = true → active_run w = [] →
  post (training_cell 0 0 trl tel) w
    (λ run w', ∃ m mss,
       run = length (runs (srv w))
       ∧ modules w' = [m] ∧ SimpleNN_wf m
       ∧ (∃ o, optimizers w' = [o] ∧ sgd_params o = 0
               ∧ lr o = 0.003%float ∧ momentum o = 0.9%float)
       ∧ same_process w w'
       ∧ io_calls w' = 15 + io_calls w
       ∧ srv w' = mkServer (experiments (srv w))
                    (runs (srv w) ++ [final_run (experiment w) (concat mss) m])
                    (<["MNISTModel" :=
                        default [] (registry (srv w) !! "MNISTModel")
                        ++ [mkVersion run "mnist_model"]]> (registry (srv w)))
       ∧ epochs_metrics trl tel (seq 0 5) mss)
    (λ _ _, False).
Proof.
  intros Hnf Htr Hte (m & Hm & Hwf) (o & Ho & Hp & Hlr & Hmo) Hg Har.
  destruct w as [[ex rs reg] ????????????];
    cbn [modules optimizers grad_enabled active_run] in *; subst.
  unfold training_cell. apply post_with_start_run.
  unfold mlflow_start_run. apply post_external. rewrite Hnf.
  unfold create_run, on_server. mrun.
  unfold mlflow_log_param at 1. apply post_external. rewrite Hnf.
  unfold current_run, on_server. mrun.
  unfold mlflow_log_param at 1. apply post_external. rewrite Hnf.
  unfold current_run, on_server. mrun.
  unfold server_add_run; cbn [runs experiments registry].
  rewrite !update_run_last.
  eapply post_mono;
    [apply (epochs_spec trl tel (length rs) (seq 0 5) Hnf Htr Hte)| |done].
  { unfold training_state; wsimpl. split_and!; try done; by eexists. }
  intros [] w1 (mss & Hw1 & Hsp1 & Hio1 & Hsrv1 & Hmss).
  destruct Hw1 as ((m1 & Hm1 & Hwf1) & (o1 & Ho1 & Hp1 & Hlr1 & Hmo1) & Hg1 & _).
  unfold same_process in Hsp1.
  destruct w1; cbn [srv tracking_uri experiment active_run modules optimizers
    grad_enabled rng gcf shown stdout io_calls raised] in *.
  destruct_and!; subst. rewrite update_run_last.
  mrun1.
  unfold mlflow_pytorch_log_model. apply post_external. rewrite Hnf.
  unfold current_run, on_server, deref_module. mrun. rewrite update_run_last.
  unfold mlflow_register_model. apply post_external. rewrite Hnf.
  unfold on_server. mrun.
  rewrite lookup_app_r by lia. rewrite Nat.sub_diag. cbn [lookup list_lookup].
  mrun.
  exists m1, mss. unfold end_run; wsimpl.
  unfold server_add_version; wsimpl. rewrite update_run_last.
  unfold same_process, final_run; wsimpl.
  cbn [run_set_state run_add_artifact run_add_metrics run_add_param fresh_run
       run_experiment run_state run_params run_metrics run_artifacts
       runs experiments registry length].
  split_and!; try done; by eexists.
Qed.

(** The loaders of the notebook. *)
Definition train_loader : DataLoader :=
  mkDataLoader (mkDataset (mnist_train env)) 64 true.
Definition test_loader : DataLoader :=
  mkDataLoader (mkDataset (mnist_test env)) 64 false.

(** The world after the training cell, started in a fresh process against
    the server [s]. *)
Definition trained (s : server) (g : globals) (w' : world) (m : SimpleNN)
    (mss : list (list metric)) : Prop :=
  g = mkGlobals (mkDataset (mnist_test env)) 0 0 (length (runs s))
  ∧ modules w' = [m] ∧ SimpleNN_wf m
  ∧ (∃ o, optimizers w' = [o] ∧ sgd_params o = 0
          ∧ lr o = 0.003%float ∧ momentum o = 0.9%float)
  ∧ grad_enabled w' = true ∧ active_run w' = [] ∧ raised w' = []
  ∧ gcf w' = empty_figure ∧ shown w' = [] ∧ stdout w' = []
  ∧ io_calls w' = 18
  ∧ srv w' = mkServer ({["mnist_pytorch_experiment"]} ∪ experiments s)
               (runs s ++ [final_run "mnist_pytorch_experiment" (concat mss) m])
               (<["MNISTModel" :=
                   default [] (registry s !! "MNISTModel")
                   ++ [mkVersion (length (runs s)) "mnist_model"]]> (registry s))
  ∧ epochs_metrics train_loader test_loader (seq 0 5) mss.

Lemma train_script_spec s :
  good_env →
  post train_script (fresh_process s)
    (λ g w', ∃ m mss, trained s g w' m mss) (λ _ _, False).
Proof.
  intros [Hnf Htn Htok Hen Heok]. destruct s as [ex rs reg].
  unfold train_script, fresh_process.
  unfold mlflow_set_tracking_uri. mrun.
  unfold mlflow_set_experiment. apply post_external. rewrite Hnf.
  unfold on_server. mrun.
  unfold datasets_MNIST at 1. apply post_external. rewrite Hnf. mrun.
  unfold datasets_MNIST at 1. apply post_external. rewrite Hnf. mrun.
  unfold SimpleNN_init, new_module. mrun.
  unfold SGD_init. mrun.
  eapply post_mono; [apply training_cell_spec| |done]; wsimpl; try done.
  - split_and!; [simpl; lia|done|done].
  - split_and!; [simpl; lia|done|done].
  - eexists; split; [done|]. apply SimpleNN_new_wf.
  - eexists; split_and!; done.
  - intros run w1 (m & mss & -> & Hm & Hwf & Ho & Hsp & Hio & Hsrv & Hmss).
    mrun. exists m, mss. unfold same_process in Hsp.
    destruct w1; cbn [srv tracking_uri experiment active_run modules optimizers
      grad_enabled rng gcf shown stdout io_calls raised] in *.
    destruct_and!; subst. unfold trained; wsimpl.
    unfold server_add_experiment; wsimpl. split_and!; done.
Qed.

(** *** Inference *)

Lemma rows_single {A} k (l : list A) : 0 < k → length l = k → rows k l = [l].
Proof.
  intros Hk Hl. unfold rows. rewrite Hl, Nat.div_same by lia. simpl.
  by rewrite drop_0, take_ge by lia.
Qed.

Lemma set_flags_wf b d (m : SimpleNN) :
  SimpleNN_wf m → SimpleNN_wf (set_device d (set_training b m)).
Proof. done. Qed.

Lemma forward_flags b d (m : SimpleNN) x :
  forward (set_device d (set_training b m)) x = forward m x.
Proof. done. Qed.

(** The module as [predict_and_visualize] leaves it. *)
Definition for_inference (m : SimpleNN) : SimpleNN :=
  set_device (if cuda_is_available env then cuda else cpu) (set_training false m).

(** The world after [predict_and_visualize]: the module is in evaluation mode
    on the device, and one more figure has been shown. *)
Definition after_predict (model : nat) (fig : figure) (w : world) : world :=
  set_shown (shown w ++ [fig])
    (set_gcf empty_figure
       (set_modules (alter for_inference model (modules w)) w)).

Definition prediction_title (digit true_label : nat) : string :=
  "Predicted Digit: " +:+ pretty digit +:+ ", True Label: " +:+ pretty true_label.

Lemma predict_and_visualize_spec model ds index w m img y :
  modules w !! model = Some m → SimpleNN_wf m →
  Dataset_getitem ds index = Val (img, y) →
  shape img = [1; 28; 28] → tensor_wf img →
  ∃ logits,
    forward m (unsqueeze0 img) = Val logits
    ∧ shape logits = [1; 10] ∧ length (data logits) = 10
    ∧ predict_and_visualize model ds index w
      = Ok (logits, [argmax_row (data logits)])
           (after_predict model
              (mkFigure (Some (squeeze (unsqueeze0 img))) "Greys_r"
                 (prediction_title (argmax_row (data logits)) y)) w).
Proof.
  intros Hm Hwf Hget Hs Himg.
  destruct (forward_ok m (unsqueeze0 img) 1 Hwf) as (logits & Hf & Hls & Hlw).
  { unfold numel, unsqueeze0; cbn [shape]. rewrite Hs. done. }
  assert (Hlen : length (data logits) = 10).
  { rewrite Hlw; [unfold numel; by rewrite Hls|].
    unfold tensor_wf, numel, unsqueeze0 in *. cbn [shape data foldr].
    rewrite Himg. lia. }
  exists logits. split_and!; try done.
  set (fig := mkFigure _ _ _).
  assert (Hpost : post (predict_and_visualize model ds index) w
            (λ r w', r = (logits, [argmax_row (data logits)])
                     ∧ w' = after_predict model fig w)
            (λ _ _, False)).
  { destruct w; cbn [modules] in Hm.
    unfold predict_and_visualize, Module_eval, Module_to, update_module.
    mrun. rewrite Hget. mrun.
    unfold Module_call, deref_module. mrun.
    rewrite !list_lookup_alter_eq, Hm. cbn [fmap option_fmap option_map].
    mrun. rewrite !forward_flags, Hf. mrun.
    unfold torch_argmax_dim1. rewrite Hls, rows_single by (done || lia).
    cbn [fmap list_fmap]. mrun.
    unfold plt_imshow, squeeze, unsqueeze0. cbn [shape]. rewrite Hs.
    cbn [filter list_filter]. repeat case_decide; try done.
    mrun. cbn [item]. mrun. unfold plt_title. mrun. unfold plt_show. mrun.
    split; [done|].
    unfold fig, after_predict, for_inference, squeeze, unsqueeze0,
      prediction_title; wsimpl.
    cbn [fig_image fig_cmap fig_title shape data]. rewrite Hs.
    cbn [filter list_filter]. repeat case_decide; try done.
    by rewrite list_alter_alter_eq. }
  unfold post in Hpost.
  destruct (predict_and_visualize model ds index w) as [r w'|]; [|done].
  by destruct Hpost as [-> ->].
Qed.

(** [argmax_from] returns the position of an element that none exceeds,
    when [Rltb] is a strict order. *)
Lemma argmax_from_spec (l pre : list R) best_i best :
  (∀ a, Rltb a a = false) →
  (∀ a b c, Rltb a b = true → Rltb b c = true → Rltb a c = true) →
  pre !! best_i = Some best →
  (∀ x, x ∈ pre → Rltb best x = false) →
  ∃ top, (pre ++ l) !! argmax_from best_i best (length pre) l = Some top
         ∧ ∀ x, x ∈ pre ++ l → Rltb top x = false.
Proof.
  intros Hirr Htr. revert pre best_i best.
  induction l as [|x l IH]; intros pre best_i best Hb Hmax; simpl.
  - exists best. rewrite app_nil_r. done.
  - rewrite (cons_middle x pre l), (assoc_L (++)).
    replace (S (length pre)) with (length (pre ++ [x]))
      by (rewrite length_app; simpl; lia).
    destruct (Rltb best x) eqn:Hlt.
    + apply IH.
      * by rewrite lookup_app_r, Nat.sub_diag by lia.
      * intros z [Hz| ->%list_elem_of_singleton]%elem_of_app; [|done].
        destruct (Rltb x z) eqn:Hxz; [|done].
        rewrite <- (Hmax z Hz). symmetry. by eapply Htr.
    + apply IH.
      * apply lookup_app_l_Some. done.
      * intros z [Hz| ->%list_elem_of_singleton]%elem_of_app; auto.
Qed.

Lemma argmax_row_spec (l : list R) :
  (∀ a, Rltb a a = false) →
  (∀ a b c, Rltb a b = true → Rltb b c = true → Rltb a c = true) →
  l ≠ [] →
  ∃ top, l !! argmax_row l = Some top ∧ ∀ x, x ∈ l → Rltb top x = false.
Proof.
  intros Hirr Htr Hne. destruct l as [|x l]; [done|]. unfold argmax_row.
  apply (argmax_from_spec l [x] 0 x Hirr Htr); [done|].
  by intros z ->%list_elem_of_singleton.
Qed.

Lemma for_inference_idemp (m : SimpleNN) :
  for_inference (for_inference m) = for_inference m.
Proof. done. Qed.

(** C7: for a model and a dataset index, [predict_and_visualize] run twice in
    a row computes the same logits, those of one forward pass of the model on
    the image with a batch dimension, and reports the same digit; the digit
    in the title of the figure is the arg-max of the ten logits: a position
    whose logit no other logit exceeds. *)
Theorem predict_and_visualize_deterministic model ds index w m img y :
  modules w !! model = Some m → SimpleNN_wf m →
  Dataset_getitem ds index = Val (img, y) →
  shape img = [1; 28; 28] → tensor_wf img →
  (∀ a, Rltb a a = false) →
  (∀ a b c, Rltb a b = true → Rltb b c = true → Rltb a c = true) →
  ∃ logits digit w1 w2,
    predict_and_visualize model ds index w = Ok (logits, [digit]) w1
    ∧ predict_and_visualize model ds index w1 = Ok (logits, [digit]) w2
    ∧ forward m (unsqueeze0 img) = Val logits
    ∧ length (data logits) = 10
    ∧ digit = argmax_row (data logits)
    ∧ (∃ top, data logits !! digit = Some top
              ∧ ∀ x, x ∈ data logits → Rltb top x = false)
    ∧ fig_title <$> last (shown w1) = Some (prediction_title digit y).
Proof.
  intros Hm Hwf Hget Hs Himg Hirr Htr.
  destruct (predict_and_visualize_spec model ds index w m img y)
    as (logits & Hf & Hls & Hlen & Hrun); try done.
  set (fig := mkFigure _ _ _) in Hrun.
  set (w1 := after_predict model fig w) in *.
  assert (Hm1 : modules w1 !! model = Some (for_inference m)).
  { unfold w1, after_predict; wsimpl. by rewrite list_lookup_alter_eq, Hm. }
  destruct (predict_and_visualize_spec model ds index w1 (for_inference m) img y)
    as (logits' & Hf' & _ & _ & Hrun'); try done.
  unfold for_inference in Hf'. rewrite forward_flags in Hf'.
  assert (logits' = logits) as -> by congruence.
  eexists logits, (argmax_row (data logits)), w1, _.
  split_and!; [exact Hrun|exact Hrun'|done|done|done| |].
  - apply argmax_row_spec; try done. intros Hnil. by rewrite Hnil in Hlen.
  - unfold w1, after_predict; wsimpl. by rewrite last_snoc.
Qed.

(** C3: calling the model computes
    [fc3 (relu (fc2 (relu (fc1 (x.view(-1, 784))))))], with a rectified linear
    unit after the first and the second layer and none after the third; the
    call returns this value and leaves the world as it was, and fails, with
    the exception of the computation, only when the computation does; the
    value does not depend on the mode or the device of the module; and the
    layers of a new [SimpleNN] have the sizes 784 to 128, 128 to 64 and 64 to
    10. *)
Theorem SimpleNN_forward_spec model w m x :
  modules w !! model = Some m →
  forward m x
  = rbind (view_rows x 784) (λ x0,
    rbind (Linear_forward (fc1 m) x0) (λ x1,
    rbind (Linear_forward (fc2 m) (torch_relu x1)) (λ x2,
    Linear_forward (fc3 m) (torch_relu x2))))
  ∧ (∀ r, data (torch_relu r) = (λ a, if Rltb Rzero a then a else Rzero) <$> data r)
  ∧ Module_call model x w
    = match forward m x with
      | Val y => Ok y w
      | Exn e => Raise e (set_raised (raised w ++ [e]) w)
      end
  ∧ (∀ b d, forward (set_device d (set_training b m)) x = forward m x)
  ∧ (∀ init0, let n := SimpleNN_new init0 in
       (in_features (fc1 n), out_features (fc1 n)) = (784, 128)
       ∧ (in_features (fc2 n), out_features (fc2 n)) = (128, 64)
       ∧ (in_features (fc3 n), out_features (fc3 n)) = (64, 10)
       ∧ SimpleNN_wf n).
Proof.
  intros Hm. split_and!.
  - unfold forward. change (28 * 28) with 784.
    destruct (view_rows x 784) as [x0|]; [|done]. cbn [rbind].
    destruct (Linear_forward (fc1 m) x0) as [x1|]; [|done]. cbn [rbind].
    destruct (Linear_forward (fc2 m) (torch_relu x1)) as [x2|]; [|done].
    cbn [rbind]. by destruct (Linear_forward (fc3 m) (torch_relu x2)).
  - done.
  - unfold Module_call, deref_module, bind, get. rewrite Hm.
    unfold ret, lift. by destruct (forward m x).
  - done.
  - intros init0 n. split_and!; try done; apply SimpleNN_new_wf.
Qed.


(** *** Loading the registered model *)

Lemma pickle_wf (m : SimpleNN) : SimpleNN_wf m → SimpleNN_wf (pickle m).
Proof. intros. by apply map_parameters_wf. Qed.

Lemma forward_pickle (m : SimpleNN) x : forward (pickle m) x = forward m x.
Proof. done. Qed.

(** After the training cell on a server without earlier version of
    ["MNISTModel"], version 1 is the artifact of the run. *)
Lemma trained_resolve s g w1 m mss v :
  trained s g w1 m mss → registry s !! "MNISTModel" = None →
  resolve (srv w1) (ModelsUri "MNISTModel" v)
  = if decide (v = 1) then Some (pickle m) else None.
Proof.
  intros (_&_&_&_&_&_&_&_&_&_&_& Hsrv &_) Hreg.
  rewrite Hsrv, Hreg. unfold resolve. cbn [registry runs default].
  destruct v as [|[|v]]; [done| |].
  - rewrite lookup_insert_eq. cbn [mbind option_bind app lookup list_lookup].
    cbn [mv_run mv_path].
    rewrite lookup_app_r, Nat.sub_diag by lia. cbn [lookup list_lookup].
    unfold final_run. cbn [mbind option_bind run_artifacts].
    by rewrite lookup_insert_eq.
  - rewrite lookup_insert_eq. cbn [mbind option_bind app lookup list_lookup].
    by rewrite decide_False by lia.
Qed.

Lemma load_script_spec s g w1 m mss :
  good_env → trained s g w1 m mss → registry s !! "MNISTModel" = None →
  ∃ w2 fig,
    load_script g w1 = Ok 1 w2
    ∧ modules w2 = [m; for_inference (pickle m)]
    ∧ srv w2 = srv w1 ∧ optimizers w2 = optimizers w1
    ∧ raised w2 = [] ∧ shown w2 = [fig] ∧ io_calls w2 = 19.
Proof.
  intros [Hnf Htn Htok Hen Heok] Htr Hreg.
  pose proof (trained_resolve s g w1 m mss 1 Htr Hreg) as Hres.
  rewrite decide_True in Hres by done.
  destruct Htr as (-> & Hm & Hwf & _ & Hg & Har & Hra & Hgcf & Hsh & Hso & Hio & Hsrv & _).
  destruct (mnist_test env) as [|[img0 y0] rest] eqn:Htest; [done|].
  apply Forall_cons in Heok as [(Hs0 & Hw0 & Hy0) _]. cbn [fst snd] in *.
  destruct (transform_shape img0) as [Hts Htl].
  destruct w1 as [srv1 ????????????];
    cbn [srv modules grad_enabled active_run raised gcf shown stdout io_calls] in *.
  subst.
  set (sv := mkServer _ _ _) in *.
  set (w' := mkWorld sv tracking_uri0 experiment0 [] [m; pickle m] optimizers0
               true rng0 empty_figure [] [SimpleNN_repr (pickle m)] 19 []).
  destruct (predict_and_visualize_spec 1 (mkDataset ((img0, y0) :: rest)) 0 w'
              (pickle m) (transform img0) y0)
    as (logits & _ & _ & _ & Hrun).
  { done. }
  { by apply pickle_wf. }
  { done. }
  { by rewrite Hts. }
  { unfold tensor_wf, numel in *. by rewrite Htl, Hts. }
  eexists _, _.
  unfold load_script, bind. cbn [g_test_dataset].
  unfold mlflow_pytorch_load_model, external. rewrite Hnf.
  unfold bind, get. wsimpl. rewrite Hres.
  unfold new_module, bind, get, modify, ret. wsimpl.
  unfold print_module, deref_module, bind, get, modify, ret. wsimpl.
  cbn [app length lookup list_lookup]. wsimpl. cbn [app].
  change (mkWorld _ _ _ _ [m; pickle m] _ _ _ _ _ _ _ _) with w'.
  rewrite Hrun.
  unfold after_predict, w'; wsimpl. split_and!; done.
Qed.

(** The cells after the training cell do not write to the server. *)
Lemma load_script_server g w :
  post (load_script g) w
    (λ _ w', srv w' = srv w ∧ optimizers w' = optimizers w)
    (λ _ w', srv w' = srv w ∧ optimizers w' = optimizers w).
Proof.
  unfold load_script, mlflow_pytorch_load_model, new_module, print_module,
    deref_module, predict_and_visualize, Module_eval, Module_to, update_module,
    Module_call, deref_module, plt_imshow, plt_title, plt_show.
  repeat (mstep; try done).
Qed.


(** *** Binary64 arithmetic of the running sum and the average *)

Open Scope Z_scope.


Lemma digits2_pos_size p : digits2_pos p = Pos.size p.
Proof. induction p; simpl; congruence. Qed.

Lemma Zdigits2_log2 m : 0 < m → Zdigits2 m = Z.log2 m + 1.
Proof.
  destruct m as [|p|p]; try lia. intros _.
  destruct p; simpl; rewrite ?digits2_pos_size; lia.
Qed.

Lemma Zdigits2_bounds m : 0 < m → 2 ^ (Zdigits2 m - 1) ≤ m < 2 ^ Zdigits2 m.
Proof.
  intros Hm. rewrite Zdigits2_log2 by done.
  replace (Z.log2 m + 1 - 1) with (Z.log2 m) by lia.
  apply Z.log2_spec. done.
Qed.

Lemma Zdigits2_nonneg m : 0 ≤ Zdigits2 m.
Proof. destruct m; simpl; lia. Qed.

(** A number below [2 ^ k] has at most [k] digits. *)
Lemma Zdigits2_le m k : 0 ≤ m → 0 ≤ k → m < 2 ^ k → Zdigits2 m ≤ k.
Proof.
  intros Hm Hk Hlt. destruct (decide (m = 0)) as [->|]; [done|].
  destruct (Zdigits2_bounds m) as [Hlo _]; [lia|].
  destruct (decide (Zdigits2 m ≤ k)); [done|].
  assert (2 ^ k ≤ 2 ^ (Zdigits2 m - 1)) by (apply Z.pow_le_mono_r; lia). lia.
Qed.

(** ** Shifting right *)

Definition inexact (mrs : shr_record) : bool := shr_r mrs || shr_s mrs.

Definition shr_rel (k : Z) (x y : shr_record) : Prop :=
  0 ≤ shr_m y ∧ shr_m y = shr_m x / 2 ^ k
  ∧ (inexact y = true → shr_m x mod 2 ^ k ≠ 0 ∨ inexact x = true).

Lemma shr_1_rel x : 0 ≤ shr_m x → shr_rel 1 x (shr_1 x).
Proof.
  destruct x as [m r s]. unfold shr_rel, inexact. simpl shr_m. intros Hm.
  change (2 ^ 1) with 2.
  destruct m as [|[p|p|]|]; try lia; cbn [shr_1 shr_m shr_r shr_s].
  - split; [lia|]. split; [done|]. auto.
  - split; [lia|]. split; [Z.div_mod_to_equations; lia|].
    intros _. left. Z.div_mod_to_equations; lia.
  - split; [lia|]. split; [Z.div_mod_to_equations; lia|]. auto.
  - split; [lia|]. split; [done|]. intros _. by left.
Qed.

Lemma shr_rel_trans a b x y z :
  0 ≤ a → 0 ≤ b → 0 ≤ shr_m x →
  shr_rel a x y → shr_rel b y z → shr_rel (a + b) x z.
Proof.
  intros Ha Hb Hx (Hy0 & Hy & Hyi) (Hz0 & Hz & Hzi).
  split; [done|]. split.
  - rewrite Hz, Hy, Z.pow_add_r, Z.div_div by lia. done.
  - intros Hi.
    assert (Hdiv : shr_m x mod (2 ^ a * 2 ^ b) = 0 → shr_m x mod 2 ^ a = 0
                   ∧ (shr_m x / 2 ^ a) mod 2 ^ b = 0).
    { intros H0. apply Z.mod_divide in H0; [|lia]. destruct H0 as [q Hq].
      rewrite Hq. replace (q * (2 ^ a * 2 ^ b)) with (q * 2 ^ b * 2 ^ a) by lia.
      rewrite Z.div_mul, !Z.mod_mul by lia. done. }
    rewrite Z.pow_add_r by lia.
    destruct (Hzi Hi) as [Hm|Hi'].
    + left. intros H0. apply Hm. rewrite Hy. by apply Hdiv.
    + destruct (Hyi Hi') as [Hm|]; [|by right].
      left. intros H0. apply Hm. by apply Hdiv.
Qed.

Lemma iter_shr_rel p x : 0 ≤ shr_m x → shr_rel (Zpos p) x (SpecFloat.iter_pos shr_1 p x).
Proof.
  revert x. induction p as [p IH|p IH|]; intros x Hx; simpl.
  - pose proof (shr_1_rel x Hx) as H1. pose proof H1 as (H10 & _).
    pose proof (IH _ H10) as H2. pose proof H2 as (H20 & _).
    pose proof (IH _ H20) as H3.
    replace (Zpos p~1) with (1 + (Zpos p + Zpos p)) by lia.
    eapply shr_rel_trans; [lia|lia|done|exact H1|].
    eapply shr_rel_trans; [lia|lia|done|exact H2|exact H3].
  - pose proof (IH _ Hx) as H2. pose proof H2 as (H20 & _).
    pose proof (IH _ H20) as H3.
    replace (Zpos p~0) with (Zpos p + Zpos p) by lia.
    eapply shr_rel_trans; [lia|lia|done|exact H2|exact H3].
  - by apply shr_1_rel.
Qed.

Lemma loc_of_record_of_loc m l : loc_of_shr_record (shr_record_of_loc m l) = l.
Proof. by destruct l as [|[]]. Qed.

Lemma loc_Exact_inexact mrs : loc_of_shr_record mrs ≠ loc_Exact → inexact mrs = true.
Proof. destruct mrs as [m [] []]; simpl; try done. Qed.

Lemma inexact_record_of_loc m l :
  inexact (shr_record_of_loc m l) = true → l ≠ loc_Exact.
Proof. by destruct l as [|[]]. Qed.

Lemma shr_m_record_of_loc m l : shr_m (shr_record_of_loc m l) = m.
Proof. by destruct l as [|[]]. Qed.

(** [shr_fexp] brings the exponent up to the one of the format, if it is
    below, and divides the mantissa accordingly. *)
Lemma shr_fexp_spec m e l :
  0 ≤ m →
  let '(mrs, e') := shr_fexp prec emax m e l in
  e' = Z.max e (fexp prec emax (Zdigits2 m + e))
  ∧ 0 ≤ shr_m mrs ∧ shr_m mrs = m / 2 ^ (e' - e)
  ∧ (loc_of_shr_record mrs ≠ loc_Exact → m mod 2 ^ (e' - e) ≠ 0 ∨ l ≠ loc_Exact).
Proof.
  intros Hm. unfold shr_fexp, shr.
  destruct (fexp prec emax (Zdigits2 m + e) - e) as [|p|p] eqn:Hn.
  - rewrite Z.max_l by lia. rewrite Z.sub_diag, shr_m_record_of_loc.
    rewrite Z.div_1_r, loc_of_record_of_loc. split_and!; auto.
  - rewrite Z.max_r by lia.
    destruct (iter_shr_rel p (shr_record_of_loc m l)) as (H0 & H1 & H2).
    { by rewrite shr_m_record_of_loc. }
    rewrite shr_m_record_of_loc in *.
    replace (e + Zpos p) with (fexp prec emax (Zdigits2 m + e)) by lia.
    rewrite Hn. split_and!; auto.
    intros Hl. destruct (H2 (loc_Exact_inexact _ Hl)) as [|Hi]; [by left|].
    right. by apply inexact_record_of_loc in Hi.
  - rewrite Z.max_l by lia. rewrite Z.sub_diag, shr_m_record_of_loc.
    rewrite Z.div_1_r, loc_of_record_of_loc. split_and!; auto.
Qed.

Lemma round_nearest_even_spec m l :
  round_nearest_even m l = m
  ∨ (round_nearest_even m l = m + 1 ∧ l ≠ loc_Exact).
Proof.
  destruct l as [|[]]; simpl; auto. destruct (Z.even m); auto.
Qed.


(** ** Rounding below a bound on the grid

    Values are scaled by [2 ^ 2200] so that they are integers; the bounds
    are multiples [c * 2 ^ 128] with [c] below [2 ^ 53]. *)

Definition scaled (m e : Z) : Z := m * 2 ^ (e + 2200).
Definition bound (c : Z) : Z := c * 2 ^ 2328.

Lemma fexp_unfold x : fexp prec emax x = Z.max (x - 53) (-1074).
Proof. reflexivity. Qed.

Lemma scaled_fexp_le m e c :
  0 ≤ m → -2200 ≤ e ≤ 128 → 0 < c < 2 ^ 53 → scaled m e ≤ bound c →
  fexp prec emax (Zdigits2 m + e) ≤ 128.
Proof.
  intros Hm He Hc Hb. rewrite fexp_unfold.
  destruct (decide (m = 0)) as [->|Hm0]; [simpl; lia|].
  destruct (Zdigits2_bounds m) as [Hlo _]; [lia|].
  pose proof (Zdigits2_nonneg m) as Hd.
  destruct (decide (Zdigits2 m + e ≤ 181)) as [|Hbig]; [lia|].
  exfalso. unfold scaled, bound in Hb.
  assert (H1 : 2 ^ (181 - e) ≤ 2 ^ (Zdigits2 m - 1)) by (apply Z.pow_le_mono_r; lia).
  assert (H2 : 2 ^ (181 - e) * 2 ^ (e + 2200) = 2 ^ 2381).
  { rewrite <- Z.pow_add_r by lia. f_equal. lia. }
  assert (H3 : 2 ^ 2381 = 2 ^ 53 * 2 ^ 2328).
  { rewrite <- Z.pow_add_r by lia. done. }
  assert (0 < 2 ^ (e + 2200)) by (apply Z.pow_pos_nonneg; lia).
  assert (0 < 2 ^ 2328) by (apply Z.pow_pos_nonneg; lia).
  nia.
Qed.

Lemma scaled_div m e e1 :
  0 ≤ m → -2200 ≤ e ≤ e1 →
  scaled (m / 2 ^ (e1 - e)) e1 ≤ scaled m e
  ∧ (m mod 2 ^ (e1 - e) ≠ 0 → scaled (m / 2 ^ (e1 - e)) e1 < scaled m e).
Proof.
  intros Hm He. unfold scaled.
  assert (HK : 0 < 2 ^ (e1 - e)) by (apply Z.pow_pos_nonneg; lia).
  assert (HP : 0 < 2 ^ (e + 2200)) by (apply Z.pow_pos_nonneg; lia).
  replace (e1 + 2200) with ((e1 - e) + (e + 2200)) by lia.
  rewrite (Z.pow_add_r 2 (e1 - e) (e + 2200)) by lia.
  pose proof (Z.div_mod m (2 ^ (e1 - e)) ltac:(lia)) as Hdm.
  pose proof (Z.mod_pos_bound m (2 ^ (e1 - e)) HK) as Hmod.
  split; [nia|]. intros Hne. nia.
Qed.

Lemma scaled_succ_le m e c :
  -2200 ≤ e ≤ 128 → scaled m e < bound c → scaled (m + 1) e ≤ bound c.
Proof.
  intros He. unfold scaled, bound.
  replace 2328 with ((128 - e) + (e + 2200)) by lia.
  rewrite (Z.pow_add_r 2 (128 - e) (e + 2200)) by lia.
  assert (HP : 0 < 2 ^ (e + 2200)) by (apply Z.pow_pos_nonneg; lia).
  intros Hlt. set (Q := 2 ^ (128 - e)) in *. set (P := 2 ^ (e + 2200)) in *.
  rewrite Z.mul_assoc in Hlt. apply Z.mul_lt_mono_pos_r in Hlt; [|done].
  rewrite Z.mul_assoc. apply Z.mul_le_mono_nonneg_r; lia.
Qed.

Lemma round_aux_bound mx ex lx c :
  0 ≤ mx → -2200 ≤ ex ≤ 128 → 0 < c < 2 ^ 53 →
  scaled mx ex ≤ bound c → (lx ≠ loc_Exact → scaled mx ex < bound c) →
  match binary_round_aux prec emax false mx ex lx with
  | S754_zero s => s = false
  | S754_finite s m e => s = false ∧ -2200 ≤ e ≤ 128 ∧ scaled (Zpos m) e ≤ bound c
  | _ => False
  end.
Proof.
  intros Hmx Hex Hc Hb Hstrict. unfold binary_round_aux.
  pose proof (shr_fexp_spec mx ex lx Hmx) as H1.
  pose proof (scaled_fexp_le mx ex c Hmx Hex Hc Hb) as Hf1.
  destruct (shr_fexp prec emax mx ex lx) as [mrs1 e1].
  destruct H1 as (He1 & Hm10 & Hm1 & Hl1).
  assert (He1' : ex ≤ e1 ≤ 128) by lia.
  destruct (scaled_div mx ex e1 Hmx ltac:(lia)) as [Hd1 Hd1'].
  rewrite <- Hm1 in Hd1, Hd1'.
  set (mr := round_nearest_even (shr_m mrs1) (loc_of_shr_record mrs1)).
  assert (Hmr : 0 ≤ mr ∧ scaled mr e1 ≤ bound c).
  { destruct (round_nearest_even_spec (shr_m mrs1) (loc_of_shr_record mrs1))
      as [Heq|[Heq Hne]]; fold mr in Heq; rewrite Heq.
    - split; [done|lia].
    - split; [lia|]. apply scaled_succ_le; [lia|].
      destruct (Hl1 Hne) as [Hmod|Hlx].
      + specialize (Hd1' Hmod). lia.
      + specialize (Hstrict Hlx). lia. }
  destruct Hmr as [Hmr0 Hmrb].
  pose proof (shr_fexp_spec mr e1 loc_Exact Hmr0) as H2.
  pose proof (scaled_fexp_le mr e1 c Hmr0 ltac:(lia) Hc Hmrb) as Hf2.
  destruct (shr_fexp prec emax mr e1 loc_Exact) as [mrs2 e2].
  destruct H2 as (He2 & Hm20 & Hm2 & _).
  assert (He2' : e1 ≤ e2 ≤ 128) by lia.
  destruct (scaled_div mr e1 e2 Hmr0 ltac:(lia)) as [Hd2 _].
  rewrite <- Hm2 in Hd2.
  destruct (shr_m mrs2) as [|m2|m2]; [done| |lia].
  assert ((e2 <=? emax - prec) = true) as -> by (apply Z.leb_le; unfold emax, prec; lia).
  split_and!; [done|lia|lia|lia].
Qed.


(** ** Non-negative floats below a bound *)

(** [x] is a zero or a positive finite float of value at most [c * 2 ^ 128]. *)
Definition below (c : Z) (x : spec_float) : Prop :=
  match x with
  | S754_zero _ => True
  | S754_finite false m e => -2200 ≤ e ≤ 128 ∧ scaled (Zpos m) e ≤ bound c
  | _ => False
  end.

Lemma bound_mono c c' : c ≤ c' → bound c ≤ bound c'.
Proof. intros. unfold bound. apply Z.mul_le_mono_nonneg_r; lia. Qed.

Lemma below_mono c c' x : c ≤ c' → below c x → below c' x.
Proof.
  intros Hc. destruct x as [?|?| |[|] m e]; try done. simpl.
  pose proof (bound_mono c c' Hc). lia.
Qed.

Lemma round_aux_below mx ex lx c :
  0 ≤ mx → -2200 ≤ ex ≤ 128 → 0 < c < 2 ^ 53 →
  scaled mx ex ≤ bound c → (lx ≠ loc_Exact → scaled mx ex < bound c) →
  below c (binary_round_aux prec emax false mx ex lx).
Proof.
  intros H1 H2 H3 H4 H5.
  pose proof (round_aux_bound mx ex lx c H1 H2 H3 H4 H5) as Hr.
  destruct (binary_round_aux prec emax false mx ex lx) as [?|?| |s m e];
    try done. destruct Hr as (-> & ? & ?); done.
Qed.

Lemma iter_xO m d : Zpos (Pos.iter xO m d) = Zpos m * 2 ^ Zpos d.
Proof.
  induction d as [|d IH] using Pos.peano_ind.
  - simpl. lia.
  - rewrite Pos.iter_succ, Pos2Z.inj_xO, IH, Pos2Z.inj_succ, Z.pow_succ_r by lia.
    lia.
Qed.

(** [shl_align] lowers the exponent to [e'] if it is above, and multiplies
    the mantissa accordingly. *)
Lemma shl_align_spec m e e' :
  let '(m', e'') := shl_align m e e' in
  e'' = Z.min e e' ∧ Zpos m' = Zpos m * 2 ^ (e - e'').
Proof.
  unfold shl_align. destruct (e' - e) as [|d|d] eqn:Hd.
  - rewrite Z.min_l by lia. rewrite Z.sub_diag. lia.
  - rewrite Z.min_l by lia. rewrite Z.sub_diag. lia.
  - rewrite Z.min_r by lia. rewrite iter_xO. split; [done|]. f_equal. f_equal. lia.
Qed.

Lemma scaled_shift m e e' :
  -2200 ≤ e' ≤ e → scaled (m * 2 ^ (e - e')) e' = scaled m e.
Proof.
  intros He. unfold scaled. rewrite <- Z.mul_assoc, <- Z.pow_add_r by lia.
  do 2 f_equal. lia.
Qed.

Lemma SFadd_below x y cx cy :
  0 < cx → 0 < cy → cx + cy < 2 ^ 53 →
  below cx x → below cy y → below (cx + cy) (SF64add x y).
Proof.
  intros Hcx Hcy Hc Hx Hy.
  destruct x as [sx|sx| |[|] mx ex], y as [sy|sy| |[|] my ey]; try done.
  - simpl. by destruct sx, sy.
  - apply (below_mono cy); [lia|done].
  - apply (below_mono cx); [lia|done].
  - destruct Hx as [Hex Hbx], Hy as [Hey Hby].
    unfold SF64add, SFadd. cbn [cond_Zopp].
    pose proof (shl_align_spec mx ex (Z.min ex ey)) as Hax.
    pose proof (shl_align_spec my ey (Z.min ex ey)) as Hay.
    destruct (shl_align mx ex (Z.min ex ey)) as [mx' ex'].
    destruct (shl_align my ey (Z.min ex ey)) as [my' ey'].
    destruct Hax as [Hex' Hmx'], Hay as [Hey' Hmy']. cbn [fst].
    assert (ex' = Z.min ex ey) as -> by lia.
    assert (ey' = Z.min ex ey) as -> by lia.
    set (ez := Z.min ex ey) in *.
    change (Zpos mx' + Zpos my') with (Zpos (mx' + my')).
    unfold binary_normalize, binary_round.
    pose proof (shl_align_spec (mx' + my') ez
                  (fexp prec emax (Zpos (digits2_pos (mx' + my')) + ez))) as Haz.
    destruct (shl_align (mx' + my') ez _) as [mz ez'].
    destruct Haz as [Hez' Hmz].
    assert (Hf : -1074 ≤ fexp prec emax (Zpos (digits2_pos (mx' + my')) + ez))
      by (rewrite fexp_unfold; lia).
    assert (Hsum : scaled (Zpos mz) ez' = scaled (Zpos mx) ex + scaled (Zpos my) ey).
    { rewrite Hmz, scaled_shift by lia.
      rewrite Pos2Z.inj_add, Hmx', Hmy'. unfold scaled at 1.
      rewrite Z.mul_add_distr_r. fold (scaled (Zpos mx * 2 ^ (ex - ez)) ez).
      fold (scaled (Zpos my * 2 ^ (ey - ez)) ez).
      rewrite !scaled_shift by lia. done. }
    apply round_aux_below; [lia|lia|lia| |done].
    rewrite Hsum. unfold bound in *. lia.
Qed.

(** ** Division by a count *)

Lemma digits_exp_le m e c :
  0 < m → -2200 ≤ e ≤ 128 → 0 < c < 2 ^ 53 → scaled m e ≤ bound c →
  Zdigits2 m + e ≤ 181.
Proof.
  intros Hm He Hc Hb.
  destruct (Zdigits2_bounds m) as [Hlo _]; [lia|].
  pose proof (Zdigits2_nonneg m) as Hd.
  destruct (decide (Zdigits2 m + e ≤ 181)) as [|Hbig]; [lia|].
  exfalso. unfold scaled, bound in Hb.
  assert (H1 : 2 ^ (181 - e) ≤ 2 ^ (Zdigits2 m - 1)) by (apply Z.pow_le_mono_r; lia).
  assert (H2 : 2 ^ (181 - e) * 2 ^ (e + 2200) = 2 ^ 2381).
  { rewrite <- Z.pow_add_r by lia. f_equal. lia. }
  assert (H3 : 2 ^ 2381 = 2 ^ 53 * 2 ^ 2328).
  { rewrite <- Z.pow_add_r by lia. done. }
  assert (0 < 2 ^ (e + 2200)) by (apply Z.pow_pos_nonneg; lia).
  assert (0 < 2 ^ 2328) by (apply Z.pow_pos_nonneg; lia).
  nia.
Qed.

Lemma new_location_Exact n r : new_location n r ≠ loc_Exact → r ≠ 0.
Proof.
  intros H ->. apply H. unfold new_location, new_location_even, new_location_odd.
  by destruct (Z.even n).
Qed.

Lemma quotient_nonneg a b q r :
  0 ≤ a → 0 < b → a = b * q + r → 0 ≤ r < b → 0 ≤ q.
Proof. intros. nia. Qed.

Lemma quotient_bound q r P Py n W X B :
  0 ≤ q → 0 ≤ r → 0 < P → 0 < Py → 0 < W → 1 ≤ n →
  q * P * n * W + r * P * Py = X * W → X ≤ B →
  q * P ≤ B ∧ (r ≠ 0 → q * P < B).
Proof.
  intros Hq Hr HP HPy HW Hn Heq HX. set (a := q * P) in *.
  assert (Ha : 0 ≤ a) by (apply Z.mul_nonneg_nonneg; lia).
  assert (Han : a ≤ a * n) by nia.
  assert (Hrp : 0 ≤ r * P * Py)
    by (apply Z.mul_nonneg_nonneg; [apply Z.mul_nonneg_nonneg|]; lia).
  assert (HXB : X * W ≤ B * W) by (apply Z.mul_le_mono_nonneg_r; lia).
  split.
  - assert (Hle : a * n * W ≤ B * W) by lia.
    apply Z.mul_le_mono_pos_r in Hle; lia.
  - intros Hr0.
    assert (0 < r * P * Py) by (apply Z.mul_pos_pos; [apply Z.mul_pos_pos|]; lia).
    assert (Hlt : a * n * W < B * W) by lia.
    apply Z.mul_lt_mono_pos_r in Hlt; lia.
Qed.

(** The float [y] is the integer [n]. *)
Definition is_count (n : Z) (y : spec_float) : Prop :=
  ∃ my ey, y = S754_finite false my ey ∧ -52 ≤ ey ≤ 0
           ∧ scaled (Zpos my) ey = n * 2 ^ 2200.

Lemma SFdiv_below x y c n :
  0 < c < 2 ^ 53 → 1 ≤ n → below c x → is_count n y →
  below c (SF64div x y).
Proof.
  intros Hc Hn Hx (my & ey & -> & Hey & Hy).
  destruct x as [sx|sx| |[|] mx ex]; try done.
  destruct Hx as [Hex Hbx]. unfold SF64div, SFdiv, SFdiv_core_binary.
  set (e' := Z.min _ _).
  set (m' := match ex - ey - e' with Z0 => _ | Zpos _ => _ | Zneg _ => _ end).
  pose proof (Z_div_mod m' (Zpos my) ltac:(lia)) as Hqr.
  destruct (Z.div_eucl m' (Zpos my)) as [q r]. destruct Hqr as [Hqr Hr].
  cbn [xorb].
  pose proof (digits_exp_le (Zpos mx) ex c ltac:(lia) ltac:(lia) Hc Hbx) as Hdx.
  assert (Hdy : 1 ≤ Zdigits2 (Zpos my) + ey).
  { destruct (Zdigits2_bounds (Zpos my)) as [_ Hhi]; [lia|].
    pose proof (Zdigits2_nonneg (Zpos my)).
    destruct (decide (1 ≤ Zdigits2 (Zpos my) + ey)); [done|]. exfalso.
    unfold scaled in Hy.
    assert (2 ^ (Zdigits2 (Zpos my)) * 2 ^ (ey + 2200) ≤ 2 ^ 2200).
    { rewrite <- Z.pow_add_r by lia. apply Z.pow_le_mono_r; lia. }
    assert (0 < 2 ^ (ey + 2200)) by (apply Z.pow_pos_nonneg; lia).
    assert (0 < 2 ^ 2200) by (apply Z.pow_pos_nonneg; lia).
    nia. }
  assert (He' : -2200 ≤ e' ≤ 128 ∧ e' ≤ ex - ey).
  { unfold e'. rewrite fexp_unfold. lia. }
  assert (Hm' : m' = Zpos mx * 2 ^ (ex - ey - e')).
  { unfold m'. destruct (ex - ey - e') as [|p|p] eqn:Hs; [lia| |lia].
    rewrite Z.shiftl_mul_pow2 by lia. done. }
  assert (Hq : 0 ≤ q).
  { assert (0 ≤ m') by (rewrite Hm'; apply Z.mul_nonneg_nonneg;
      [lia|apply Z.pow_nonneg; lia]).
    apply (quotient_nonneg m' (Zpos my) q r); lia. }
  set (P' := 2 ^ (e' + 2200)). set (Ps := 2 ^ (ex - ey - e')) in *.
  set (Py := 2 ^ (ey + 2200)). set (Px := 2 ^ (ex + 2200)).
  assert (HP' : 0 < P') by (apply Z.pow_pos_nonneg; lia).
  assert (HPy : 0 < Py) by (apply Z.pow_pos_nonneg; lia).
  assert (H22 : 0 < 2 ^ 2200) by (apply Z.pow_pos_nonneg; lia).
  assert (Hprod : Ps * P' * Py = Px * 2 ^ 2200).
  { unfold Ps, P', Py, Px. rewrite <- !Z.pow_add_r by lia. f_equal. lia. }
  unfold scaled in Hy, Hbx. fold Py in Hy. fold Px in Hbx.
  set (W := 2 ^ 2200) in *. set (B := bound c) in *.
  assert (Hmain : q * P' * n * W + r * P' * Py = Zpos mx * Px * W).
  { rewrite <- (Z.mul_assoc (Zpos mx) Px), <- Hprod.
    replace (Zpos mx * (Ps * P' * Py)) with (m' * P' * Py) by (rewrite Hm'; ring).
    rewrite Hqr.
    replace (q * P' * n * W) with (q * P' * (n * W)) by ring.
    rewrite <- Hy. ring. }
  destruct (quotient_bound q r P' Py n W (Zpos mx * Px) B) as [Hle Hlt];
    try lia.
  apply round_aux_below; [done|lia|done| |].
  - unfold scaled. by fold P'.
  - intros Hloc%new_location_Exact. unfold scaled. fold P'. by apply Hlt.
Qed.

(** ** Integers as floats *)

Lemma Zdigits2_mul_pow2 m k :
  0 < m → 0 ≤ k → Zdigits2 (m * 2 ^ k) = Zdigits2 m + k.
Proof.
  intros Hm Hk. assert (0 < 2 ^ k) by (apply Z.pow_pos_nonneg; lia).
  rewrite !Zdigits2_log2 by nia. rewrite Z.log2_mul_pow2 by lia. lia.
Qed.

(** Rounding a mantissa that already fits is the identity. *)
Lemma binary_round_aux_exact m e :
  fexp prec emax (Zpos (digits2_pos m) + e) = e → e ≤ 971 →
  binary_round_aux prec emax false (Zpos m) e loc_Exact = S754_finite false m e.
Proof.
  intros Hf He. unfold binary_round_aux, shr_fexp.
  cbn [Zdigits2]. rewrite Hf, Z.sub_diag. cbn [shr shr_record_of_loc shr_m
    loc_of_shr_record round_nearest_even Zdigits2].
  rewrite Hf, Z.sub_diag. cbn [shr shr_record_of_loc shr_m].
  assert ((e <=? emax - prec) = true) as -> by (apply Z.leb_le; unfold emax, prec; lia).
  done.
Qed.

Lemma binary_normalize_count n :
  1 ≤ n < 2 ^ 53 → is_count n (binary_normalize prec emax n 0 false).
Proof.
  intros Hn. destruct n as [|p|p]; try lia.
  unfold binary_normalize, binary_round.
  pose proof (Zdigits2_bounds (Zpos p) ltac:(lia)) as [Hlo Hhi].
  assert (Hd : 1 ≤ Zdigits2 (Zpos p) ≤ 53).
  { split.
    - pose proof (Zdigits2_nonneg (Zpos p)).
      destruct (decide (Zdigits2 (Zpos p) = 0)) as [H0|]; [|lia].
      rewrite H0 in Hhi. simpl in Hhi. lia.
    - apply Zdigits2_le; lia. }
  cbn [Zdigits2] in Hd.
  pose proof (shl_align_spec p 0 (fexp prec emax (Zpos (digits2_pos p) + 0))) as Ha.
  destruct (shl_align p 0 _) as [mz ez]. destruct Ha as [Hez Hmz].
  rewrite fexp_unfold in Hez.
  assert (Hez' : ez = Zpos (digits2_pos p) - 53) by lia.
  exists mz, ez. split_and!; [|lia|lia|].
  - apply binary_round_aux_exact; [|lia].
    change (Zpos (digits2_pos mz)) with (Zdigits2 (Zpos mz)).
    rewrite Hmz, Zdigits2_mul_pow2 by lia. rewrite fexp_unfold. cbn [Zdigits2]. lia.
  - rewrite Hmz. rewrite scaled_shift by lia. unfold scaled. done.
Qed.

Lemma float_of_Z_count n :
  1 ≤ n < 2 ^ 53 → is_count n (Prim2SF (of_uint63 (of_Z n))).
Proof.
  intros Hn. rewrite of_uint63_spec, of_Z_spec.
  rewrite Z.mod_small; [by apply binary_normalize_count|].
  split; [lia|]. eapply Z.lt_trans; [apply Hn|]. done.
Qed.

(** ** Losses *)

(** The largest finite float32. *)
Definition float32_max : float := 0x1.fffffep+127%float.

(** A Python float that is a non-negative finite float32 value. *)
Definition is_loss (x : float) : Prop :=
  (0 <=? x)%float = true ∧ (x <=? float32_max)%float = true.

Lemma valid_finite s m e :
  valid_binary (S754_finite s m e) = true → -1074 ≤ e ∧ Zpos m < 2 ^ 53.
Proof.
  unfold SpecFloat.valid_binary, bounded, canonical_mantissa.
  intros [Hc _]%andb_true_iff. apply Z.eqb_eq in Hc.
  rewrite fexp_unfold in Hc. split; [lia|].
  destruct (Zdigits2_bounds (Zpos m) ltac:(lia)) as [_ Hhi]. cbn [Zdigits2] in Hhi.
  eapply Z.lt_le_trans; [exact Hhi|]. apply Z.pow_le_mono_r; lia.
Qed.

Lemma is_loss_below l : is_loss l → below 1 (Prim2SF l).
Proof.
  intros [H0 Hmax]. rewrite FloatAxioms.leb_spec in H0, Hmax.
  pose proof (Prim2SF_valid l) as Hv.
  change (Prim2SF 0) with (S754_zero false) in H0.
  change (Prim2SF float32_max) with (S754_finite false 9007198717870080 75) in Hmax.
  destruct (Prim2SF l) as [s|[|]| |[|] m e]; try done.
  apply valid_finite in Hv as [He Hm].
  unfold SFleb, SFcompare in Hmax.
  assert (Hcmp : e ≤ 75).
  { destruct (Z.compare_spec e 75); [lia|lia|done]. }
  clear Hmax. unfold below, scaled, bound. split; [lia|].
  assert (HP : 0 < 2 ^ (e + 2200)) by (apply Z.pow_pos_nonneg; lia).
  assert (HQ : 2 ^ 53 ≤ 2 ^ (128 - e)) by (apply Z.pow_le_mono_r; lia).
  replace 2328 with ((128 - e) + (e + 2200)) by lia.
  rewrite (Z.pow_add_r 2 (128 - e) (e + 2200)) by lia.
  set (P := 2 ^ (e + 2200)) in *. set (Q := 2 ^ (128 - e)) in *.
  set (T := 2 ^ 53) in *.
  assert (Zpos m * P ≤ Q * P) by (apply Z.mul_le_mono_nonneg_r; lia). lia.
Qed.


Lemma fold_below losses :
  Forall is_loss losses → ∀ acc c,
  0 < c → c + Z.of_nat (length losses) < 2 ^ 53 → below c (Prim2SF acc) →
  below (c + Z.of_nat (length losses)) (Prim2SF (fold_left PrimFloat.add losses acc)).
Proof.
  induction 1 as [|l ls Hl _ IH]; intros acc c Hc Hlen Hacc;
    cbn [fold_left length] in *.
  - change (Z.of_nat 0) with 0. by rewrite Z.add_0_r.
  - rewrite Nat2Z.inj_succ in *.
    replace (c + Z.succ (Z.of_nat (length ls))) with (c + 1 + Z.of_nat (length ls)) by lia.
    apply IH; [lia|lia|]. rewrite FloatAxioms.add_spec.
    apply SFadd_below; [lia|lia|lia|done|by apply is_loss_below].
Qed.

Lemma below_finite_nonneg c f :
  below c (Prim2SF f) → is_finite f = true ∧ (0 <=? f)%float = true.
Proof.
  unfold is_finite, is_nan, is_infinity.
  rewrite FloatAxioms.leb_spec, !FloatAxioms.eqb_spec, FloatAxioms.abs_spec.
  change (Prim2SF 0) with (S754_zero false).
  change (Prim2SF infinity) with (S754_infinity false).
  destruct (Prim2SF f) as [s|s| |[|] m e]; try done. intros _.
  unfold SFeqb, SFleb, SFabs, SFcompare.
  by rewrite Z.compare_refl, Pos.compare_cont_refl.
Qed.


Close Scope Z_scope.

Lemma average_finite_nonneg losses :
  losses ≠ [] → Forall is_loss losses →
  (Z.of_nat (length losses) < 2 ^ 52)%Z →
  is_finite (average losses) = true ∧ (0 <=? average losses)%float = true.
Proof.
  intros Hne Hl Hlen.
  assert (Hn : (1 ≤ Z.of_nat (length losses))%Z) by (destruct losses; [done|simpl; lia]).
  assert (H52 : (2 ^ 52 + 1 < 2 ^ 53)%Z) by done.
  apply (below_finite_nonneg (1 + Z.of_nat (length losses))).
  unfold average. rewrite FloatAxioms.div_spec.
  apply (SFdiv_below _ _ _ (Z.of_nat (length losses))); [lia|lia| |].
  - apply fold_below; [done|lia|lia|done].
  - apply float_of_Z_count. lia.
Qed.

(** *** The notebook from top to bottom *)

Definition metric_key_step (mt : metric) : string * nat :=
  (metric_key mt, metric_step mt).

Lemma epochs_metrics_keys trl tel es mss :
  epochs_metrics trl tel es mss →
  metric_key_step <$> concat mss
  = es ≫= λ e, [("average_train_loss", e); ("average_test_loss", e)].
Proof.
  induction 1 as [|e ms es mss (tl & vl & -> & _) _ IH]; [done|].
  change (concat (epoch_metrics e tl vl :: mss))
    with (epoch_metrics e tl vl ++ concat mss).
  rewrite fmap_app, IH. done.
Qed.

Lemma final_run_params ex ms m :
  dom (run_params (final_run ex ms m)) = {["learning_rate"; "momentum"]}
  ∧ size (run_params (final_run ex ms m)) = 2.
Proof.
  unfold final_run; cbn [run_params]. split.
  - rewrite !dom_insert_L, dom_empty_L. set_solver.
  - rewrite map_size_insert_None, map_size_insert_None, map_size_empty; [done..|].
    by rewrite lookup_insert_ne.
Qed.

Lemma train_script_ok s :
  good_env →
  ∃ g w1 m mss, train_script (fresh_process s) = Ok g w1 ∧ trained s g w1 m mss.
Proof.
  intros Hgood. pose proof (train_script_spec s Hgood) as Hpost.
  unfold post in Hpost. destruct (train_script (fresh_process s)) as [g w1|]; [|done].
  destruct Hpost as (m & mss & Htr). by exists g, w1, m, mss.
Qed.

Lemma script_ok w g w1 lm w2 :
  train_script w = Ok g w1 → load_script g w1 = Ok lm w2 →
  script w = Ok (g, lm) w2.
Proof.
  intros H1 H2. unfold script, bind. rewrite H1. cbn beta iota.
  rewrite H2. done.
Qed.

(** C1: in an environment where nothing fails, the notebook run in a fresh
    process adds exactly one run record to the server's runs, whatever the
    server held before and however the cells after the training cell end.
    The record holds exactly the two parameters [learning_rate] and
    [momentum], and its metrics are, in this order, [average_train_loss] and
    [average_test_loss] at step [e] for [e] = 0, 1, 2, 3, 4: ten metrics, two
    per epoch.  When the server has no model named [MNISTModel] yet the whole
    notebook runs to its end without raising. *)
Theorem script_produces_one_run s :
  good_env →
  ∃ r,
    post script (fresh_process s)
      (λ _ w', runs (srv w') = runs s ++ [r])
      (λ _ w', runs (srv w') = runs s ++ [r])
    ∧ dom (run_params r) = {["learning_rate"; "momentum"]}
    ∧ size (run_params r) = 2
    ∧ metric_key_step <$> run_metrics r
      = seq 0 5 ≫= (λ e, [("average_train_loss", e); ("average_test_loss", e)])
    ∧ length (run_metrics r) = 10
    ∧ (registry s !! "MNISTModel" = None →
       ∃ g lm w', script (fresh_process s) = Ok (g, lm) w' ∧ raised w' = []).
Proof.
  intros Hgood.
  destruct (train_script_ok s Hgood) as (g & w1 & m & mss & Hrun & Htr).
  pose proof Htr as (_&_&_&_&_&_&_&_&_&_&_& Hsrv & Hmss).
  exists (final_run "mnist_pytorch_experiment" (concat mss) m).
  destruct (final_run_params "mnist_pytorch_experiment" (concat mss) m) as [Hdom Hsize].
  pose proof (epochs_metrics_keys _ _ _ _ Hmss) as Hkeys.
  split_and!; [|exact Hdom|exact Hsize|exact Hkeys| |].
  - unfold script, post, bind. rewrite Hrun. cbn beta iota.
    pose proof (load_script_server g w1) as Hl. unfold post in Hl.
    destruct (load_script g w1); cbn [ret]; destruct Hl as [-> _];
      rewrite Hsrv; reflexivity.
  - cbn [final_run run_metrics].
    rewrite <- (length_fmap metric_key_step), Hkeys. done.
  - intros Hreg.
    destruct (load_script_spec s g w1 m mss Hgood Htr Hreg)
      as (w2 & fig & Hload & _ & _ & _ & Hra & _).
    exists g, 1, w2. split; [by eapply script_ok|done].
Qed.

(** C6: in an environment where nothing fails and on a server that has no
    model named [MNISTModel], the training cell registers exactly one version
    of [MNISTModel]; then loading ["models:/MNISTModel/1"] succeeds and gives
    a new module object that is the pickled trained model, loading any other
    version raises, and the notebook itself loads version 1. *)
Theorem registered_version_resolves s :
  good_env → registry s !! "MNISTModel" = None →
  ∃ g w1 m,
    train_script (fresh_process s) = Ok g w1
    ∧ modules w1 !! g_model g = Some m
    ∧ registry (srv w1) !! "MNISTModel" = Some [mkVersion (g_run g) "mnist_model"]
    ∧ (∃ w2, mlflow_pytorch_load_model (ModelsUri "MNISTModel" 1) w1
             = Ok (length (modules w1)) w2
             ∧ modules w2 = modules w1 ++ [pickle m])
    ∧ (∀ v, v ≠ 1 →
         ∃ w2, mlflow_pytorch_load_model (ModelsUri "MNISTModel" v) w1
               = Raise MlflowException w2)
    ∧ (∃ w3, script (fresh_process s) = Ok (g, 1) w3
             ∧ modules w3 !! 1 = Some (for_inference (pickle m))).
Proof.
  intros Hgood Hreg.
  destruct (train_script_ok s Hgood) as (g & w1 & m & mss & Hrun & Htr).
  pose proof (trained_resolve s g w1 m mss) as Hres.
  pose proof Htr as (Hg & Hm &_&_&_&_&_&_&_&_&_& Hsrv & _).
  exists g, w1, m. split_and!.
  - done.
  - rewrite Hg, Hm. done.
  - rewrite Hsrv, Hg, Hreg. cbn [registry g_run default app].
    by rewrite lookup_insert_eq.
  - eexists. unfold mlflow_pytorch_load_model, external.
    rewrite (no_faults Hgood). unfold bind, get. cbn [srv set_io_calls].
    rewrite (Hres 1 Htr Hreg), decide_True by done.
    unfold new_module, bind, get, modify, ret. wsimpl. done.
  - intros v Hv. eexists. unfold mlflow_pytorch_load_model, external.
    rewrite (no_faults Hgood). unfold bind, get. cbn [srv set_io_calls].
    rewrite (Hres v Htr Hreg), decide_False by done. done.
  - destruct (load_script_spec s g w1 m mss Hgood Htr Hreg)
      as (w2 & fig & Hload & Hm2 & _).
    exists w2. split; [by eapply script_ok|]. by rewrite Hm2.
Qed.

(** C5, as amended: in an environment where nothing fails and on a server
    that has no model named [MNISTModel] before the run, the notebook runs to
    its end, the model it reloads from ["models:/MNISTModel/1"] is the
    artifact that [log_model] stored in its run, and on every input tensor the
    reloaded model, the stored artifact and the trained model give the same
    result of the forward pass. *)
Theorem reloaded_model_same_logits s :
  good_env → registry s !! "MNISTModel" = None →
  ∃ g lm w' m m',
    script (fresh_process s) = Ok (g, lm) w'
    ∧ modules w' !! g_model g = Some m
    ∧ modules w' !! lm = Some m'
    ∧ (∃ r, runs (srv w') !! g_run g = Some r
            ∧ run_artifacts r !! "mnist_model" = Some (pickle m))
    ∧ resolve (srv w') (ModelsUri "MNISTModel" 1) = Some (pickle m)
    ∧ ∀ x, forward m' x = forward m x ∧ forward (pickle m) x = forward m x.
Proof.
  intros Hgood Hreg.
  destruct (train_script_ok s Hgood) as (g & w1 & m & mss & Hrun & Htr).
  destruct (load_script_spec s g w1 m mss Hgood Htr Hreg)
    as (w2 & fig & Hload & Hm2 & Hsrv2 & _).
  pose proof (trained_resolve s g w1 m mss 1 Htr Hreg) as Hres.
  rewrite decide_True in Hres by done.
  pose proof Htr as (Hg &_&_&_&_&_&_&_&_&_&_& Hsrv & _).
  exists g, 1, w2, m, (for_inference (pickle m)).
  split_and!.
  - by eapply script_ok.
  - by rewrite Hm2, Hg.
  - by rewrite Hm2.
  - rewrite Hsrv2, Hsrv, Hg. cbn [runs g_run].
    eexists. rewrite lookup_app_r, Nat.sub_diag by lia. split; [done|].
    cbn [final_run run_artifacts]. by rewrite lookup_insert_eq.
  - by rewrite Hsrv2.
  - intros x. split; [|done]. unfold for_inference.
    by rewrite forward_flags, forward_pickle.
Qed.

(** *** Exceptions are never caught *)

(** Nothing has been raised and every external call made so far succeeded. *)
Definition running (w : world) : Prop :=
  raised w = [] ∧ ∀ k, k < io_calls w → faults env k = None.

(** The script stopped with [e]: [e] is the one exception that was ever
    raised, and if an external call failed it was the last call made and it
    failed with [e]. *)
Definition halted (e : exn) (w : world) : Prop :=
  raised w = [e]
  ∧ ∀ k e', k < io_calls w → faults env k = Some e' → e' = e ∧ S k = io_calls w.

(** [m] handles no exception: from a running world it either returns in a
    running world or raises the first failure and stops there. *)
Definition uncaught {A} (m : M A) : Prop :=
  ∀ w, running w → post m w (λ _, running) halted.

Lemma uncaught_ret {A} (a : A) : uncaught (ret a).
Proof. intros w Hw. by apply post_ret. Qed.

Lemma uncaught_bind {A B} (m : M A) (k : A → M B) :
  uncaught m → (∀ a, uncaught (k a)) → uncaught (bind m k).
Proof.
  intros Hm Hk w Hw. apply post_bind.
  eapply post_mono; [by apply Hm| |done]. intros a w' Hw'. by apply Hk.
Qed.

Lemma uncaught_raise {A} e : uncaught (raise e : M A).
Proof.
  intros w [Hr Hio]. apply post_raise. split.
  - cbn. by rewrite Hr.
  - cbn. intros k e' Hk Hf. rewrite Hio in Hf by done. done.
Qed.

Lemma uncaught_lift {A} (r : result A) : uncaught (lift r).
Proof. destruct r; [apply uncaught_ret|apply uncaught_raise]. Qed.

Lemma uncaught_get : uncaught get.
Proof. intros w Hw. by apply post_get. Qed.

Lemma uncaught_modify f :
  (∀ w, raised (f w) = raised w ∧ io_calls (f w) = io_calls w) →
  uncaught (modify f).
Proof.
  intros Hf w [Hr Hio]. apply post_modify. destruct (Hf w) as [Hr' Hio'].
  split; [congruence|]. by rewrite Hio'.
Qed.

Lemma uncaught_external {A} (m : M A) : uncaught m → uncaught (external m).
Proof.
  intros Hm w [Hr Hio]. apply post_external.
  destruct (faults env (io_calls w)) as [e|] eqn:Hf.
  - split; cbn; [by rewrite Hr|].
    intros k e' Hk Hf'. destruct (decide (k = io_calls w)) as [->|].
    + split; congruence.
    + rewrite Hio in Hf' by lia. done.
  - apply Hm. split; cbn; [done|].
    intros k Hk. destruct (decide (k = io_calls w)) as [->|]; [done|].
    apply Hio. lia.
Qed.

Lemma uncaught_for_fold {A S} (l : list A) (s : S) (body : A → S → M S) :
  (∀ x s, uncaught (body x s)) → uncaught (for_fold l s body).
Proof.
  intros Hb. revert s. induction l as [|x l IH]; intros s; simpl.
  - apply uncaught_ret.
  - apply uncaught_bind; auto.
Qed.

Lemma uncaught_for_each {A} (l : list A) (body : A → M unit) :
  (∀ x, uncaught (body x)) → uncaught (for_each l body).
Proof.
  intros Hb. induction l as [|x l IH]; simpl.
  - apply uncaught_ret.
  - apply uncaught_bind; auto.
Qed.

Lemma uncaught_with_no_grad {A} (body : M A) :
  uncaught body → uncaught (with_no_grad body).
Proof.
  intros Hb w Hw. apply post_with_no_grad.
  eapply post_mono; [by apply Hb| |]; done.
Qed.

Lemma end_run_raised st w :
  raised (end_run st w) = raised w ∧ io_calls (end_run st w) = io_calls w.
Proof. unfold end_run. by destruct (active_run w). Qed.

Lemma uncaught_with_start_run {A} (body : nat → M A) :
  uncaught mlflow_start_run → (∀ run, uncaught (body run)) →
  uncaught (with_start_run body).
Proof.
  intros Hs Hb w Hw. apply post_with_start_run.
  eapply post_mono; [by apply Hs| |done]. intros run w1 Hw1.
  eapply post_mono; [by apply Hb| |].
  - intros a w2 [Hr Hio]. destruct (end_run_raised FINISHED w2) as [Hr' Hio'].
    split; [congruence|]. by rewrite Hio'.
  - intros e w2 [Hr Hio]. destruct (end_run_raised FAILED w2) as [Hr' Hio'].
    split; [congruence|]. by rewrite Hio'.
Qed.

(** The proof that a script handles no exception follows its syntax. *)
Ltac uncaught_step :=
  lazymatch goal with
  | |- uncaught (bind _ _) => apply uncaught_bind; [|intros ?]
  | |- uncaught (ret _) => apply uncaught_ret
  | |- uncaught get => apply uncaught_get
  | |- uncaught (modify _) => apply uncaught_modify; done
  | |- uncaught (raise _) => apply uncaught_raise
  | |- uncaught (lift _) => apply uncaught_lift
  | |- uncaught (external _) => apply uncaught_external
  | |- uncaught (for_fold _ _ _) => apply uncaught_for_fold; intros ? ?
  | |- uncaught (for_each _ _) => apply uncaught_for_each; intros ?
  | |- uncaught (with_no_grad _) => apply uncaught_with_no_grad
  | |- uncaught (with_start_run _) => apply uncaught_with_start_run; [|intros ?]
  | |- uncaught (match ?x with _ => _ end) => destruct x
  | |- uncaught (if ?x then _ else _) => destruct x
  | |- uncaught (let _ := _ in _) => cbv zeta
  end.

Lemma uncaught_current_run : uncaught current_run.
Proof. unfold current_run, create_run, on_server. repeat uncaught_step. Qed.

Lemma uncaught_deref_module r : uncaught (deref_module r).
Proof. unfold deref_module. repeat uncaught_step. Qed.

Lemma uncaught_update_module r f : uncaught (update_module r f).
Proof. unfold update_module. repeat uncaught_step. Qed.

Lemma uncaught_Module_call model x : uncaught (Module_call model x).
Proof.
  unfold Module_call. uncaught_step; [apply uncaught_deref_module|].
  uncaught_step.
Qed.

Lemma uncaught_DataLoader_iter dl : uncaught (DataLoader_iter dl).
Proof. unfold DataLoader_iter. repeat uncaught_step. Qed.

Lemma uncaught_log_metric key value step :
  uncaught (mlflow_log_metric key value step).
Proof.
  unfold mlflow_log_metric, on_server. uncaught_step. uncaught_step;
    [apply uncaught_current_run|]. uncaught_step.
Qed.

Lemma uncaught_log_param key value : uncaught (mlflow_log_param key value).
Proof.
  unfold mlflow_log_param, on_server. uncaught_step. uncaught_step;
    [apply uncaught_current_run|]. uncaught_step.
Qed.

Lemma uncaught_train_batch model optimizer batch acc :
  uncaught (train_batch model optimizer batch acc).
Proof.
  unfold train_batch, SGD_zero_grad, SGD_step, loss_backward, deref_optimizer.
  repeat first [apply uncaught_Module_call | apply uncaught_deref_module
               | apply uncaught_update_module | uncaught_step].
Qed.

Lemma uncaught_eval_batch model batch acc :
  uncaught (eval_batch model batch acc).
Proof.
  unfold eval_batch.
  repeat first [apply uncaught_Module_call | uncaught_step].
Qed.

Lemma uncaught_epoch model optimizer trl tel e :
  uncaught (epoch model optimizer trl tel e).
Proof.
  unfold epoch, evaluate, Module_train, Module_eval.
  repeat first [apply uncaught_update_module | apply uncaught_DataLoader_iter
               | apply uncaught_train_batch | apply uncaught_eval_batch
               | apply uncaught_log_metric | uncaught_step].
Qed.

Lemma uncaught_start_run : uncaught mlflow_start_run.
Proof. unfold mlflow_start_run, create_run, on_server. repeat uncaught_step. Qed.

Lemma uncaught_training_cell model optimizer trl tel :
  uncaught (training_cell model optimizer trl tel).
Proof.
  unfold training_cell, mlflow_pytorch_log_model, mlflow_register_model, on_server.
  repeat first [apply uncaught_start_run | apply uncaught_log_param
               | apply uncaught_epoch | apply uncaught_current_run
               | apply uncaught_deref_module | uncaught_step].
Qed.

Lemma uncaught_predict_and_visualize model ds index :
  uncaught (predict_and_visualize model ds index).
Proof.
  unfold predict_and_visualize, Module_eval, Module_to, plt_imshow, plt_title,
    plt_show.
  repeat first [apply uncaught_update_module | apply uncaught_Module_call
               | uncaught_step].
Qed.

Lemma uncaught_script : uncaught script.
Proof.
  unfold script, train_script, load_script, mlflow_set_tracking_uri,
    mlflow_set_experiment, datasets_MNIST, SimpleNN_init, SGD_init, new_module,
    mlflow_pytorch_load_model, print_module, on_server.
  repeat first [apply uncaught_training_cell | apply uncaught_predict_and_visualize
               | apply uncaught_deref_module | uncaught_step].
  all: try (apply uncaught_modify; done).
  all: unfold new_module; repeat uncaught_step.
Qed.

Lemma post_Raise {A} (m : M A) w (E : exn → world → Prop) :
  post m w (λ _ _, False) E → ∃ e w', m w = Raise e w' ∧ E e w'.
Proof. unfold post. destruct (m w) as [|e w']; [done|]. by exists e, w'. Qed.


Lemma float_0003_neq_09 : 0.003%float ≠ 0.9%float.
Proof.
  intros H.
  assert (Heq : (0.003 =? 0.9)%float = (0.9 =? 0.9)%float) by (by rewrite H).
  vm_compute in Heq. discriminate.
Qed.

(** C2: in an environment where nothing fails, however the cells after the
    training cell end, the run of the notebook holds the parameters
    [learning_rate] = 0.003 and [momentum] = 0.003, while the optimizer
    object, whose fields [optimizer.step()] reads at every update, has
    [lr] = 0.003 and [momentum] = 0.9: the logged learning rate is the
    optimizer's, the logged momentum is not. *)
Theorem logged_momentum_differs s :
  good_env →
  ∃ r o,
    post script (fresh_process s)
      (λ _ w', runs (srv w') !! length (runs s) = Some r ∧ optimizers w' = [o])
      (λ _ w', runs (srv w') !! length (runs s) = Some r ∧ optimizers w' = [o])
    ∧ run_params r !! "learning_rate" = Some 0.003%float
    ∧ run_params r !! "momentum" = Some 0.003%float
    ∧ lr o = 0.003%float ∧ momentum o = 0.9%float
    ∧ run_params r !! "learning_rate" = Some (lr o)
    ∧ run_params r !! "momentum" ≠ Some (momentum o)
    ∧ (0.003 =? 0.9)%float = false.
Proof.
  intros Hgood.
  destruct (train_script_ok s Hgood) as (g & w1 & m & mss & Hrun & Htr).
  pose proof Htr as (_&_&_&(o & Ho & _ & Hlr & Hmo)&_&_&_&_&_&_&_& Hsrv &_).
  exists (final_run "mnist_pytorch_experiment" (concat mss) m), o.
  assert (Hp1 : run_params (final_run "mnist_pytorch_experiment" (concat mss) m)
                !! "learning_rate" = Some 0.003%float).
  { unfold final_run; cbn [run_params].
    by rewrite lookup_insert_ne, lookup_insert_eq. }
  assert (Hp2 : run_params (final_run "mnist_pytorch_experiment" (concat mss) m)
                !! "momentum" = Some 0.003%float).
  { unfold final_run; cbn [run_params]. by rewrite lookup_insert_eq. }
  split_and!; [|exact Hp1|exact Hp2|exact Hlr|exact Hmo| | |reflexivity].
  - unfold script, post, bind. rewrite Hrun. cbn beta iota.
    pose proof (load_script_server g w1) as Hl. unfold post in Hl.
    destruct (load_script g w1); cbn [ret]; destruct Hl as [-> ->];
      rewrite Hsrv, Ho; cbn [runs];
      by rewrite lookup_app_r, Nat.sub_diag by lia.
  - by rewrite Hlr.
  - rewrite Hp2, Hmo. intros H. apply float_0003_neq_09. congruence.
Qed.

(** *** The logged averages *)

Lemma epochs_metrics_lookup trl tel es mss i e :
  epochs_metrics trl tel es mss → es !! i = Some e →
  ∃ tl vl, losses_ok trl tl ∧ losses_ok tel vl
    ∧ concat mss !! (2 * i) = Some (mkMetric "average_train_loss" (average tl) e)
    ∧ concat mss !! (2 * i + 1) = Some (mkMetric "average_test_loss" (average vl) e).
Proof.
  intros H. revert i. induction H as [|e0 ms es mss (tl & vl & -> & Htl & Hvl) _ IH];
    intros i Hi; [done|].
  destruct i as [|i].
  - injection Hi as ->. by exists tl, vl.
  - destruct (IH i Hi) as (tl' & vl' & ? & ? & H1 & H2).
    exists tl', vl'. split_and!; [done|done| |].
    + replace (2 * S i) with (S (S (2 * i))) by lia. exact H1.
    + replace (2 * S i + 1) with (S (S (2 * i + 1))) by lia. exact H2.
Qed.

Lemma DataLoader_len_le dl :
  0 < batch_size dl → DataLoader_len dl ≤ length (samples (dl_dataset dl)).
Proof.
  intros Hbs. unfold DataLoader_len.
  destruct (samples (dl_dataset dl)) as [|x l]; simpl length.
  - apply Nat.div_small_iff in Hbs as Hz; [|lia].
    replace (0 + batch_size dl - 1) with (batch_size dl - 1) by lia.
    rewrite Nat.div_small; lia.
  - apply Nat.Div0.div_le_upper_bound. nia.
Qed.



(** ** Further properties of the notebook *)

(** *** The logged test loss *)


(** *** The size of the model *)

(** The number of scalars in the parameters of a module. *)
Definition num_scalars (m : SimpleNN) : nat :=
  sum_list ((λ p, length (data (p_data p))) <$> parameters m).

Lemma num_scalars_wf (m : SimpleNN) : SimpleNN_wf m → num_scalars m = 784 * 128 + 128 + 128 * 64 + 64 + 64 * 10 + 10.
Proof.
  intros ((_&_& H1 & H2) & (_&_& H3 & H4) & (_&_& H5 & H6)).
  unfold num_scalars, parameters, Linear_parameters.
  cbn [app fmap list_fmap sum_list sum_list_with].
  rewrite H1, H2, H3, H4, H5, H6. unfold id. lia.
Qed.

(** In an environment where nothing fails, training keeps the architecture:
    the model in memory after the training cell, and the artifact logged for
    the run, have the six parameter tensors of [SimpleNN] with the layer
    sizes 784 to 128, 128 to 64 and 64 to 10, that is 109386 scalars; the
    artifact carries the values of the parameters of the model in memory and
    no gradient. *)
Theorem trained_model_architecture s :
  good_env →
  ∃ g w1 m r,
    train_script (fresh_process s) = Ok g w1
    ∧ modules w1 !! g_model g = Some m
    ∧ runs (srv w1) !! g_run g = Some r
    ∧ run_artifacts r !! "mnist_model" = Some (pickle m)
    ∧ SimpleNN_wf m ∧ SimpleNN_wf (pickle m)
    ∧ length (parameters m) = 6
    ∧ num_scalars m = 784 * 128 + 128 + 128 * 64 + 64 + 64 * 10 + 10
    ∧ num_scalars (pickle m) = num_scalars m
    ∧ p_data <$> parameters (pickle m) = p_data <$> parameters m
    ∧ Forall (λ p, p_grad p = None) (parameters (pickle m)).
Proof.
  intros Hgood.
  destruct (train_script_ok s Hgood) as (g & w1 & m & mss & Hrun & Htr).
  pose proof Htr as (Hg & Hm & Hwf &_&_&_&_&_&_&_&_& Hsrv & _).
  exists g, w1, m, (final_run "mnist_pytorch_experiment" (concat mss) m).
  split_and!.
  - done.
  - by rewrite Hm, Hg.
  - rewrite Hsrv, Hg. cbn [runs g_run].
    by rewrite lookup_app_r, Nat.sub_diag by lia.
  - unfold final_run; cbn [run_artifacts]. by rewrite lookup_insert_eq.
  - done.
  - by apply pickle_wf.
  - done.
  - by apply num_scalars_wf.
  - rewrite !num_scalars_wf; [done|done|by apply pickle_wf].
  - done.
  - unfold pickle, parameters, map_parameters, Linear_parameters, Linear_map,
      zero_grad_param; cbn. repeat constructor.
Qed.

(** *** The index of [predict_and_visualize] *)

Lemma Dataset_getitem_negative (ds : Dataset) (index : Z) :
  (- Z.of_nat (length (samples ds)) ≤ index < 0)%Z →
  Dataset_getitem ds index
  = Dataset_getitem ds (index + Z.of_nat (length (samples ds))).
Proof.
  intros Hi. unfold Dataset_getitem. cbv zeta.
  rewrite (decide_True (P := (index < 0)%Z)) by lia.
  rewrite (decide_False (P := (index + _ < 0)%Z)) by lia. done.
Qed.

Lemma Dataset_getitem_ok (ds : Dataset) (index : Z) :
  Forall sample_ok (samples ds) →
  (- Z.of_nat (length (samples ds)) ≤ index < Z.of_nat (length (samples ds)))%Z →
  ∃ img y, Dataset_getitem ds index = Val (img, y)
           ∧ shape img = [1; 28; 28] ∧ tensor_wf img.
Proof.
  intros Hok Hi. unfold Dataset_getitem. cbv zeta.
  set (n := Z.of_nat (length (samples ds))) in *.
  set (i := if decide (index < 0)%Z then (index + n)%Z else index).
  assert (Hin : (0 ≤ i < n)%Z) by (unfold i; case_decide; lia).
  rewrite decide_True by done.
  destruct (lookup_lt_is_Some_2 (samples ds) (Z.to_nat i)) as [[img y] Hs];
    [lia|].
  rewrite Hs. exists (transform img), y. split; [done|].
  rewrite Forall_lookup in Hok. destruct (Hok _ _ Hs) as (Hsh & Hwf & _).
  cbn [fst snd] in *. destruct (transform_shape img) as [Hts Htl].
  split; [by rewrite Hts|].
  unfold tensor_wf, numel in *. by rewrite Htl, Hts.
Qed.

(** For a module with the layer sizes of [SimpleNN] and a dataset of 28 by 28
    images, [predict_and_visualize] returns exactly when the index is within
    [-len(dataset) .. len(dataset) - 1], and raises [IndexError] otherwise;
    a negative index counts from the end: the call with [index] does what
    the call with [index + len(dataset)] does. *)
Theorem predict_and_visualize_index model ds index w m :
  modules w !! model = Some m → SimpleNN_wf m →
  Forall sample_ok (samples ds) →
  let n := Z.of_nat (length (samples ds)) in
  ((- n ≤ index < n)%Z ↔ ∃ r w', predict_and_visualize model ds index w = Ok r w')
  ∧ (¬ (- n ≤ index < n)%Z →
     ∃ w', predict_and_visualize model ds index w = Raise IndexError w')
  ∧ ((- n ≤ index < 0)%Z →
     predict_and_visualize model ds index w
     = predict_and_visualize model ds (index + n) w).
Proof.
  intros Hm Hwf Hok n.
  assert (Hout : ¬ (- n ≤ index < n)%Z →
     ∃ w', predict_and_visualize model ds index w = Raise IndexError w').
  { intros Hidx. eexists.
    unfold predict_and_visualize, Module_eval, update_module, bind, modify.
    assert (Dataset_getitem ds index = Exn IndexError) as ->; [|done].
    unfold Dataset_getitem. case_decide; case_decide; try done; lia. }
  split_and!; [split| exact Hout|].
  - intros Hi.
    destruct (Dataset_getitem_ok ds index Hok Hi) as (img & y & Hget & Hs & Himg).
    destruct (predict_and_visualize_spec model ds index w m img y Hm Hwf Hget Hs Himg)
      as (logits & _ & _ & _ & Hrun).
    by eexists _, _.
  - intros (r & w' & Hrun).
    destruct (decide (- n ≤ index < n)%Z) as [|Hidx]; [done|].
    destruct (Hout Hidx) as [w'' Hr]. congruence.
  - intros Hi. unfold predict_and_visualize.
    by rewrite (Dataset_getitem_negative ds index Hi).
Qed.

(** *** Gradients do not accumulate across batches *)

(** The gradient that [loss.backward()] computes for parameter [k]. *)
Definition batch_gradient (m : SimpleNN) (images : tensor R) (labels : list nat)
    (k : nat) (p : nnParameter) : list R :=
  autograd ((λ p, data (p_data p)) <$> parameters m) images labels k
  <$> seq 0 (length (data (p_data p))).

(** Because every training step starts with [optimizer.zero_grad()], the
    step does not depend on the gradients left by earlier steps: two worlds
    that differ only in the gradients stored in the model give the same
    outcome; and the gradients that the step leaves in the model are those of
    this batch alone, computed at the parameters before the step. *)
Theorem train_batch_ignores_stale_gradients model optimizer batch acc w m m' o
    images labels :
  modules w !! model = Some m →
  optimizers w !! optimizer = Some o → sgd_params o = model →
  grad_enabled w = true →
  collate batch = Val (images, labels) →
  pickle m' = pickle m →
  train_batch model optimizer batch acc
    (set_modules (<[model := m']> (modules w)) w)
  = train_batch model optimizer batch acc w
  ∧ ∀ acc' w', train_batch model optimizer batch acc w = Ok acc' w' →
      ∃ m1, modules w' !! model = Some m1
            ∧ p_grad <$> parameters m1
              = imap (λ k p, Some (batch_gradient m images labels k p))
                  (parameters m).
Proof.
  intros Hm Ho Hp Hg Hc Hpk.
  assert (Hlt : model < length (modules w)) by (by eapply lookup_lt_Some).
  split.
  - unfold train_batch. rewrite Hc.
    unfold bind at 1 3. unfold lift at 1 2, ret at 1 2. cbn beta iota.
    unfold bind at 1 3.
    assert (SGD_zero_grad optimizer (set_modules (<[model:=m']> (modules w)) w)
            = SGD_zero_grad optimizer w) as ->; [|done].
    unfold SGD_zero_grad, deref_optimizer, update_module, bind, get, modify, ret.
    wsimpl. rewrite Ho, Hp. wsimpl. do 2 f_equal.
    rewrite list_insert_alter, list_alter_alter_eq.
    apply list_alter_ext; [|done]. intros x Hx. cbn [compose].
    assert (x = m) as -> by congruence. exact Hpk.
  - assert (Hpost : post (train_batch model optimizer batch acc) w
              (λ _ w', ∃ m1, modules w' !! model = Some m1
                 ∧ p_grad <$> parameters m1
                   = imap (λ k p, Some (batch_gradient m images labels k p))
                       (parameters m))
              (λ _ _, True)).
    { destruct w; cbn [modules optimizers grad_enabled] in *. subst.
      unfold train_batch. rewrite Hc. mrun.
      unfold SGD_zero_grad, deref_optimizer, update_module. mrun.
      rewrite Ho. mrun. unfold Module_call, deref_module. mrun.
      rewrite list_lookup_alter_eq, Hm. cbn [fmap option_fmap option_map]. mrun.
      mstep. mstep; [|done]. mrun. mstep. mstep; [|done]. mrun.
      unfold loss_backward, update_module. mrun.
      unfold SGD_step, deref_optimizer, deref_module, update_module. mrun.
      rewrite Ho. mrun.
      rewrite !list_lookup_alter_eq, Hm. cbn [fmap option_fmap option_map]. mrun.
      eexists; split;
        [by rewrite !list_lookup_alter_eq, Hm|].
      unfold backward, parameters, map_parameters, Linear_parameters, Linear_map,
        accumulate_grad, zero_grad_param, sgd_param, sgd_buffer, batch_gradient.
      cbn [fc1 fc2 fc3 weight bias p_data p_grad app fmap list_fmap imap].
      repeat match goal with
             | |- context [mjoin ?x] => destruct (mjoin x)
             end; done. }
    intros acc' w' Hrun. unfold post in Hpost. by rewrite Hrun in Hpost.
Qed.

(** *** The forward pass works row by row *)

Lemma rows_app {A} k (y l : list A) :
  0 < k → length y = k → rows k (y ++ l) = y :: rows k l.
Proof.
  intros Hk Hy. unfold rows. rewrite length_app, Hy.
  replace (k + length l) with (1 * k + length l) by lia.
  rewrite Nat.div_add_l by lia. cbn [Nat.add seq fmap list_fmap].
  f_equal.
  - cbn [Nat.mul drop]. by apply take_app_length'.
  - rewrite <- fmap_S_seq, <- list_fmap_compose. apply list_fmap_ext.
    intros _ i _. cbn [compose]. f_equal.
    replace (S i * k) with (length y + i * k) by lia.
    apply drop_app_add.
Qed.

Lemma rows_bind {A B} k (g : A → list B) (l : list A) :
  0 < k → (∀ a, a ∈ l → length (g a) = k) → rows k (l ≫= g) = g <$> l.
Proof.
  intros Hk. induction l as [|a l IH]; intros Hg.
  - unfold rows. cbn. by rewrite Nat.Div0.div_0_l.
  - rewrite bind_cons, rows_app, IH, fmap_cons; [done| |done|].
    + intros b Hb. apply Hg. by right.
    + apply Hg. by left.
Qed.

Lemma fmap_bind_list {A B C} (f : B → C) (g : A → list B) (l : list A) :
  f <$> (l ≫= g) = l ≫= (λ a, f <$> g a).
Proof.
  induction l as [|a l IH]; [done|].
  by rewrite !bind_cons, fmap_app, IH.
Qed.

(** The logits of one image of 784 pixels. *)
Definition logits_of (m : SimpleNN) (x : list R) : list R :=
  affine (fc3 m)
    (relu_elem <$> affine (fc2 m) (relu_elem <$> affine (fc1 m) x)).

Lemma length_logits_of (m : SimpleNN) x : SimpleNN_wf m → length (logits_of m x) = 10.
Proof. intros (_ & _ & H3). by apply (length_affine 64 10); [lia|]. Qed.

Lemma forward_rows {A} (m : SimpleNN) shp (l : list A) (g : A → list R) :
  SimpleNN_wf m → (∀ a, a ∈ l → length (g a) = 28 * 28) →
  foldr Nat.mul 1 shp = length l * (28 * 28) →
  forward m (Tensor shp (l ≫= g))
  = Val (Tensor [length l; 10] (l ≫= λ a, logits_of m (g a))).
Proof.
  intros (H1 & H2 & H3) Hg Hn.
  pose proof H1 as (Hi1 & Ho1 & _). pose proof H2 as (Hi2 & Ho2 & _).
  pose proof H3 as (Hi3 & Ho3 & _).
  unfold forward, view_rows, numel. cbn [shape data].
  rewrite Hn, Nat.Div0.mod_mul, decide_True by done.
  rewrite Nat.div_mul by lia. cbn [rbind].
  unfold Linear_forward at 1. cbn [shape data last]. rewrite Hi1, Ho1.
  rewrite decide_True by done. cbn [rbind removelast app].
  rewrite rows_bind by (done || lia). rewrite list_fmap_bind.
  unfold torch_relu at 1. cbn [shape data]. rewrite fmap_bind_list.
  unfold Linear_forward at 1. cbn [shape data last]. rewrite Hi2, Ho2.
  rewrite decide_True by done. cbn [rbind removelast app].
  rewrite rows_bind; [|lia|].
  2:{ intros a _. cbn [compose]. rewrite length_fmap.
      by apply (length_affine (28 * 28) 128); [lia|]. }
  rewrite list_fmap_bind.
  unfold torch_relu at 1. cbn [shape data]. rewrite fmap_bind_list.
  unfold Linear_forward at 1. cbn [shape data last]. rewrite Hi3, Ho3.
  rewrite decide_True by done. cbn [rbind removelast app].
  rewrite rows_bind; [|lia|].
  2:{ intros a _. cbn [compose]. rewrite length_fmap.
      by apply (length_affine 128 64); [lia|]. }
  by rewrite list_fmap_bind.
Qed.

Lemma collate_eq (batch : list (tensor R * nat)) :
  batch ≠ [] → Forall sample_ok batch →
  collate batch
  = Val (Tensor [length batch; 1; 28; 28] (batch ≫= λ s, data (transform s.1)),
         batch.*2).
Proof.
  intros Hne Hok. unfold collate.
  destruct batch as [|[img0 y0] batch]; [done|].
  assert (Himgs : Forall (λ t : tensor R, shape t = [1; 28; 28])
            ((λ s, transform s.1) <$> (img0, y0) :: batch)).
  { apply Forall_fmap. eapply Forall_impl; [exact Hok|].
    intros [img y] (Hs & _ & _). cbn [fst snd compose] in *.
    by destruct (transform_shape img) as [-> _]. }
  rewrite fmap_cons in *. cbn [fst] in *.
  pose proof (Forall_inv Himgs) as Hs0.
  rewrite decide_True.
  2:{ eapply Forall_impl; [exact Himgs|]. intros t ->. by rewrite Hs0. }
  rewrite Hs0, length_cons, length_fmap.
  rewrite !bind_cons, list_fmap_bind. done.
Qed.


(** *** One pass over a loader *)

Lemma batch_sampler_concat {A} bs (l batch : list A) :
  0 < bs → length batch < bs →
  concat (batch_sampler bs batch l) = batch ++ l
  ∧ ∀ i b, batch_sampler bs batch l !! i = Some b →
      0 < length b ≤ bs
      ∧ (S i < length (batch_sampler bs batch l) → length b = bs).
Proof.
  intros Hbs. revert batch.
  induction l as [|x l IH]; intros batch Hlt; simpl.
  - case_decide.
    + split; [done|].
      intros [|i] b Hb; [|done]. injection Hb as <-. simpl. lia.
    + split; [|done]. destruct batch; [done|simpl in *; lia].
  - case_decide as Hfull.
    + destruct (IH [] ltac:(simpl; lia)) as [IH1 IH2].
      split; [simpl; by rewrite IH1, <- (assoc_L (++))|].
      intros [|i] b Hb.
      * injection Hb as <-. lia.
      * destruct (IH2 i b Hb) as [? Hl]. split; [done|].
        simpl. intros ?. apply Hl. lia.
    + rewrite length_app in Hfull. simpl in Hfull.
      destruct (IH (batch ++ [x])) as [IH1 IH2]; [rewrite length_app; simpl; lia|].
      split; [by rewrite IH1, <- (assoc_L (++))|done].
Qed.


(** *** What [predict_and_visualize] changes *)

(** What [predict_and_visualize] leaves alone, and what it does to the
    module it is given: the tracking server, the optimizers, the parameters
    of all modules, the other modules, the count of external calls, the
    random stream, the gradient mode, the active run and the output are as
    before; the module is in evaluation mode. *)
Definition inference_frame (model : nat) (w w' : world) : Prop :=
  srv w' = srv w ∧ optimizers w' = optimizers w
  ∧ parameters <$> modules w' = parameters <$> modules w
  ∧ (∀ j, j ≠ model → modules w' !! j = modules w !! j)
  ∧ (∀ m, modules w !! model = Some m →
       ∃ m', modules w' !! model = Some m' ∧ training m' = false)
  ∧ io_calls w' = io_calls w ∧ rng w' = rng w
  ∧ grad_enabled w' = grad_enabled w
  ∧ active_run w' = active_run w ∧ stdout w' = stdout w.

Ltac frame_leaf :=
  unfold inference_frame; wsimpl;
  split_and!;
  try done;
  try (by rewrite ?parameters_alter_flag by done);
  try (by intros j Hj; rewrite ?list_lookup_alter_ne by done);
  try (by intros m0 Hm0; rewrite ?list_lookup_alter_eq, Hm0;
          eexists; split; [done|]).

(** [predict_and_visualize], whether it returns or raises, makes no external
    call and writes nothing to the tracking server, changes no parameter of
    any module and no optimizer, leaves every other module as it was, and
    restores the gradient mode; it does change the module it is given, which
    stays in evaluation mode afterwards (also when the call raises), on the
    device that was selected when the call returns.  When it returns it has
    shown exactly one figure and left the current figure empty; when it
    raises it has shown none. *)
Theorem predict_and_visualize_frame model ds index w :
  post (predict_and_visualize model ds index) w
    (λ _ w', inference_frame model w w'
       ∧ (∃ fig, shown w' = shown w ++ [fig])
       ∧ gcf w' = empty_figure
       ∧ ∀ m, modules w !! model = Some m →
           modules w' !! model = Some (for_inference m))
    (λ _ w', inference_frame model w w' ∧ shown w' = shown w).
Proof.
  destruct w.
  unfold predict_and_visualize, Module_eval, Module_to, update_module,
    Module_call, deref_module, plt_imshow, plt_title, plt_show.
  repeat (mstep; wsimpl).
  all: try (split; [frame_leaf|done]).
  split_and!; [frame_leaf|by eexists|done|].
  intros m Hm. by rewrite !list_lookup_alter_eq, Hm.
Qed.

(** *** An empty test split *)

(** The run record that a failure in the evaluation of epoch 0 leaves. *)
Definition failed_run (ex : string) (ms : list metric) : run_record :=
  mkRun ex FAILED
    (<["momentum" := 0.003%float]> (<["learning_rate" := 0.003%float]> ∅))
    ms ∅.


(** *** The notebook on a server that already has the registered model *)

Lemma resolve_trained_old s g w1 m mss vs v x :
  trained s g w1 m mss → registry s !! "MNISTModel" = Some vs →
  resolve s (ModelsUri "MNISTModel" v) = Some x →
  resolve (srv w1) (ModelsUri "MNISTModel" v) = Some x.
Proof.
  intros (_&_&_&_&_&_&_&_&_&_&_& Hsrv &_) Hreg.
  rewrite Hsrv. unfold resolve. destruct v as [|k]; [done|].
  cbn [registry runs]. rewrite Hreg, lookup_insert_eq.
  cbn [mbind option_bind default].
  destruct (vs !! k) as [ver|] eqn:Hk; [|done].
  rewrite (lookup_app_l_Some _ _ _ _ Hk). cbn [mbind option_bind].
  destruct (runs s !! mv_run ver) as [x0|] eqn:Hx0; [|done].
  by rewrite (lookup_app_l_Some _ _ _ _ Hx0).
Qed.

Lemma resolve_trained_new s g w1 m mss vs :
  trained s g w1 m mss → registry s !! "MNISTModel" = Some vs →
  registry (srv w1) !! "MNISTModel"
  = Some (vs ++ [mkVersion (g_run g) "mnist_model"])
  ∧ resolve (srv w1) (ModelsUri "MNISTModel" (S (length vs))) = Some (pickle m).
Proof.
  intros (-> &_&_&_&_&_&_&_&_&_&_& Hsrv &_) Hreg.
  rewrite Hsrv. unfold resolve. cbn [registry runs g_run].
  rewrite Hreg, lookup_insert_eq. cbn [mbind option_bind default].
  split; [done|].
  rewrite (lookup_app_r vs) by lia. rewrite Nat.sub_diag.
  cbn [lookup list_lookup mbind option_bind mv_run mv_path].
  rewrite (lookup_app_r (runs s)) by lia. rewrite Nat.sub_diag.
  cbn [lookup list_lookup mbind option_bind]. unfold final_run.
  cbn [run_artifacts]. by rewrite lookup_insert_eq.
Qed.

(** The cells after the training cell, when ["models:/MNISTModel/1"] names
    the artifact [a]. *)
Lemma load_script_resolved g w1 m a img0 y0 rest :
  faults env (io_calls w1) = None →
  modules w1 = [m] →
  resolve (srv w1) (ModelsUri "MNISTModel" 1) = Some a → SimpleNN_wf a →
  samples (g_test_dataset g) = (img0, y0) :: rest → sample_ok (img0, y0) →
  ∃ w2 logits,
    load_script g w1 = Ok 1 w2
    ∧ modules w2 = [m; for_inference a]
    ∧ srv w2 = srv w1 ∧ raised w2 = raised w1
    ∧ forward a (unsqueeze0 (transform img0)) = Val logits
    ∧ fig_title <$> last (shown w2)
      = Some (prediction_title (argmax_row (data logits)) y0).
Proof.
  intros Hnf Hm Hres Hwf Hds (Hs0 & Hw0 & Hy0). cbn [fst snd] in *.
  destruct (transform_shape img0) as [Hts Htl].
  destruct w1 as [srv1 ????????????]; cbn [srv modules io_calls raised] in *.
  subst.
  set (w' := mkWorld srv1 tracking_uri0 experiment0 active_run0 [m; a]
               optimizers0 grad_enabled0 rng0 gcf0 shown0
               (stdout0 ++ [SimpleNN_repr a]) (S io_calls0) raised0).
  destruct (predict_and_visualize_spec 1 (g_test_dataset g) 0 w'
              a (transform img0) y0)
    as (logits & Hf & _ & _ & Hrun).
  { done. }
  { done. }
  { unfold Dataset_getitem. rewrite Hds. done. }
  { by rewrite Hts. }
  { unfold tensor_wf, numel in *. by rewrite Htl, Hts. }
  eexists _, logits.
  unfold load_script, bind.
  unfold mlflow_pytorch_load_model, external. wsimpl. rewrite Hnf.
  unfold bind, get. wsimpl. rewrite Hres.
  unfold new_module, bind, get, modify, ret. wsimpl.
  unfold print_module, deref_module, bind, get, modify, ret. wsimpl.
  cbn [app length lookup list_lookup]. wsimpl.
  change (mkWorld _ _ _ _ [m; a] _ _ _ _ _ _ _ _) with w'.
  rewrite Hrun.
  unfold after_predict, w'; wsimpl.
  split_and!; [done|done|done|done|done|].
  cbn [shown]. by rewrite last_snoc.
Qed.

(** In an environment where nothing fails, on a server where
    ["models:/MNISTModel/1"] already names an artifact [a] with the layer
    sizes of [SimpleNN] (a run of the notebook leaves the server so), the
    notebook runs to its end: it trains a model, logs it, and registers it
    as the next version, which names the new artifact; the versions that
    existed keep naming what they named; the experiment, if it existed, is
    not created again; and the model that the last cells load and use for
    the prediction is the old artifact [a], not the model just trained. *)
Theorem script_on_used_server s vs a :
  good_env →
  registry s !! "MNISTModel" = Some vs →
  resolve s (ModelsUri "MNISTModel" 1) = Some a → SimpleNN_wf a →
  ∃ g w' m logits y0,
    script (fresh_process s) = Ok (g, 1) w'
    ∧ raised w' = []
    ∧ modules w' = [m; for_inference a]
    ∧ registry (srv w') !! "MNISTModel"
      = Some (vs ++ [mkVersion (g_run g) "mnist_model"])
    ∧ g_run g = length (runs s)
    ∧ resolve (srv w') (RunsUri (g_run g) "mnist_model") = Some (pickle m)
    ∧ resolve (srv w') (ModelsUri "MNISTModel" (S (length vs))) = Some (pickle m)
    ∧ (∀ v x, resolve s (ModelsUri "MNISTModel" v) = Some x →
         resolve (srv w') (ModelsUri "MNISTModel" v) = Some x)
    ∧ ("mnist_pytorch_experiment" ∈ experiments s →
         experiments (srv w') = experiments s)
    ∧ (snd <$> head (mnist_test env)) = Some y0
    ∧ (∀ img0, (fst <$> head (mnist_test env)) = Some img0 →
         forward a (unsqueeze0 (transform img0)) = Val logits)
    ∧ fig_title <$> last (shown w')
      = Some (prediction_title (argmax_row (data logits)) y0).
Proof.
  intros Hgood Hreg Hres Hwf.
  destruct (train_script_ok s Hgood) as (g & w1 & m & mss & Hrun & Htr).
  pose proof (resolve_trained_old s g w1 m mss vs 1 a Htr Hreg Hres) as Hres1.
  destruct (resolve_trained_new s g w1 m mss vs Htr Hreg) as [Hreg1 Hnew].
  pose proof Htr as (Hg & Hm &_&_&_&_& Hra &_&_&_& Hio & Hsrv &_).
  destruct (mnist_test env) as [|[img0 y0] rest] eqn:Htest;
    [by destruct (test_nonempty Hgood)|].
  destruct (load_script_resolved g w1 m a img0 y0 rest)
    as (w2 & logits & Hload & Hm2 & Hsrv2 & Hra2 & Hf & Htitle);
    [apply (no_faults Hgood)|done|done|done|by rewrite Hg| |].
  { pose proof (test_ok Hgood) as Hok. rewrite Htest in Hok.
    by apply Forall_cons in Hok as [? _]. }
  exists g, w2, m, logits, y0. rewrite Hsrv2.
  split_and!.
  - by eapply script_ok.
  - by rewrite Hra2.
  - done.
  - done.
  - by rewrite Hg.
  - rewrite Hsrv, Hg. unfold resolve. cbn [runs g_run].
    rewrite lookup_app_r, Nat.sub_diag by lia.
    cbn [lookup list_lookup mbind option_bind]. unfold final_run.
    cbn [run_artifacts]. by rewrite lookup_insert_eq.
  - done.
  - intros v x Hx. by eapply resolve_trained_old.
  - intros Hex. rewrite Hsrv. cbn [experiments].
    apply subseteq_union_1_L. by apply singleton_subseteq_l.
  - done.
  - by intros ? [= <-].
  - done.
Qed.

(** *** The run is always ended *)

(** The run of the notebook is open: it is the one active run, the last run
    record of the server, in state [RUNNING]; the earlier run records and
    the registry are those of [s]. *)
Definition run_open (s : server) (w : world) : Prop :=
  active_run w = [length (runs s)]
  ∧ registry (srv w) = registry s
  ∧ ∃ r, runs (srv w) = runs s ++ [r] ∧ run_state r = RUNNING.

(** No run has been started on top of [s]. *)
Definition not_started (s : server) (w : world) : Prop :=
  active_run w = [] ∧ runs (srv w) = runs s ∧ registry (srv w) = registry s.

(** The run of the notebook has been ended in state [st]. *)
Definition run_ended (s : server) (st : run_status) (w : world) : Prop :=
  active_run w = []
  ∧ ∃ r, runs (srv w) = runs s ++ [r] ∧ run_state r = st.

(** [m] leaves the tracking server and the active run alone. *)
Definition offline {A} (m : M A) : Prop :=
  ∀ w, post m w (λ _ w', srv w' = srv w ∧ active_run w' = active_run w)
                (λ _ w', srv w' = srv w ∧ active_run w' = active_run w).

(** [m] keeps [P], whether it returns or raises. *)
Definition keeps (P : world → Prop) {A} (m : M A) : Prop :=
  ∀ w, P w → post m w (λ _, P) (λ _, P).

Lemma keeps_bind P {A B} (m : M A) (k : A → M B) :
  keeps P m → (∀ a, keeps P (k a)) → keeps P (bind m k).
Proof.
  intros Hm Hk w Hw. apply post_bind.
  eapply post_mono; [by apply Hm| |done]. intros a w' Hw'. by apply Hk.
Qed.

Lemma keeps_for_fold P {A S} (l : list A) (s : S) (body : A → S → M S) :
  (∀ x s, keeps P (body x s)) → keeps P (for_fold l s body).
Proof.
  intros Hb. revert s. induction l as [|x l IH]; intros s; simpl.
  - by intros w Hw.
  - apply keeps_bind; auto.
Qed.

Lemma keeps_for_each P {A} (l : list A) (body : A → M unit) :
  (∀ x, keeps P (body x)) → keeps P (for_each l body).
Proof.
  intros Hb. induction l as [|x l IH]; simpl.
  - by intros w Hw.
  - apply keeps_bind; auto.
Qed.

Lemma offline_keeps (P : world → Prop) {A} (m : M A) :
  (∀ w w', srv w' = srv w → active_run w' = active_run w → P w → P w') →
  offline m → keeps P m.
Proof.
  intros HP Hm w Hw. eapply post_mono; [apply Hm| |];
    intros ? w' [? ?]; by eapply HP.
Qed.

Lemma offline_train_batch model optimizer batch acc :
  offline (train_batch model optimizer batch acc).
Proof.
  intros w.
  unfold train_batch, SGD_zero_grad, Module_call, loss_backward, SGD_step,
    deref_optimizer, deref_module, update_module.
  repeat (mstep; try done).
Qed.

Lemma offline_eval_batch model batch acc : offline (eval_batch model batch acc).
Proof.
  intros w. unfold eval_batch, Module_call, deref_module.
  repeat (mstep; try done).
Qed.

Lemma offline_DataLoader_iter dl : offline (DataLoader_iter dl).
Proof. intros w. unfold DataLoader_iter. repeat (mstep; try done). Qed.

Lemma offline_update_module r f : offline (update_module r f).
Proof. intros w. unfold update_module. by mstep. Qed.

Lemma offline_lift {A} (r : result A) : offline (lift r).
Proof. intros w. mstep. by destruct r. Qed.

Lemma offline_with_no_grad {A} (body : M A) : offline body → offline (with_no_grad body).
Proof.
  intros Hb w. apply post_with_no_grad.
  eapply post_mono; [apply Hb| |]; by intros ? w' [? ?].
Qed.

Lemma offline_bind {A B} (m : M A) (k : A → M B) :
  offline m → (∀ a, offline (k a)) → offline (bind m k).
Proof.
  intros Hm Hk w. apply post_bind.
  eapply post_mono; [apply Hm| |done]. intros a w' [Hs Ha].
  eapply post_mono; [apply Hk| |]; intros ? w'' [? ?]; split; congruence.
Qed.

Lemma offline_for_fold {A S} (l : list A) (s : S) (body : A → S → M S) :
  (∀ x s, offline (body x s)) → offline (for_fold l s body).
Proof.
  intros Hb. revert s. induction l as [|x l IH]; intros s; simpl.
  - by intros w.
  - apply offline_bind; auto.
Qed.

Lemma offline_evaluate model tel : offline (evaluate model tel).
Proof.
  unfold evaluate, Module_eval.
  apply offline_bind; [apply offline_update_module|intros _].
  apply offline_with_no_grad.
  apply offline_bind; [apply offline_DataLoader_iter|intros batches].
  apply offline_for_fold. intros. apply offline_eval_batch.
Qed.

Lemma run_open_frame s w w' :
  srv w' = srv w → active_run w' = active_run w → run_open s w → run_open s w'.
Proof. unfold run_open. by intros -> ->. Qed.

(** Logging to the open run keeps it open. *)
Lemma log_keeps_open s (f : run_record → run_record) :
  (∀ x, run_state (f x) = run_state x) →
  keeps (run_open s) (external (r ← current_run ; on_server (update_run f r))).
Proof.
  intros Hf w (Har & Hreg & r & Hruns & Hst).
  destruct w as [[ex rs reg] ????????????];
    cbn [srv active_run runs registry] in *. subst.
  apply post_external. wsimpl.
  destruct (faults env io_calls0) as [e|].
  - unfold run_open; wsimpl. split_and!; [done|done|by exists r].
  - unfold current_run, on_server. mrun. rewrite update_run_last.
    unfold run_open; wsimpl. split_and!; [done|done|].
    exists (f r). by rewrite Hf.
Qed.

Lemma log_model_keeps_open s model path :
  keeps (run_open s) (mlflow_pytorch_log_model model path).
Proof.
  intros w (Har & Hreg & r & Hruns & Hst).
  destruct w as [[ex rs reg] ????????????];
    cbn [srv active_run runs registry] in *. subst.
  unfold mlflow_pytorch_log_model. apply post_external. wsimpl.
  destruct (faults env io_calls0) as [e|].
  - unfold run_open; wsimpl. split_and!; [done|done|by exists r].
  - unfold current_run, on_server, deref_module. mrun.
    destruct (modules0 !! model) as [m|]; mrun.
    + rewrite update_run_last.
      unfold run_open; wsimpl. split_and!; [done|done|by eexists].
    + mstep. unfold run_open; wsimpl. split_and!; [done|done|by exists r].
Qed.

Lemma epoch_keeps_open s model optimizer trl tel e :
  keeps (run_open s) (epoch model optimizer trl tel e).
Proof.
  pose proof (run_open_frame s) as HF.
  assert (HF' : ∀ w w', srv w' = srv w → active_run w' = active_run w →
                        run_open s w → run_open s w') by (intros; by eapply HF).
  unfold epoch, Module_train.
  apply keeps_bind; [by apply offline_keeps, offline_update_module|intros _].
  apply keeps_bind; [by apply offline_keeps, offline_DataLoader_iter|intros batches].
  apply keeps_bind.
  { apply offline_keeps; [done|]. apply offline_for_fold.
    intros. apply offline_train_batch. }
  intros running_loss.
  apply keeps_bind; [by apply offline_keeps, offline_lift|intros avg].
  apply keeps_bind; [by apply (log_keeps_open s (run_add_metric _))|intros _].
  apply keeps_bind; [by apply offline_keeps, offline_evaluate|intros test_loss].
  apply keeps_bind; [by apply offline_keeps, offline_lift|intros avg'].
  by apply (log_keeps_open s (run_add_metric _)).
Qed.

Lemma post_keeps_then (P : world → Prop) {A B} (m : M A) (k : A → M B) w
    (Q : B → world → Prop) (E : exn → world → Prop) :
  keeps P m → P w →
  (∀ a w', P w' → post (k a) w' Q E) → (∀ e w', P w' → E e w') →
  post (bind m k) w Q E.
Proof.
  intros Hm Hw Hk HE. apply post_bind.
  eapply post_mono; [by apply Hm|..]; eauto.
Qed.

Lemma end_run_open s st w :
  run_open s w →
  run_ended s st (end_run st w) ∧ registry (srv (end_run st w)) = registry s.
Proof.
  intros (Har & Hreg & r & Hruns & Hst).
  destruct w as [[ex rs reg] ????????????];
    cbn [srv active_run runs registry] in *. subst.
  unfold end_run, run_ended; wsimpl. rewrite update_run_last. wsimpl.
  split; [|done]. split; [done|]. by eexists.
Qed.

(** The registry after the notebook has registered its model on top of [s]. *)
Definition registry_after (s : server) : gmap string (list model_version) :=
  <["MNISTModel" := default [] (registry s !! "MNISTModel")
                    ++ [mkVersion (length (runs s)) "mnist_model"]]> (registry s).

Lemma training_cell_ends_run s model optimizer trl tel w :
  not_started s w →
  post (training_cell model optimizer trl tel) w
    (λ run w', run = length (runs s) ∧ run_ended s FINISHED w'
               ∧ registry (srv w') = registry_after s)
    (λ _ w', registry (srv w') = registry s
             ∧ (not_started s w' ∨ run_ended s FAILED w')).
Proof.
  intros (Har & Hruns & Hreg).
  destruct w as [[ex rs reg] ????????????];
    cbn [srv active_run runs registry] in *. subst.
  unfold training_cell. apply post_with_start_run.
  unfold mlflow_start_run. apply post_external. wsimpl.
  destruct (faults env io_calls0) as [e|].
  { split; [done|]. by left. }
  unfold create_run, on_server. mrun.
  set (w1 := mkWorld _ _ _ _ _ _ _ _ _ _ _ _ _).
  assert (Hopen : run_open s w1).
  { unfold run_open, w1, server_add_run; wsimpl.
    split_and!; [done|done|by eexists]. }
  assert (HE : ∀ (e : exn) w', run_open s w' →
            registry (srv (end_run FAILED w')) = registry s
            ∧ (not_started s (end_run FAILED w')
               ∨ run_ended s FAILED (end_run FAILED w'))).
  { intros e w' Hw'. destruct (end_run_open s FAILED w' Hw'). auto. }
  clearbody w1.
  eapply post_mono;
    [by apply (log_keeps_open s (run_add_param _ _))| |done].
  intros [] w2 Hw2. cbn beta in Hw2.
  apply (post_keeps_then (run_open s)); [|done| |done].
  { by apply (log_keeps_open s (run_add_param _ _)). }
  intros _ w3 Hw3. cbv zeta.
  apply (post_keeps_then (run_open s)); [|done| |done].
  { apply keeps_for_each. intros. apply epoch_keeps_open. }
  intros _ w4 Hw4.
  apply (post_keeps_then (run_open s)); [|done| |done].
  { apply log_model_keeps_open. }
  intros _ w5 Hw5.
  pose proof Hw5 as (Har5 & Hreg5 & r & Hruns5 & Hst5).
  destruct w5 as [[ex5 rs5 reg5] ????????????];
    cbn [srv active_run runs registry] in *. subst.
  mstep. unfold mlflow_register_model. apply post_external. wsimpl.
  destruct (faults env io_calls1) as [e|].
  { apply (HE e). unfold run_open; wsimpl. split_and!; [done|done|by exists r]. }
  unfold on_server. mrun.
  rewrite lookup_app_r, Nat.sub_diag by lia. cbn [lookup list_lookup]. mrun.
  unfold end_run, server_add_version, run_ended, registry_after; wsimpl.
  rewrite update_run_last. wsimpl.
  split_and!; [done|done|by eexists|done].
Qed.

Lemma offline_load_script g : offline (load_script g).
Proof.
  intros w.
  unfold load_script, mlflow_pytorch_load_model, new_module, print_module,
    deref_module, predict_and_visualize, Module_eval, Module_to, update_module,
    Module_call, deref_module, plt_imshow, plt_title, plt_show.
  repeat (mstep; try done).
Qed.

Lemma train_script_ends_run s :
  post train_script (fresh_process s)
    (λ g w', run_ended s FINISHED w' ∧ g_run g = length (runs s)
             ∧ registry (srv w') = registry_after s)
    (λ _ w', registry (srv w') = registry s
             ∧ (not_started s w' ∨ run_ended s FAILED w')).
Proof.
  destruct s as [ex rs reg].
  unfold train_script, fresh_process.
  unfold mlflow_set_tracking_uri. mrun.
  unfold mlflow_set_experiment. apply post_external. wsimpl.
  destruct (faults env 0) as [e|].
  { split; [done|]. by left. }
  unfold on_server. mrun.
  unfold datasets_MNIST at 1. apply post_external. wsimpl.
  destruct (faults env 1) as [e|].
  { split; [done|]. by left. }
  mrun.
  unfold datasets_MNIST at 1. apply post_external. wsimpl.
  destruct (faults env 2) as [e|].
  { split; [done|]. by left. }
  mrun.
  unfold SimpleNN_init, new_module. mrun.
  unfold SGD_init. mrun.
  eapply post_mono; [apply (training_cell_ends_run (mkServer ex rs reg))| |].
  - done.
  - intros run w' (-> & Hend & Hreg). mrun. done.
  - done.
Qed.


(** *** The figure *)

(** For a module with the layer sizes of [SimpleNN] and an index within the
    dataset, the one figure that [predict_and_visualize] shows holds the
    image of the sample as the dataset returns it, that is after the
    transform (normalised, not the raw pixels), as a 28 by 28 matrix: the
    batch dimension and the channel dimension are squeezed away.  The colour
    map is ["Greys_r"] and the title names the predicted digit and the label
    of the sample. *)
Theorem predict_and_visualize_figure model ds (i : nat) w m img y :
  modules w !! model = Some m → SimpleNN_wf m →
  samples ds !! i = Some (img, y) → sample_ok (img, y) →
  ∃ logits w',
    predict_and_visualize model ds (Z.of_nat i) w
    = Ok (logits, [argmax_row (data logits)]) w'
    ∧ shown w'
      = shown w
        ++ [mkFigure (Some (Tensor [28; 28] (Rnormalize <$> data img)))
              "Greys_r"
              ("Predicted Digit: " +:+ pretty (argmax_row (data logits))
               +:+ ", True Label: " +:+ pretty y)]
    ∧ length (Rnormalize <$> data img) = 28 * 28
    ∧ gcf w' = empty_figure.
Proof.
  intros Hm Hwf Hi (Hs & Ht & _). cbn [fst snd] in *.
  destruct (transform_shape img) as [Hts Htl].
  assert (Hget : Dataset_getitem ds (Z.of_nat i) = Val (transform img, y)).
  { unfold Dataset_getitem. cbv zeta.
    pose proof (lookup_lt_Some _ _ _ Hi).
    rewrite (decide_False (P := (Z.of_nat i < 0)%Z)) by lia.
    rewrite decide_True by lia. by rewrite Nat2Z.id, Hi. }
  destruct (predict_and_visualize_spec model ds (Z.of_nat i) w m (transform img) y)
    as (logits & _ & _ & _ & Hrun); [done|done|done|by rewrite Hts| |].
  { unfold tensor_wf, numel in *. by rewrite Htl, Hts. }
  eexists logits, _. split; [exact Hrun|].
  unfold after_predict; wsimpl. cbn [shown gcf].
  split_and!; [|rewrite length_fmap, Ht; unfold numel; by rewrite Hs|done].
  do 3 f_equal. unfold squeeze, unsqueeze0, transform. cbn [shape data].
  rewrite Hs. cbn [filter list_filter]. by repeat case_decide.
Qed.

(** *** The mode of the logged model *)

(** The module [model], if it exists, is in evaluation mode. *)
Definition eval_mode (model : nat) (w : world) : Prop :=
  ∀ m, modules w !! model = Some m → training m = false.

(** [m] does not touch the modules when it returns. *)
Definition same_modules {A} (m : M A) : Prop :=
  ∀ w, post m w (λ _ w', modules w' = modules w) (λ _ _, True).

Lemma post_any {A} (m : M A) w (Q : A → world → Prop) :
  (∀ a w', Q a w') → post m w Q (λ _ _, True).
Proof. intros HQ. unfold post. by destruct (m w). Qed.

Lemma post_bind_any {A B} (m : M A) (k : A → M B) w (Q : B → world → Prop) :
  (∀ a w', post (k a) w' Q (λ _ _, True)) → post (bind m k) w Q (λ _ _, True).
Proof. intros Hk. apply post_bind. by apply post_any. Qed.

Lemma same_modules_bind {A B} (m : M A) (k : A → M B) :
  same_modules m → (∀ a, same_modules (k a)) → same_modules (bind m k).
Proof.
  intros Hm Hk w. apply post_bind.
  eapply post_mono; [apply Hm| |done]. intros a w' Hw'.
  eapply post_mono; [apply Hk| |done]. intros b w'' Hw''. congruence.
Qed.

Lemma same_modules_for_fold {A S} (l : list A) (s : S) (body : A → S → M S) :
  (∀ x s, same_modules (body x s)) → same_modules (for_fold l s body).
Proof.
  intros Hb. revert s. induction l as [|x l IH]; intros s; simpl.
  - by intros w.
  - apply same_modules_bind; auto.
Qed.

Lemma same_modules_eval_batch model batch acc :
  same_modules (eval_batch model batch acc).
Proof.
  intros w. unfold eval_batch, Module_call, deref_module.
  repeat (mstep; try done).
Qed.

Lemma same_modules_DataLoader_iter dl : same_modules (DataLoader_iter dl).
Proof. intros w. unfold DataLoader_iter. repeat (mstep; try done). Qed.

Lemma same_modules_lift {A} (r : result A) : same_modules (lift r).
Proof. intros w. mstep. by destruct r. Qed.

Lemma same_modules_log_metric key value step :
  same_modules (mlflow_log_metric key value step).
Proof.
  intros w. unfold mlflow_log_metric, current_run, create_run, on_server.
  repeat (mstep; try done).
Qed.

Lemma same_modules_log_model model path :
  same_modules (mlflow_pytorch_log_model model path).
Proof.
  intros w.
  unfold mlflow_pytorch_log_model, current_run, create_run, on_server,
    deref_module.
  repeat (mstep; try done).
Qed.

Lemma same_modules_register_model u name :
  same_modules (mlflow_register_model u name).
Proof.
  intros w. unfold mlflow_register_model, on_server.
  repeat (mstep; try done).
Qed.

Lemma same_modules_eval_mode {A} (m : M A) model w :
  same_modules m → eval_mode model w →
  post m w (λ _, eval_mode model) (λ _ _, True).
Proof.
  intros Hm Hw. eapply post_mono; [apply Hm| |done].
  intros a w' Hw'. unfold eval_mode. by rewrite Hw'.
Qed.

(** Every epoch ends with the model in evaluation mode: [model.eval()] is
    the last statement that sets the mode. *)
Lemma epoch_eval_mode model optimizer trl tel e w :
  post (epoch model optimizer trl tel e) w
    (λ _, eval_mode model) (λ _ _, True).
Proof.
  unfold epoch.
  do 5 (apply post_bind_any; intros ? ?).
  apply post_bind. unfold evaluate, Module_eval, update_module.
  apply post_bind. apply post_modify.
  set (w1 := set_modules _ _).
  assert (Hw1 : eval_mode model w1).
  { intros m. unfold w1; wsimpl. rewrite list_lookup_alter_eq.
    intros Hm. apply fmap_Some in Hm as (m0 & _ & ->). done. }
  clearbody w1. apply post_with_no_grad.
  eapply post_mono.
  - apply (same_modules_eval_mode
             (batches ← DataLoader_iter tel ; for_fold batches 0%float (eval_batch model))
             model (set_grad_enabled false w1)); [|done].
    apply same_modules_bind; [apply same_modules_DataLoader_iter|intros batches].
    apply same_modules_for_fold. intros. apply same_modules_eval_batch.
  - intros test_loss w2 Hw2.
    assert (Hw2' : eval_mode model (set_grad_enabled (grad_enabled w1) w2)) by done.
    eapply post_mono;
      [apply (same_modules_eval_mode _ model _); [|exact Hw2']| |done].
    + apply same_modules_bind; [apply same_modules_lift|intros avg].
      apply same_modules_log_metric.
    + done.
  - done.
Qed.

Lemma epochs_eval_mode model optimizer trl tel es w :
  es ≠ [] →
  post (for_each es (epoch model optimizer trl tel)) w
    (λ _, eval_mode model) (λ _ _, True).
Proof.
  revert w. induction es as [|e es IH]; intros w Hne; [done|].
  simpl. destruct es as [|e' es].
  - apply post_bind. eapply post_mono; [apply epoch_eval_mode| |done].
    intros [] w' Hw'. by apply post_ret.
  - apply post_bind_any. intros _ w'. by apply IH.
Qed.

Lemma train_script_eval_mode s :
  post train_script (fresh_process s)
    (λ g, eval_mode (g_model g)) (λ _ _, True).
Proof.
  unfold train_script.
  do 5 (apply post_bind_any; intros ? ?).
  apply post_bind_any. intros optimizer w. apply post_bind.
  unfold training_cell. apply post_with_start_run.
  apply post_any. intros run w1.
  do 2 (apply post_bind_any; intros ? ?). cbv zeta.
  apply post_bind.
  eapply post_mono; [by apply epochs_eval_mode| |done].
  intros [] w2 Hw2.
  eapply post_mono; [eapply same_modules_eval_mode; [|exact Hw2]| |done].
  - apply same_modules_bind; [apply same_modules_log_model|intros _].
    apply same_modules_bind; [apply same_modules_register_model|intros _].
    by intros ?.
  - intros r w3 Hw3. apply post_ret. cbn [g_model].
    intros m. unfold end_run. destruct (active_run w3); [apply Hw3|].
    wsimpl. apply Hw3.
Qed.

(** In an environment where nothing fails, the training cell leaves the
    model in evaluation mode ([model.eval()] is the last statement of every
    epoch that sets the mode), and so the artifact that [log_model] stores,
    which keeps the mode of the model, is in evaluation mode too, as is the
    version that [register_model] creates for it. *)
Theorem logged_model_in_eval_mode s :
  good_env →
  ∃ g w1 m r,
    train_script (fresh_process s) = Ok g w1
    ∧ modules w1 !! g_model g = Some m
    ∧ training m = false
    ∧ runs (srv w1) !! g_run g = Some r
    ∧ run_artifacts r !! "mnist_model" = Some (pickle m)
    ∧ training (pickle m) = false
    ∧ resolve (srv w1) (RunsUri (g_run g) "mnist_model") = Some (pickle m).
Proof.
  intros Hgood.
  destruct (train_script_ok s Hgood) as (g & w1 & m & mss & Hrun & Htr).
  pose proof Htr as (Hg & Hm &_&_&_&_&_&_&_&_&_& Hsrv & _).
  pose proof (train_script_eval_mode s) as Hmode.
  unfold post in Hmode. rewrite Hrun in Hmode.
  assert (Hm0 : modules w1 !! g_model g = Some m) by (by rewrite Hm, Hg).
  assert (Hr : runs (srv w1) !! g_run g
               = Some (final_run "mnist_pytorch_experiment" (concat mss) m)).
  { rewrite Hsrv, Hg. cbn [runs g_run].
    by rewrite lookup_app_r, Nat.sub_diag by lia. }
  assert (Ha : run_artifacts (final_run "mnist_pytorch_experiment" (concat mss) m)
               !! "mnist_model" = Some (pickle m)).
  { unfold final_run; cbn [run_artifacts]. by rewrite lookup_insert_eq. }
  exists g, w1, m, (final_run "mnist_pytorch_experiment" (concat mss) m).
  split_and!; [done|done|by apply Hmode|done|done| |].
  { unfold pickle, map_parameters. cbn [training]. by apply Hmode. }
  unfold resolve. rewrite Hr. cbn [mbind option_bind]. exact Ha.
Qed.
End Model.

Arguments Ok {R A} a w.
Arguments Raise {R A} e w.
Arguments nnParameter : clear implicits.
Arguments Linear : clear implicits.
Arguments SimpleNN : clear implicits.
Arguments SGD : clear implicits.
Arguments run_record : clear implicits.
Arguments server : clear implicits.
Arguments figure : clear implicits.
Arguments world : clear implicits.
Arguments environment : clear implicits.
Arguments outcome : clear implicits.
Arguments M : clear implicits.
Arguments Dataset : clear implicits.
Arguments DataLoader : clear implicits.
Arguments globals : clear implicits.

(** * Worked examples

    Two environments over the instance [Float64.torch]: the same tiny
    dataset of grey images, two different random initialisations. *)

Lemma SFltb_irrefl x : SFltb x x = false.
Proof.
  unfold SFltb, SFcompare. destruct x as [[|]|[|]| |[|] m e]; try done.
  - by rewrite Z.compare_refl, Pos.compare_cont_refl.
  - by rewrite Z.compare_refl, Pos.compare_cont_refl.
Qed.

Lemma SFltb_trans x y z : SFltb x y = true → SFltb y z = true → SFltb x z = true.
Proof.
  unfold SFltb, SFcompare.
  destruct x as [[|]|[|]| |[|] mx ex], y as [[|]|[|]| |[|] my ey],
    z as [[|]|[|]| |[|] mz ez]; try done;
  rewrite ?Pos.compare_cont_spec; unfold Pos.switch_Eq;
  destruct (Z.compare_spec ex ey), (Z.compare_spec ey ez), (Z.compare_spec ex ez);
    try done; try lia;
  destruct (Pos.compare_spec mx my), (Pos.compare_spec my mz),
    (Pos.compare_spec mx mz); try done; try lia.
Qed.

(** [<] on binary64 floats is a strict order (a NaN is below nothing and
    above nothing). *)
Lemma float_ltb_irrefl (a : float) : (a <? a)%float = false.
Proof. rewrite FloatAxioms.ltb_spec. apply SFltb_irrefl. Qed.

Lemma float_ltb_trans (a b c : float) :
  (a <? b)%float = true → (b <? c)%float = true → (a <? c)%float = true.
Proof. rewrite !FloatAxioms.ltb_spec. apply SFltb_trans. Qed.

Module Example.
Import Float64.

Definition image : tensor float := Tensor [1; 28; 28] (replicate 784 0.25%float).

(** All parameters 0.5. *)
Definition init_a : nat → nat → nat → float := λ _ _ _, 0.5%float.

(** All parameters 0.5, except the bias of [fc3]: 0, 1, ..., 9. *)
Definition init_b : nat → nat → nat → float :=
  λ _ p j, if decide (p = 5) then float_of_nat j else 0.5%float.

Definition env_a : environment float :=
  mkEnv (λ _, None) [(image, 3); (image, 4)] [(image, 7)] init_a (λ i, i) false.

Definition env_b : environment float :=
  mkEnv (λ _, None) [(image, 3); (image, 4)] [(image, 7)] init_b (λ i, i) false.

Definition empty_server : server float := mkServer ∅ [] ∅.

(** The server as a run of the notebook leaves it. *)
Definition server_after {A} (o : outcome float A) : server float :=
  match o with
  | Ok _ w => srv w
  | Raise _ w => srv w
  end.

Definition model_b : SimpleNN float := SimpleNN_new (init_b 0).

(** A process that holds one new model. *)
Definition one_model : world float :=
  mkWorld empty_server "" "Default" [] [model_b] [] true 1 empty_figure [] [] 0 [].

End Example.

Import Float64 Example.

Lemma image_ok : sample_ok (image, 7).
Proof. split_and!; [done|by vm_compute|simpl; lia]. Qed.

Lemma good_env_a : good_env env_a.
Proof.
  split; try done.
  - repeat constructor; simpl; try lia; by vm_compute.
  - repeat constructor; simpl; try lia; by vm_compute.
Qed.

Lemma good_env_b : good_env env_b.
Proof.
  split; try done.
  - repeat constructor; simpl; try lia; by vm_compute.
  - repeat constructor; simpl; try lia; by vm_compute.
Qed.

(** The theorems with hypotheses, at the examples. *)

Lemma script_produces_one_run_witness :
  good_env env_a
  ∧ ∃ r,
      post (script env_a) (fresh_process empty_server)
        (λ _ w', runs (srv w') = runs empty_server ++ [r])
        (λ _ w', runs (srv w') = runs empty_server ++ [r])
      ∧ dom (run_params r) = {["learning_rate"; "momentum"]}
      ∧ size (run_params r) = 2
      ∧ metric_key_step <$> run_metrics r
        = seq 0 5 ≫= (λ e, [("average_train_loss", e); ("average_test_loss", e)])
      ∧ length (run_metrics r) = 10
      ∧ (registry empty_server !! "MNISTModel" = None →
         ∃ g lm w', script env_a (fresh_process empty_server) = Ok (g, lm) w'
                    ∧ raised w' = []).
Proof.
  split; [exact good_env_a|].
  apply (script_produces_one_run env_a empty_server good_env_a).
Defined.

Lemma logged_momentum_differs_witness :
  good_env env_a
  ∧ ∃ r o,
      post (script env_a) (fresh_process empty_server)
        (λ _ w', runs (srv w') !! length (runs empty_server) = Some r
                 ∧ optimizers w' = [o])
        (λ _ w', runs (srv w') !! length (runs empty_server) = Some r
                 ∧ optimizers w' = [o])
      ∧ run_params r !! "learning_rate" = Some 0.003%float
      ∧ run_params r !! "momentum" = Some 0.003%float
      ∧ lr o = 0.003%float ∧ momentum o = 0.9%float
      ∧ run_params r !! "learning_rate" = Some (lr o)
      ∧ run_params r !! "momentum" ≠ Some (momentum o)
      ∧ (0.003 =? 0.9)%float = false.
Proof.
  split; [exact good_env_a|].
  apply (logged_momentum_differs env_a empty_server good_env_a).
Defined.

Lemma SimpleNN_forward_spec_witness :
  modules one_model !! 0 = Some model_b
  ∧ Module_call 0 image one_model
    = match forward model_b image with
      | Val y => Ok y one_model
      | Exn e => Raise e (set_raised (raised one_model ++ [e]) one_model)
      end.
Proof.
  split; [reflexivity|].
  apply (SimpleNN_forward_spec 0 one_model model_b image). reflexivity.
Defined.


Lemma reloaded_model_same_logits_witness :
  good_env env_a ∧ registry empty_server !! "MNISTModel" = None
  ∧ ∃ g lm w' m m',
      script env_a (fresh_process empty_server) = Ok (g, lm) w'
      ∧ modules w' !! g_model g = Some m
      ∧ modules w' !! lm = Some m'
      ∧ (∃ r, runs (srv w') !! g_run g = Some r
              ∧ run_artifacts r !! "mnist_model" = Some (pickle m))
      ∧ resolve (srv w') (ModelsUri "MNISTModel" 1) = Some (pickle m)
      ∧ ∀ x, forward m' x = forward m x ∧ forward (pickle m) x = forward m x.
Proof.
  split_and!; [exact good_env_a|reflexivity|].
  apply (reloaded_model_same_logits env_a empty_server good_env_a). reflexivity.
Defined.

Lemma registered_version_resolves_witness :
  good_env env_a ∧ registry empty_server !! "MNISTModel" = None
  ∧ ∃ g w1 m,
      train_script env_a (fresh_process empty_server) = Ok g w1
      ∧ modules w1 !! g_model g = Some m
      ∧ registry (srv w1) !! "MNISTModel" = Some [mkVersion (g_run g) "mnist_model"]
      ∧ (∃ w2, mlflow_pytorch_load_model env_a (ModelsUri "MNISTModel" 1) w1
               = Ok (length (modules w1)) w2
               ∧ modules w2 = modules w1 ++ [pickle m])
      ∧ (∀ v, v ≠ 1 →
           ∃ w2, mlflow_pytorch_load_model env_a (ModelsUri "MNISTModel" v) w1
                 = Raise MlflowException w2)
      ∧ (∃ w3, script env_a (fresh_process empty_server) = Ok (g, 1) w3
               ∧ modules w3 !! 1 = Some (for_inference env_a (pickle m))).
Proof.
  split_and!; [exact good_env_a|reflexivity|].
  apply (registered_version_resolves env_a empty_server good_env_a). reflexivity.
Defined.

Lemma predict_and_visualize_deterministic_witness :
  modules one_model !! 0 = Some model_b
  ∧ SimpleNN_wf model_b
  ∧ Dataset_getitem (mkDataset [(image, 7)]) 0 = Val (transform image, 7)
  ∧ shape (transform image) = [1; 28; 28]
  ∧ tensor_wf (transform image)
  ∧ ∃ logits digit w1 w2,
      predict_and_visualize env_b 0 (mkDataset [(image, 7)]) 0 one_model
      = Ok (logits, [digit]) w1
      ∧ predict_and_visualize env_b 0 (mkDataset [(image, 7)]) 0 w1
        = Ok (logits, [digit]) w2
      ∧ forward model_b (unsqueeze0 (transform image)) = Val logits
      ∧ length (data logits) = 10
      ∧ digit = argmax_row (data logits)
      ∧ (∃ top, data logits !! digit = Some top
                ∧ ∀ x, x ∈ data logits → Rltb top x = false)
      ∧ fig_title <$> last (shown w1) = Some (prediction_title digit 7).
Proof.
  assert (H1 : modules one_model !! 0 = Some model_b) by reflexivity.
  assert (H2 : SimpleNN_wf model_b) by apply SimpleNN_new_wf.
  assert (H3 : Dataset_getitem (mkDataset [(image, 7)]) 0 = Val (transform image, 7))
    by reflexivity.
  assert (H4 : shape (transform image) = [1; 28; 28]) by reflexivity.
  assert (H5 : tensor_wf (transform image)) by (vm_compute; reflexivity).
  split_and!; [exact H1|exact H2|exact H3|exact H4|exact H5|].
  apply (predict_and_visualize_deterministic env_b 0 (mkDataset [(image, 7)]) 0
           one_model model_b (transform image) 7 H1 H2 H3 H4 H5
           float_ltb_irrefl float_ltb_trans).
Defined.


(** *** The notebook run a second time against the same server *)

(** The server as a first run of the notebook, from an empty server, leaves
    it: it holds version 1 of [MNISTModel]. *)
Definition first_server : server float :=
  server_after (script env_a (fresh_process empty_server)).

(** What is observed after the notebook has run: the run's id, the versions
    registered under [MNISTModel], and the logits on [image] of the model in
    memory, of the artifact that [log_model] stored in the run, and of the
    model that [load_model] returned. *)
Definition observe (o : outcome float (globals float * nat)) :
    option (nat * option (list model_version)
            * result (tensor float) * result (tensor float) * result (tensor float)) :=
  match o with
  | Ok (g, lm) w' =>
      m ← modules w' !! g_model g;
      r ← runs (srv w') !! g_run g;
      a ← run_artifacts r !! "mnist_model";
      m' ← modules w' !! lm;
      Some (g_run g, registry (srv w') !! "MNISTModel",
            forward m image, forward a image, forward m' image)
  | Raise _ _ => None
  end.

Definition logits_b : tensor float :=
  Tensor [1; 10] [201744; 201745; 201746; 201747; 201748;
                  201749; 201750; 201751; 201752; 201753]%float.

Definition logits_a : tensor float := Tensor [1; 10] (replicate 10 201744.5%float).

Lemma logits_a_neq_b : logits_a ≠ logits_b.
Proof.
  intros H.
  apply (f_equal (λ t, match data t with
                       | x :: _ => (x =? 201744.5)%float
                       | [] => false
                       end)) in H.
  vm_compute in H. discriminate.
Qed.

(** C5, as the specification states it, fails when the notebook is run a
    second time against the same tracking server: the second run (here with
    other initial weights) logs its model in run 1 and registers it as version
    2, and ["models:/MNISTModel/1"] still names the model of the first run.
    On [image] the logged model gives the logits [logits_b] and the reloaded
    model gives [logits_a]. *)
Lemma reloaded_model_differs :
  good_env env_b
  ∧ ∃ g lm w' m a m',
      script env_b (fresh_process first_server) = Ok (g, lm) w'
      ∧ raised w' = []
      ∧ g_run g = 1
      ∧ registry (srv w') !! "MNISTModel"
        = Some [mkVersion 0 "mnist_model"; mkVersion 1 "mnist_model"]
      ∧ modules w' !! g_model g = Some m
      ∧ (∃ r, runs (srv w') !! g_run g = Some r
              ∧ run_artifacts r !! "mnist_model" = Some a)
      ∧ modules w' !! lm = Some m'
      ∧ forward m image = Val logits_b
      ∧ forward a image = Val logits_b
      ∧ forward m' image = Val logits_a
      ∧ forward m' image ≠ forward a image
      ∧ forward m' image ≠ forward m image.
Proof.
  split; [exact good_env_b|].
  assert (observe (script env_b (fresh_process first_server))
          = Some (1, Some [mkVersion 0 "mnist_model"; mkVersion 1 "mnist_model"],
                  Val logits_b, Val logits_b, Val logits_a)) as Hobs
    by (vm_compute; reflexivity).
  assert (match script env_b (fresh_process first_server) with
          | Ok _ w' => raised w'
          | Raise e _ => [e]
          end = []) as Hraised
    by (vm_compute; reflexivity).
  revert Hobs Hraised.
  generalize (script env_b (fresh_process first_server)).
  intros [[g lm] w'|e w'] Hobs Hraised; [|discriminate].
  unfold observe in Hobs.
  destruct (modules w' !! g_model g) as [m|] eqn:Hm;
    cbn [mbind option_bind] in Hobs; [|discriminate].
  destruct (runs (srv w') !! g_run g) as [r|] eqn:Hr;
    cbn [mbind option_bind] in Hobs; [|discriminate].
  destruct (run_artifacts r !! "mnist_model") as [a|] eqn:Ha;
    cbn [mbind option_bind] in Hobs; [|discriminate].
  destruct (modules w' !! lm) as [m'|] eqn:Hm';
    cbn [mbind option_bind] in Hobs; [|discriminate].
  injection Hobs as Hrun Hreg Hfm Hfa Hfm'.
  exists g, lm, w', m, a, m'.
  split_and!;
    [reflexivity|exact Hraised|exact Hrun|exact Hreg|exact Hm
    |exists r; split; [exact Hr|exact Ha]
    |exact Hm'|exact Hfm|exact Hfa|exact Hfm'|..].
  - rewrite Hfm', Hfa. intros H. apply logits_a_neq_b. congruence.
  - rewrite Hfm', Hfm. intros H. apply logits_a_neq_b. congruence.
Qed.

(** * The further properties at the examples *)

(** The environment of [env_a] with an empty test split. *)
Definition env_c : environment float :=
  mkEnv (λ _, None) [(image, 3); (image, 4)] [] init_a (λ i, i) false.

(** A server on which a model has been logged and registered before. *)
Definition used_server : server float :=
  mkServer {["mnist_pytorch_experiment"]}
    [mkRun "mnist_pytorch_experiment" FINISHED ∅ [] {["mnist_model" := model_b]}]
    {["MNISTModel" := [mkVersion 0 "mnist_model"]]}.

(** [model_b] with stale (here empty) gradients. *)
Definition stale_model : SimpleNN float :=
  map_parameters (λ _ p, mkParameter (p_data p) (Some [])) model_b.

(** A process in the middle of training: one model and its optimizer. *)
Definition training_process : world float :=
  mkWorld empty_server "" "Default" [] [model_b]
    [mkSGD 0 0.003%float 0.9%float (replicate 6 None)]
    true 1 empty_figure [] [] 0 [].


Lemma trained_model_architecture_witness :
  good_env env_a
  ∧ ∃ g w1 m r,
      train_script env_a (fresh_process empty_server) = Ok g w1
      ∧ modules w1 !! g_model g = Some m
      ∧ runs (srv w1) !! g_run g = Some r
      ∧ run_artifacts r !! "mnist_model" = Some (pickle m)
      ∧ SimpleNN_wf m ∧ SimpleNN_wf (pickle m)
      ∧ length (parameters m) = 6
      ∧ num_scalars m = 784 * 128 + 128 + 128 * 64 + 64 + 64 * 10 + 10
      ∧ num_scalars (pickle m) = num_scalars m
      ∧ p_data <$> parameters (pickle m) = p_data <$> parameters m
      ∧ Forall (λ p, p_grad p = None) (parameters (pickle m)).
Proof.
  split; [exact good_env_a|].
  apply (trained_model_architecture env_a empty_server good_env_a).
Defined.

Lemma predict_and_visualize_index_witness :
  modules one_model !! 0 = Some model_b
  ∧ SimpleNN_wf model_b
  ∧ Forall sample_ok (samples (mkDataset [(image, 7)]))
  ∧ let n := Z.of_nat (length (samples (mkDataset [(image, 7)]))) in
    ((- n ≤ -1 < n)%Z
     ↔ ∃ r w', predict_and_visualize env_b 0 (mkDataset [(image, 7)]) (-1) one_model
               = Ok r w')
    ∧ (¬ (- n ≤ -1 < n)%Z →
       ∃ w', predict_and_visualize env_b 0 (mkDataset [(image, 7)]) (-1) one_model
             = Raise IndexError w')
    ∧ ((- n ≤ -1 < 0)%Z →
       predict_and_visualize env_b 0 (mkDataset [(image, 7)]) (-1) one_model
       = predict_and_visualize env_b 0 (mkDataset [(image, 7)]) (-1 + n) one_model).
Proof.
  assert (H1 : modules one_model !! 0 = Some model_b) by reflexivity.
  assert (H2 : SimpleNN_wf model_b) by apply SimpleNN_new_wf.
  assert (H3 : Forall sample_ok (samples (mkDataset [(image, 7)])))
    by (repeat constructor; exact image_ok).
  split_and!; [exact H1|exact H2|exact H3|].
  apply (predict_and_visualize_index env_b 0 (mkDataset [(image, 7)]) (-1)
           one_model model_b H1 H2 H3).
Defined.

Lemma train_batch_ignores_stale_gradients_witness :
  modules training_process !! 0 = Some model_b
  ∧ optimizers training_process !! 0
    = Some (mkSGD 0 0.003%float 0.9%float (replicate 6 None))
  ∧ sgd_params (mkSGD (R := float) 0 0.003%float 0.9%float (replicate 6 None)) = 0
  ∧ grad_enabled training_process = true
  ∧ collate [(image, 3)]
    = Val (Tensor [1; 1; 28; 28] (replicate 784 (-0.5)%float), [3])
  ∧ pickle stale_model = pickle model_b
  ∧ train_batch 0 0 [(image, 3)] 0%float
      (set_modules (<[0 := stale_model]> (modules training_process))
         training_process)
    = train_batch 0 0 [(image, 3)] 0%float training_process
  ∧ ∀ acc' w',
      train_batch 0 0 [(image, 3)] 0%float training_process = Ok acc' w' →
      ∃ m1, modules w' !! 0 = Some m1
            ∧ p_grad <$> parameters m1
              = imap (λ k p,
                        Some (batch_gradient model_b
                                (Tensor [1; 1; 28; 28] (replicate 784 (-0.5)%float))
                                [3] k p))
                  (parameters model_b).
Proof.
  assert (H1 : modules training_process !! 0 = Some model_b) by reflexivity.
  assert (H2 : optimizers training_process !! 0
               = Some (mkSGD 0 0.003%float 0.9%float (replicate 6 None)))
    by reflexivity.
  assert (H3 : sgd_params (mkSGD (R := float) 0 0.003%float 0.9%float
                             (replicate 6 None)) = 0) by reflexivity.
  assert (H4 : grad_enabled training_process = true) by reflexivity.
  assert (H5 : collate [(image, 3)]
               = Val (Tensor [1; 1; 28; 28] (replicate 784 (-0.5)%float), [3]))
    by (vm_compute; reflexivity).
  assert (H6 : pickle stale_model = pickle model_b) by reflexivity.
  split_and!; [exact H1|exact H2|exact H3|exact H4|exact H5|exact H6|..];
    apply (train_batch_ignores_stale_gradients 0 0 [(image, 3)] 0%float
             training_process model_b stale_model _ _ _ H1 H2 H3 H4 H5 H6).
Defined.




Lemma script_on_used_server_witness :
  good_env env_a
  ∧ registry used_server !! "MNISTModel" = Some [mkVersion 0 "mnist_model"]
  ∧ resolve used_server (ModelsUri "MNISTModel" 1) = Some model_b
  ∧ SimpleNN_wf model_b
  ∧ ∃ g w' m logits y0,
      script env_a (fresh_process used_server) = Ok (g, 1) w'
      ∧ raised w' = []
      ∧ modules w' = [m; for_inference env_a model_b]
      ∧ registry (srv w') !! "MNISTModel"
        = Some ([mkVersion 0 "mnist_model"] ++ [mkVersion (g_run g) "mnist_model"])
      ∧ g_run g = length (runs used_server)
      ∧ resolve (srv w') (RunsUri (g_run g) "mnist_model") = Some (pickle m)
      ∧ resolve (srv w')
          (ModelsUri "MNISTModel" (S (length [mkVersion 0 "mnist_model"])))
        = Some (pickle m)
      ∧ (∀ v x, resolve used_server (ModelsUri "MNISTModel" v) = Some x →
           resolve (srv w') (ModelsUri "MNISTModel" v) = Some x)
      ∧ ("mnist_pytorch_experiment" ∈ experiments used_server →
           experiments (srv w') = experiments used_server)
      ∧ (snd <$> head (mnist_test env_a)) = Some y0
      ∧ (∀ img0, (fst <$> head (mnist_test env_a)) = Some img0 →
           forward model_b (unsqueeze0 (transform img0)) = Val logits)
      ∧ fig_title <$> last (shown w')
        = Some (prediction_title (argmax_row (data logits)) y0).
Proof.
  assert (H1 : registry used_server !! "MNISTModel"
               = Some [mkVersion 0 "mnist_model"]) by (vm_compute; reflexivity).
  assert (H2 : resolve used_server (ModelsUri "MNISTModel" 1) = Some model_b).
  { unfold resolve. rewrite H1. reflexivity. }
  assert (H3 : SimpleNN_wf model_b) by apply SimpleNN_new_wf.
  split_and!; [exact good_env_a|exact H1|exact H2|exact H3|].
  apply (script_on_used_server env_a used_server [mkVersion 0 "mnist_model"]
           model_b good_env_a H1 H2 H3).
Defined.

Lemma predict_and_visualize_figure_witness :
  modules one_model !! 0 = Some model_b
  ∧ SimpleNN_wf model_b
  ∧ samples (mkDataset [(image, 7)]) !! 0 = Some (image, 7)
  ∧ sample_ok (image, 7)
  ∧ ∃ logits w',
      predict_and_visualize env_b 0 (mkDataset [(image, 7)]) (Z.of_nat 0) one_model
      = Ok (logits, [argmax_row (data logits)]) w'
      ∧ shown w'
        = shown one_model
          ++ [mkFigure (Some (Tensor [28; 28] (Rnormalize <$> data image)))
                "Greys_r"
                ("Predicted Digit: " +:+ pretty (argmax_row (data logits))
                 +:+ ", True Label: " +:+ pretty 7)]
      ∧ length (Rnormalize <$> data image) = 28 * 28
      ∧ gcf w' = empty_figure.
Proof.
  assert (H1 : modules one_model !! 0 = Some model_b) by reflexivity.
  assert (H2 : SimpleNN_wf model_b) by apply SimpleNN_new_wf.
  assert (H3 : samples (mkDataset [(image, 7)]) !! 0 = Some (image, 7))
    by reflexivity.
  split_and!; [exact H1|exact H2|exact H3|exact image_ok|].
  apply (predict_and_visualize_figure env_b 0 (mkDataset [(image, 7)]) 0
           one_model model_b image 7 H1 H2 H3 image_ok).
Defined.

Lemma logged_model_in_eval_mode_witness :
  good_env env_a
  ∧ ∃ g w1 m r,
      train_script env_a (fresh_process empty_server) = Ok g w1
      ∧ modules w1 !! g_model g = Some m
      ∧ training m = false
      ∧ runs (srv w1) !! g_run g = Some r
      ∧ run_artifacts r !! "mnist_model" = Some (pickle m)
      ∧ training (pickle m) = false
      ∧ resolve (srv w1) (RunsUri (g_run g) "mnist_model") = Some (pickle m).
Proof.
  split; [exact good_env_a|].
  apply (logged_model_in_eval_mode env_a empty_server good_env_a).
Defined.
